(** * simple-transport: the eigenvalue driver

    A shallow embedding of [src/eigenvalue.c] (bank synchronisation, the
    convergence diagnostics, the k_eff statistics and the batch/generation
    driver) and of [src/io.c] (the command line, the configuration file,
    the reports and the source file), with the properties the specification
    states about them and further properties of the code.

    Conventions of the embedding.
    - [unsigned long] values are integers in [0, 2^64); every unsigned
      operation that can leave that range is written with [wrap64].
    - [int] values are integers; the driver's counters stay far inside the
      [int] range, so their arithmetic is written without wrap-around.
    - [double] values are exact real numbers extended with the IEEE-754
      special values (infinities and NaN): division by zero, [sqrt] of a
      negative number and the like produce what IEEE-754 prescribes, while
      rounding, overflow and the sign of zero are not modelled.  This
      settles which formula a function evaluates.  What depends on the
      rounding of an operation (the grid box of a position, the equality of
      two sums) is stated for the functions over an arbitrary arithmetic,
      of which binary64 is one: see [Machine].
    - A C call either returns normally, terminates the process through
      [print_error], or has undefined behaviour (an access outside the
      allocated storage of an array, a null pointer handed to the C
      library); see [outcome]. *)

From Stdlib Require Import ZArith Znumtheory Zpow_facts List Bool Lia Ascii String.
From Stdlib Require Import Permutation.
From Stdlib Require Import Reals Lra.
From Stdlib Require Floats.
Import ListNotations.

Open Scope Z_scope.

(** ** Outcomes of a call *)

Inductive outcome (A : Type) : Type :=
| Ok (a : A)
| Fatal (out : string) (code : Z)
| Undefined.

Arguments Ok {A} a.
Arguments Fatal {A} out code.
Arguments Undefined {A}.

Definition bind {A B : Type} (m : outcome A) (f : A -> outcome B) : outcome B :=
  match m with
  | Ok a => f a
  | Fatal out code => Fatal out code
  | Undefined => Undefined
  end.

Declare Scope outcome_scope.
Delimit Scope outcome_scope with outcome.
Notation "x <- m ;; f" := (bind m (fun x => f))
  (at level 100, m at next level, right associativity) : outcome_scope.
Notation "' pat <- m ;; f" := (bind m (fun x => match x with pat => f end))
  (at level 100, pat pattern, m at next level, right associativity) : outcome_scope.
Open Scope outcome_scope.

(** [print_error] of io.c: one line on standard output, then [exit(1)]. *)
Definition newline : string := String (Ascii.ascii_of_nat 10) EmptyString.

Definition print_error {A : Type} (message : string) : outcome A :=
  Fatal ("ERROR: " ++ message ++ newline)%string 1.

(** [for(i = lo; i < hi; i++) body], the body threading a state: the loop
    makes [hi - lo] iterations (none when [hi <= lo]) and stops at the first
    one that does not return. *)
Fixpoint for_loop {St : Type} (fuel : nat) (i : Z)
    (body : Z -> St -> outcome St) (s : St) : outcome St :=
  match fuel with
  | O => Ok s
  | S k => s' <- body i s ;; for_loop k (i + 1) body s'
  end.

Definition for_range {St : Type} (lo hi : Z)
    (body : Z -> St -> outcome St) (s : St) : outcome St :=
  for_loop (Z.to_nat (hi - lo)) lo body s.

(** A call that does not end in [print_error]. *)
Definition not_fatal {A : Type} (m : outcome A) : Prop :=
  forall out code, m <> Fatal out code.

(** ** Machine integers *)

Definition ULONG_MOD : Z := 2 ^ 64.

Definition wrap64 (z : Z) : Z := z mod ULONG_MOD.

(** ** The [double] type *)

Inductive double : Type :=
| DFin (r : R)
| DInf (neg : bool)
| DNaN.

Definition Rneg (r : R) : bool := if Rlt_dec r 0 then true else false.

Definition dneg (a : double) : double :=
  match a with
  | DFin r => DFin (- r)
  | DInf s => DInf (negb s)
  | DNaN => DNaN
  end.

Definition dadd (a b : double) : double :=
  match a, b with
  | DNaN, _ | _, DNaN => DNaN
  | DFin x, DFin y => DFin (x + y)
  | DInf s, DFin _ | DFin _, DInf s => DInf s
  | DInf s, DInf t => if Bool.eqb s t then DInf s else DNaN
  end.

Definition dsub (a b : double) : double := dadd a (dneg b).

Definition dmul (a b : double) : double :=
  match a, b with
  | DNaN, _ | _, DNaN => DNaN
  | DFin x, DFin y => DFin (x * y)
  | DInf s, DFin r | DFin r, DInf s =>
      if Req_dec_T r 0 then DNaN else DInf (xorb s (Rneg r))
  | DInf s, DInf t => DInf (xorb s t)
  end.

(** A zero divisor is taken as [+0.0]: the divisors of this program that can
    be zero are converted unsigned or non-negative integers. *)
Definition ddiv (a b : double) : double :=
  match a, b with
  | DNaN, _ | _, DNaN => DNaN
  | DFin x, DFin y =>
      if Req_dec_T y 0
      then (if Req_dec_T x 0 then DNaN else DInf (Rneg x))
      else DFin (x / y)
  | DFin _, DInf _ => DFin 0
  | DInf s, DFin r => DInf (xorb s (Rneg r))
  | DInf _, DInf _ => DNaN
  end.

Definition dsqrt (a : double) : double :=
  match a with
  | DFin r => if Rlt_dec r 0 then DNaN else DFin (sqrt r)
  | DInf false => DInf false
  | DInf true => DNaN
  | DNaN => DNaN
  end.

(** [pow(a, 2)]. *)
Definition dpow2 (a : double) : double := dmul a a.

Definition dlog2 (a : double) : double :=
  match a with
  | DFin r =>
      if Rlt_dec r 0 then DNaN
      else if Req_dec_T r 0 then DInf true
      else DFin (ln r / ln 2)
  | DInf false => DInf false
  | DInf true => DNaN
  | DNaN => DNaN
  end.

(** [pow(a, 1.0/3.0)] for the non-negative arguments it is called with. *)
Definition dcbrt (a : double) : double :=
  match a with
  | DFin r =>
      if Rlt_dec r 0 then DNaN
      else if Req_dec_T r 0 then DFin 0
      else DFin (Rpower r (1 / 3))
  | DInf false => DInf false
  | DInf true => DNaN
  | DNaN => DNaN
  end.

Definition dceil (a : double) : double :=
  match a with
  | DFin r => DFin (IZR (Zceil r))
  | _ => a
  end.

(** Conversion of an integer to [double]. *)
Definition of_int (z : Z) : double := DFin (IZR z).

(** Conversion of a [double] to [unsigned long]: the fractional part is
    discarded; undefined when the result is not representable. *)
Definition to_ulong (a : double) : outcome Z :=
  match a with
  | DFin r =>
      let t := if Rlt_dec r 0 then Zceil r else Zfloor r in
      if (0 <=? t) && (t <? ULONG_MOD) then Ok t else Undefined
  | _ => Undefined
  end.

(** ** Particles and banks *)

Module Particle.

(** Modelled from the spec: [struct Particle] (its declaration is in a header
    that is not under src/).  The code under src/ reads [x], [y] and [z] and
    copies whole records. *)
Record t : Type := mk {
  x : double; y : double; z : double;
  u : double; v : double; w : double;
  weight : double;
  group : Z;
  alive : bool
}.

End Particle.

Module Bank.

(** [struct Bank], by the fields the code under src/ uses (its declaration
    is in a header that is not under src/): the storage [p], whose length is
    the allocation, the live count [n] and the capacity [sz]. *)
Record t : Type := mk {
  p : list Particle.t;
  n : Z;
  sz : Z
}.

End Bank.

Definition len {A : Type} (l : list A) : Z := Z.of_nat (List.length l).

(** [a[i]] as an rvalue. *)
Definition load {A : Type} (a : list A) (i : Z) : outcome A :=
  if 0 <=? i then
    match nth_error a (Z.to_nat i) with
    | Some v => Ok v
    | None => Undefined
    end
  else Undefined.

(** The array [a] with slot [k] replaced; [a] itself when there is no such slot. *)
Definition upd {A : Type} (a : list A) (k : nat) (v : A) : list A :=
  match skipn k a with
  | [] => a
  | _ :: tl => firstn k a ++ v :: tl
  end.

(** [a[i] = v]. *)
Definition store {A : Type} (a : list A) (i : Z) (v : A) : outcome (list A) :=
  if (0 <=? i) && (i <? len a) then Ok (upd a (Z.to_nat i) v) else Undefined.

(** [memcpy(&dst[d], &src[s], cnt*sizeof(Particle))]. *)
Definition memcpy {A : Type} (dst : list A) (d : Z) (src : list A) (s cnt : Z)
  : outcome (list A) :=
  if (0 <=? d) && (0 <=? s) && (0 <=? cnt)
     && (d + cnt <=? len dst) && (s + cnt <=? len src)
  then Ok (firstn (Z.to_nat d) dst
           ++ firstn (Z.to_nat cnt) (skipn (Z.to_nat s) src)
           ++ skipn (Z.to_nat (d + cnt)) dst)
  else Undefined.

(** A bank whose counters agree with its storage. *)
Definition wf_bank (b : Bank.t) : Prop :=
  0 <= Bank.n b <= Bank.sz b /\ Bank.sz b = len (Bank.p b) /\ Bank.sz b < ULONG_MOD.

(** ** Bank synchronisation *)

Section Synchronize.

(** The random-number service is not under src/: its state [rng] and
    [rni min max], which returns the draw and the advanced state, are taken
    as parameters. *)
Variable rng : Type.
Variable rni : Z -> Z -> rng -> Z * rng.

(** The contract the specification gives [rni]: an integer in [[a, b)]. *)
Definition rni_in_range : Prop :=
  forall a b g, a < b -> a <= fst (rni a b g) < b.

(** The body of the replacement loop of the branch [n_f >= n_s]:
    [j = rni(0, i+1); if(j<n_s) source_bank->p[j] = fission_bank->p[i]]. *)
Definition replace_body (fp : list Particle.t) (n_s : Z) (i : Z)
    (s : list Particle.t * rng) : outcome (list Particle.t * rng) :=
  let '(sp, g) := s in
  let '(r, g') := rni 0 (wrap64 (i + 1)) g in
  let j := wrap64 r in
  if j <? n_s then
    q <- load fp i ;;
    sp' <- store sp j q ;;
    Ok (sp', g')
  else Ok (sp, g').

(** The body of the sampling loop of the branch [n_f < n_s]:
    [j = rni(0, n_f); source_bank->p[i] = fission_bank->p[j]]. *)
Definition sample_body (fp : list Particle.t) (n_f : Z) (i : Z)
    (s : list Particle.t * rng) : outcome (list Particle.t * rng) :=
  let '(sp, g) := s in
  let '(r, g') := rni 0 n_f g in
  let j := wrap64 r in
  q <- load fp j ;;
  sp' <- store sp i q ;;
  Ok (sp', g').

(** [synchronize_bank]; the global [fission_bank] and the generator state
    are passed in and returned. *)
Definition synchronize_bank (source_bank fission_bank : Bank.t) (g : rng)
  : outcome (Bank.t * Bank.t * rng) :=
  let n_s := Bank.n source_bank in
  let n_f := Bank.n fission_bank in
  let fp := Bank.p fission_bank in
  '(sp, g') <-
    (if n_s <=? n_f then
       (* memcpy(source_bank->p, fission_bank->p, n_s*sizeof(Particle)) *)
       sp0 <- memcpy (Bank.p source_bank) 0 fp 0 n_s ;;
       (* for(i=n_s; i<n_f; i++) *)
       for_range n_s n_f (replace_body fp n_s) (sp0, g)
     else
       (* for(i=0; i<(n_s-n_f); i++) *)
       '(sp1, g1) <- for_range 0 (wrap64 (n_s - n_f)) (sample_body fp n_f)
                       (Bank.p source_bank, g) ;;
       (* memcpy(&(source_bank->p[n_s-n_f]), fission_bank->p, n_f*sizeof(Particle)) *)
       sp2 <- memcpy sp1 (wrap64 (n_s - n_f)) fp 0 n_f ;;
       Ok (sp2, g1)) ;;
  (* fission_bank->n = 0 *)
  Ok (Bank.mk sp n_s (Bank.sz source_bank),
      Bank.mk fp 0 (Bank.sz fission_bank),
      g').

(** *** The two sampling schemes, as the specification words them *)

Definition dummy : Particle.t :=
  Particle.mk (DFin 0) (DFin 0) (DFin 0) (DFin 0) (DFin 0) (DFin 0) (DFin 0) 0 false.

Definition at_index (a : list Particle.t) (i : Z) : Particle.t :=
  nth (Z.to_nat i) a dummy.

(** Reservoir sampling: for [i = i0, i0+1, ...] ([k] values), draw
    [j = rni(0, i+1)] and overwrite slot [j] of the sample with
    [fission_bank[i]] exactly when [j < n_s]. *)
Fixpoint reservoir (fp : list Particle.t) (n_s : Z) (k : nat) (i : Z)
    (sample : list Particle.t) (g : rng) : list Particle.t * rng :=
  match k with
  | O => (sample, g)
  | S k' =>
      let '(j, g') := rni 0 (i + 1) g in
      reservoir fp n_s k' (i + 1)
        (if j <? n_s then upd sample (Z.to_nat j) (at_index fp i) else sample) g'
  end.

(** Over-sampling: [k] particles, each [fission_bank[rni(0, n_f)]], in order. *)
Fixpoint oversample (fp : list Particle.t) (n_f : Z) (k : nat) (g : rng)
  : list Particle.t * rng :=
  match k with
  | O => ([], g)
  | S k' =>
      let '(j, g1) := rni 0 n_f g in
      let '(rest, g2) := oversample fp n_f k' g1 in
      (at_index fp j :: rest, g2)
  end.

End Synchronize.

(** The particles of a bank: the slots [0 .. n). *)
Definition live (b : Bank.t) : list Particle.t :=
  firstn (Z.to_nat (Bank.n b)) (Bank.p b).

(** *** A generator for worked examples

    It replays a tape of raw values, each reduced into the requested range,
    so it satisfies [rni_in_range]. *)
Definition tape : Type := list Z.

Definition tape_rni (a b : Z) (t : tape) : Z * tape :=
  match t with
  | [] => (a, [])
  | r :: t' => (if a <? b then a + r mod (b - a) else a, t')
  end.

(** A particle at [(k, 0, 0)], for worked examples. *)
Definition site (k : Z) : Particle.t :=
  Particle.mk (DFin (IZR k)) (DFin 0) (DFin 0) (DFin 1) (DFin 0) (DFin 0)
    (DFin 1) 0 true.

(** ** Convergence diagnostics *)

(** [struct Geometry], by the fields eigenvalue.c reads (its declaration is
    in a header that is not under src/): the side lengths of the box. *)
Record Geometry : Type := mkGeometry {
  Lx : double;
  Ly : double;
  Lz : double
}.

(** The [unsigned long] product and sum. *)
Definition umul (a b : Z) : Z := wrap64 (a * b).
Definition uadd (a b : Z) : Z := wrap64 (a + b).

(** The number of grid boxes per dimension: [ceil(pow(b->n/20, 1.0/3.0))],
    the quotient being the [unsigned long] one. *)
Definition grid_size (n : Z) : outcome Z :=
  to_ulong (dceil (dcbrt (of_int (n / 20)))).

(** The body of the first loop of [shannon_entropy]:
    [ix = p->x/dx; iy = p->y/dy; iz = p->z/dz; count[ix*n*n + iy*n + iz]++]. *)
Definition count_body (b : Bank.t) (n : Z) (dx dy dz : double) (i : Z)
    (count : list Z) : outcome (list Z) :=
  p <- load (Bank.p b) i ;;
  ix <- to_ulong (ddiv (Particle.x p) dx) ;;
  iy <- to_ulong (ddiv (Particle.y p) dy) ;;
  iz <- to_ulong (ddiv (Particle.z p) dz) ;;
  let k := uadd (uadd (umul (umul ix n) n) (umul iy n)) iz in
  c <- load count k ;;
  store count k (wrap64 (c + 1)).

(** The body of the second loop:
    [if(count[i] > 0) H -= (count[i]/b->n) * log2(count[i]/b->n)]. *)
Definition entropy_body (bn : Z) (count : list Z) (i : Z) (H : double)
  : outcome double :=
  c <- load count i ;;
  if 0 <? c then
    let pc := ddiv (of_int c) (of_int bn) in
    Ok (dsub H (dmul pc (dlog2 pc)))
  else Ok H.

Definition shannon_entropy (geometry : Geometry) (b : Bank.t) : outcome double :=
  (* n = ceil(pow(b->n/20, 1.0/3.0)) *)
  n <- grid_size (Bank.n b) ;;
  let dx := ddiv (Lx geometry) (of_int n) in
  let dy := ddiv (Ly geometry) (of_int n) in
  let dz := ddiv (Lz geometry) (of_int n) in
  (* count = calloc(n*n*n, sizeof(unsigned long)) *)
  let cells := umul (umul n n) n in
  let count0 := repeat 0 (Z.to_nat cells) in
  (* for(i=0; i<b->n; i++) *)
  count <- for_range 0 (Bank.n b) (count_body b n dx dy dz) count0 ;;
  (* for(i=0; i<n*n*n; i++) *)
  for_range 0 cells (entropy_body (Bank.n b) count) (DFin 0).

(** The squared distance accumulated for one pair:
    [(p->x - q->x)*(p->x - q->x) + (p->y - q->y)*(p->y - q->y)
     + (p->z - q->z)*(p->z - q->z)]. *)
Definition sq_dist (p q : Particle.t) : double :=
  dadd
    (dadd
       (dmul (dsub (Particle.x p) (Particle.x q)) (dsub (Particle.x p) (Particle.x q)))
       (dmul (dsub (Particle.y p) (Particle.y q)) (dsub (Particle.y p) (Particle.y q))))
    (dmul (dsub (Particle.z p) (Particle.z q)) (dsub (Particle.z p) (Particle.z q))).

Definition msd_body (b : Bank.t) (i j : Z) (msd : double) : outcome double :=
  p <- load (Bank.p b) i ;;
  q <- load (Bank.p b) j ;;
  Ok (dadd msd (sq_dist p q)).

(** [n_pairs = b->n*(b->n - 1)/2], in [unsigned long]. *)
Definition n_pairs (n : Z) : Z := umul n (wrap64 (n - 1)) / 2.

Definition mean_squared_distance (b : Bank.t) : outcome double :=
  (* for(i=0; i<b->n; i++) for(j=i+1; j<b->n; j++) msd += ... *)
  msd <- for_range 0 (Bank.n b)
           (fun i msd => for_range (uadd i 1) (Bank.n b) (msd_body b i) msd)
           (DFin 0) ;;
  (* return msd/n_pairs *)
  Ok (ddiv msd (of_int (n_pairs (Bank.n b)))).

(** ** The k_eff statistics *)

(** [calculate_keff]: the values written through [mean] and [std]. *)
Definition calculate_keff (keff : list double) (n : Z) : outcome (double * double) :=
  (* for(i=0; i<n; i++) mean += keff[i] *)
  sum <- for_range 0 n (fun i m => k <- load keff i ;; Ok (dadd m k)) (DFin 0) ;;
  (* mean /= n *)
  let mean := ddiv sum (of_int n) in
  (* for(i=0; i<n; i++) std += pow(keff[i] - mean, 2) *)
  ssq <- for_range 0 n
           (fun i s => k <- load keff i ;; Ok (dadd s (dpow2 (dsub k mean))))
           (DFin 0) ;;
  (* std = sqrt(std/(n-1)) *)
  Ok (mean, dsqrt (ddiv ssq (of_int (n - 1)))).

(** *** The diagnostics and statistics, as the specification words them *)

Definition Rsum (l : list R) : R := fold_right Rplus 0%R l.

(** [(1/n) * sum keff[i]]. *)
Definition mean_of (ks : list R) : R := (/ IZR (len ks) * Rsum ks)%R.


(** The real value of a finite [double]. *)
Definition fin_val (a : double) : R :=
  match a with
  | DFin r => r
  | _ => 0%R
  end.

(** A coordinate that is finite and inside [[0, l)]. *)
Definition coord_in (l : R) (a : double) : Prop :=
  exists r, a = DFin r /\ (0 <= r < l)%R.

(** A particle inside [[0, lx) x [0, ly) x [0, lz)]. *)
Definition inside (lx ly lz : R) (p : Particle.t) : Prop :=
  coord_in lx (Particle.x p) /\ coord_in ly (Particle.y p)
  /\ coord_in lz (Particle.z p).

(** The number of boxes per dimension the code uses,
    [ceil((n div 20)^(1/3))], and the one of the specification,
    [ceil((n/20)^(1/3))] with the real quotient. *)
Definition grid_of (n : Z) : Z := Zceil (Rpower (IZR (n / 20)) (1 / 3)).


(** The box of a particle: [(floor(x/dx), floor(y/dy), floor(z/dz))] with
    [dx = Lx/m] and so on, numbered [ix*m*m + iy*m + iz]. *)
Definition box_of (m : Z) (lx ly lz : R) (p : Particle.t) : Z :=
  Zfloor (fin_val (Particle.x p) / (lx / IZR m)) * m * m
  + Zfloor (fin_val (Particle.y p) / (ly / IZR m)) * m
  + Zfloor (fin_val (Particle.z p) / (lz / IZR m)).

(** [count_c]: how many of the particles fall in box [c]. *)
Definition box_count (m : Z) (lx ly lz : R) (ps : list Particle.t) (c : Z) : Z :=
  len (filter (fun p => box_of m lx ly lz p =? c) ps).

(** [p_c * log2 p_c] with [p_c = count_c / n], for a box that holds a
    particle; zero for an empty box. *)
Definition entropy_term (n c : Z) : R :=
  if 0 <? c then (IZR c / IZR n * (ln (IZR c / IZR n) / ln 2))%R else 0%R.

(** [H = - sum over the boxes c with count_c > 0 of p_c * log2 p_c], on an
    [m x m x m] grid. *)
Definition entropy_of (m : Z) (lx ly lz : R) (ps : list Particle.t) : R :=
  (- Rsum (map (fun c => entropy_term (len ps) (box_count m lx ly lz ps (Z.of_nat c)))
             (seq 0 (Z.to_nat (m * m * m)))))%R.

(** A particle at a finite position. *)
Definition at_pos (pos : R * R * R) : Particle.t :=
  let '(x, y, z) := pos in
  Particle.mk (DFin x) (DFin y) (DFin z) (DFin 1) (DFin 0) (DFin 0) (DFin 1) 0 true.

(** The position of a particle moved by the vector [(tx, ty, tz)]. *)
Definition translate (tx ty tz : R) (p : Particle.t) : Particle.t :=
  Particle.mk
    (dadd (Particle.x p) (DFin tx))
    (dadd (Particle.y p) (DFin ty))
    (dadd (Particle.z p) (DFin tz))
    (Particle.u p) (Particle.v p) (Particle.w p)
    (Particle.weight p) (Particle.group p) (Particle.alive p).

(** The squared distances of the pairs [i < j] of a list of particles. *)
Fixpoint pair_terms (l : list Particle.t) : list double :=
  match l with
  | [] => []
  | p :: tl => map (sq_dist p) tl ++ pair_terms tl
  end.

Definition dsum (l : list double) : double := fold_right dadd (DFin 0) l.

(** [(2/(n(n-1))) * sum over the pairs i < j of |p_i - p_j|^2], the factor
    written as the division by the pair count. *)
Definition msd_of (l : list Particle.t) : double :=
  ddiv (dsum (pair_terms l)) (of_int (n_pairs (len l))).

Definition translate_bank (tx ty tz : R) (b : Bank.t) : Bank.t :=
  Bank.mk (map (translate tx ty tz) (Bank.p b)) (Bank.n b) (Bank.sz b).

(** An array of [N] counters given by its contents. *)
Definition tabulate (f : Z -> Z) (N : nat) : list Z :=
  map (fun c => f (Z.of_nat c)) (seq 0 N).


(** *** A worked example: thirty particles in the unit box *)

Definition unit_box : Geometry := mkGeometry (DFin 1) (DFin 1) (DFin 1).

Definition west : Particle.t := at_pos (1 / 4, 1 / 4, 1 / 4)%R.


(** ** The eigenvalue driver *)

(** [struct Parameters], by the fields [run_eigenvalue] reads (its
    declaration is in a header that is not under src/); the flags are
    [TRUE]/[FALSE] integers in the source. *)
Record Parameters : Type := mkParameters {
  n_particles : Z;
  n_batches : Z;
  n_generations : Z;
  n_active : Z;
  tally : bool;
  write_bank : bool;
  write_entropy : bool;
  write_msd : bool;
  write_source : bool;
  write_tally : bool;
  write_keff : bool;
  save_source : bool
}.

(** [struct Tally], by the fields [run_eigenvalue] uses. *)
Record Tally : Type := mkTally {
  tallies_on : bool;
  flux : list double
}.

(** What the driver hands to the writers of io.c and prints, in order; a
    call of [calculate_keff] is recorded with its argument [n]. *)
Inductive event : Type :=
| WriteBank (ps : list Particle.t)
| WriteEntropy (H : double)
| WriteMsd (msd : double)
| WriteSource (ps : list Particle.t)
| WriteTally (fl : list double)
| CalculateKeff (n : Z)
| Status (batch : Z) (H keff_batch : double) (stats : option (double * double))
| WriteKeff (ks : list double)
| SaveSource (ps : list Particle.t).

Definition emit (flag : bool) (e : event) (o : list event) : list event :=
  if flag then o ++ [e] else o.

Section Driver.

Variable rng : Type.
Variable rni : Z -> Z -> rng -> Z * rng.

(** The banks, the arrays and the locals of [run_eigenvalue] that live
    across iterations, the state of the generator's stream [STREAM_OTHER],
    and the output so far. *)
Record Sim : Type := mkSim {
  source_bank : Bank.t;
  fission_bank : Bank.t;
  sim_tally : Tally;
  other_stream : rng;
  keff : list double;
  i_a : Z;
  keff_batch : double;
  H : double;
  out : list event
}.

(** The transport kernel is not under src/.  It is called for one particle
    after [rn_skip(pos)] on the stream [STREAM_TRACK]; by its contract it
    reads the source bank, may append to the fission bank and update the
    tally, draws only from [STREAM_TRACK], and returns or terminates the
    process. *)
Variable transport :
  Parameters -> Geometry -> Z -> Bank.t -> Particle.t ->
  Bank.t * Tally -> outcome (Bank.t * Tally).

Variable parameters : Parameters.
Variable geometry : Geometry.

(** The argument of [rn_skip] for particle [i_p]. *)
Definition skip_position (i_b i_g i_p : Z) : Z :=
  uadd (umul (wrap64 (i_b * n_generations parameters + i_g))
             (n_particles parameters)) i_p.

(** The loop over the particles of one generation. *)
Definition transport_body (i_b i_g : Z) (source : Bank.t) (i_p : Z)
    (ft : Bank.t * Tally) : outcome (Bank.t * Tally) :=
  p <- load (Bank.p source) i_p ;;
  transport parameters geometry (skip_position i_b i_g i_p) source p ft.

(** One iteration of the loop over generations (without OpenMP the fission
    banks need no merging). *)
Definition generation (i_b i_g : Z) (s : Sim) : outcome Sim :=
  '(fb, tl) <- for_range 0 (n_particles parameters)
                 (transport_body i_b i_g (source_bank s))
                 (fission_bank s, sim_tally s) ;;
  let keff_gen := ddiv (of_int (Bank.n fb)) (of_int (Bank.n (source_bank s))) in
  let kb := dadd (keff_batch s) keff_gen in
  '(sb, fb', g) <- synchronize_bank rng rni (source_bank s) fb (other_stream s) ;;
  h <- shannon_entropy geometry sb ;;
  let o1 := emit (write_entropy parameters) (WriteEntropy h) (out s) in
  o2 <- (if write_msd parameters
         then msd <- mean_squared_distance sb ;; Ok (o1 ++ [WriteMsd msd])
         else Ok o1) ;;
  let o3 := emit (write_source parameters) (WriteSource (live sb)) o2 in
  Ok (mkSim sb fb' tl g (keff s) (i_a s) kb h o3).

(** A batch up to its loop over generations. *)
Definition batch_begin (i_b : Z) (s : Sim) : Sim :=
  let o := emit (write_bank parameters) (WriteBank (live (source_bank s))) (out s) in
  let active := n_batches parameters - n_active parameters <=? i_b in
  let ia := if active then i_a s + 1 else i_a s in
  let tl := if active && tally parameters
            then mkTally true (flux (sim_tally s)) else sim_tally s in
  mkSim (source_bank s) (fission_bank s) tl (other_stream s) (keff s) ia
        (DFin 0) (H s) o.

(** A batch after its loop over generations. *)
Definition batch_end (i_b : Z) (s : Sim) : outcome Sim :=
  let kb := ddiv (keff_batch s) (of_int (n_generations parameters)) in
  ks <- (if 0 <=? i_a s then store (keff s) (i_a s) kb else Ok (keff s)) ;;
  let o1 := if tallies_on (sim_tally s)
            then emit (write_tally parameters) (WriteTally (flux (sim_tally s))) (out s)
            else out s in
  let tl := if tallies_on (sim_tally s)
            then mkTally true (map (fun _ => DFin 0) (flux (sim_tally s)))
            else sim_tally s in
  '(keff_mean, keff_std) <- calculate_keff ks (i_a s + 1) ;;
  let o2 := o1 ++ [CalculateKeff (i_a s + 1)] in
  let o3 := o2 ++ [Status (i_b + 1) (H s) kb
                     (if i_a s <? 0 then None else Some (keff_mean, keff_std))] in
  Ok (mkSim (source_bank s) (fission_bank s) tl (other_stream s) ks (i_a s)
            kb (H s) o3).

Definition batch (i_b : Z) (s : Sim) : outcome Sim :=
  s' <- for_range 0 (n_generations parameters) (generation i_b) (batch_begin i_b s) ;;
  batch_end i_b s'.

(** [run_eigenvalue], from the source bank, the tally, the [keff] array, the
    global fission bank and the generator state it is entered with. *)
Definition run_eigenvalue (source : Bank.t) (tl : Tally) (ks : list double)
    (fission : Bank.t) (g : rng) : outcome Sim :=
  s <- for_range 0 (n_batches parameters) batch
         (mkSim source fission tl g ks (-1) (DFin 0) (DFin 0) []) ;;
  let o1 := emit (write_keff parameters)
              (WriteKeff (firstn (Z.to_nat (n_active parameters)) (keff s))) (out s) in
  let o2 := emit (save_source parameters) (SaveSource (live (source_bank s))) o1 in
  Ok (mkSim (source_bank s) (fission_bank s) (sim_tally s) (other_stream s)
            (keff s) (i_a s) (keff_batch s) (H s) o2).

(** The states a loop passes through, one after each completed iteration. *)
Fixpoint loop_states {St : Type} (fuel : nat) (i : Z)
    (body : Z -> St -> outcome St) (s : St) : list St :=
  match fuel with
  | O => []
  | S k =>
      match body i s with
      | Ok s' => s' :: loop_states k (i + 1) body s'
      | _ => []
      end
  end.

(** The states at the end of the generations of batch [i_b], entered in
    state [s]. *)
Definition generation_ends_of_batch (i_b : Z) (s : Sim) : list Sim :=
  loop_states (Z.to_nat (n_generations parameters)) 0 (generation i_b)
    (batch_begin i_b s).

(** The states at the end of every generation of the batches
    [i_b, i_b + 1, ...] ([fuel] of them). *)
Fixpoint generation_ends (fuel : nat) (i_b : Z) (s : Sim) : list Sim :=
  match fuel with
  | O => []
  | S k =>
      generation_ends_of_batch i_b s
      ++ match batch i_b s with
         | Ok s' => generation_ends k (i_b + 1) s'
         | _ => []
         end
  end.

(** The population counts the specification requires at the end of a
    generation, and the count the source bank is entered with. *)
Definition population_ok (s : Sim) : Prop :=
  Bank.n (fission_bank s) = 0
  /\ Bank.n (source_bank s) = n_particles parameters.

Definition source_full (s : Sim) : Prop :=
  Bank.n (source_bank s) = n_particles parameters.

(** The number of active-batch estimates stored when batch [i_b] ends. *)
Definition stored_estimates (i_b : Z) : Z :=
  Z.max 0 (i_b + 1 - Z.max 0 (n_batches parameters - n_active parameters)).

End Driver.

Arguments source_bank {rng} s.
Arguments fission_bank {rng} s.
Arguments sim_tally {rng} s.
Arguments other_stream {rng} s.
Arguments keff {rng} s.
Arguments i_a {rng} s.
Arguments keff_batch {rng} s.
Arguments H {rng} s.
Arguments out {rng} s.

(** The arguments of the calls of [calculate_keff] in an output. *)
Fixpoint calculate_keff_calls (o : list event) : list Z :=
  match o with
  | [] => []
  | CalculateKeff n :: o' => n :: calculate_keff_calls o'
  | _ :: o' => calculate_keff_calls o'
  end.

(** The integers [lo, lo + 1, ...] ([k] of them). *)
Fixpoint zseq (lo : Z) (k : nat) : list Z :=
  match k with
  | O => []
  | S k' => lo :: zseq (lo + 1) k'
  end.

(** *** A worked run: twenty particles, two batches, the last one active

    The kernel of the example gives every particle one offspring at its own
    site. *)
Definition bank_append (b : Bank.t) (p : Particle.t) : Bank.t :=
  Bank.mk (live b ++ p :: skipn (Z.to_nat (Bank.n b + 1)) (Bank.p b))
          (Bank.n b + 1) (Z.max (Bank.sz b) (Bank.n b + 1)).

Definition echo_transport (_ : Parameters) (_ : Geometry) (_ : Z) (_ : Bank.t)
    (p : Particle.t) (ft : Bank.t * Tally) : outcome (Bank.t * Tally) :=
  Ok (bank_append (fst ft) p, snd ft).

Definition demo_parameters : Parameters :=
  mkParameters 20 2 1 1 false false false false false false false false.

Definition demo_source : Bank.t := Bank.mk (repeat west 20) 20 20.

Definition demo_fission : Bank.t := Bank.mk (repeat west 20) 0 20.

Definition demo_tally : Tally := mkTally false [].

Definition demo_run : outcome (Sim tape) :=
  run_eigenvalue tape tape_rni echo_transport demo_parameters unit_box
    demo_source demo_tally [DFin 0] (Bank.mk [] 0 0) [].

Definition demo_generation_ends : list (Sim tape) :=
  generation_ends tape tape_rni echo_transport demo_parameters unit_box
    (Z.to_nat (n_batches demo_parameters)) 0
    (mkSim tape demo_source (Bank.mk [] 0 0) demo_tally [] [DFin 0] (-1)
       (DFin 0) (DFin 0) []).

(** The states of the worked run: the source bank and the tally never change. *)
Definition demo_state (fis : Bank.t) (ks : list double) (ia : Z) (kb h : double)
    (o : list event) : Sim tape :=
  mkSim tape demo_source fis demo_tally [] ks ia kb h o.


(** A bank filled to its capacity with the given particles. *)
Definition bank_of (l : list Particle.t) : Bank.t := Bank.mk l (len l) (len l).

(** *** The mean-squared distance of finite positions, as the specification
    words it *)

(** The position of a particle, and a particle whose position is finite. *)
Definition pos_of (p : Particle.t) : R * R * R :=
  (fin_val (Particle.x p), fin_val (Particle.y p), fin_val (Particle.z p)).

Definition finite_pos (p : Particle.t) : Prop :=
  Particle.x p = DFin (fin_val (Particle.x p))
  /\ Particle.y p = DFin (fin_val (Particle.y p))
  /\ Particle.z p = DFin (fin_val (Particle.z p)).

(** [|a - b|^2]. *)
Definition Rsq_dist (a b : R * R * R) : R :=
  let '(ax, ay, az) := a in
  let '(bx, b_y, bz) := b in
  ((ax - bx) * (ax - bx) + (ay - b_y) * (ay - b_y) + (az - bz) * (az - bz))%R.

(** The squared distances of the pairs [i < j]. *)
Fixpoint Rpair_terms (l : list (R * R * R)) : list R :=
  match l with
  | [] => []
  | a :: tl => map (Rsq_dist a) tl ++ Rpair_terms tl
  end.

(** [(2/(n(n-1))) * sum over the pairs i < j of |p_i - p_j|^2]. *)
Definition spec_msd (l : list (R * R * R)) : R :=
  (2 / (IZR (len l) * (IZR (len l) - 1)) * Rsum (Rpair_terms l))%R.

(** *** A run without generations, for a worked example *)
Definition idle_parameters : Parameters :=
  mkParameters 20 2 0 1 false false false false false false false false.

(** * The diagnostics in machine arithmetic

    [double] above carries exact real values: that settles which formula a
    function evaluates.  It does not settle what depends on the rounding of
    the machine's operations: the grid box of a particle is a quotient of
    two doubles converted to an integer, and a sum of doubles depends on the
    order of its terms.  For such properties [shannon_entropy],
    [mean_squared_distance] and (in [Io]) [write_source] are given here over
    an arbitrary arithmetic: a type of values with the operations the code
    applies to them.  What is proved for every arithmetic holds for the
    binary64 operations of the machine; [exact] is the arithmetic of
    [double] above and [binary64] that of IEEE-754 double precision, with
    which the functions can be evaluated. *)

(** [calloc(nmemb, size)] for elements of [size] bytes, [size_t] being 64
    bits wide: the C library returns [NULL] when [nmemb*size] is not a
    [size_t], and the code never tests the pointer.  An access through the
    null pointer is undefined, as is every access to an array of no element,
    so the null pointer is written as the empty array.  Memory is otherwise
    taken to be available. *)
Definition calloc {A : Type} (nmemb size : Z) (zero : A) : list A :=
  if nmemb * size <? ULONG_MOD then repeat zero (Z.to_nat nmemb) else [].

Module Machine.

(** The operations on [double] values that the code uses: the constants
    [0.0] and [1.0], [+], [-], [*], [/], the conversion of an
    [unsigned long] to [double] and the conversion of a [double] to
    [unsigned long], which has no value when the truncated [double] is not
    an [unsigned long]. *)
Record arith (D : Type) : Type := mkArith {
  f_zero : D;
  f_one : D;
  f_add : D -> D -> D;
  f_sub : D -> D -> D;
  f_mul : D -> D -> D;
  f_div : D -> D -> D;
  f_of_ulong : Z -> D;
  f_to_ulong : D -> option Z
}.

Arguments mkArith {D}.
Arguments f_zero {D}.
Arguments f_one {D}.
Arguments f_add {D}.
Arguments f_sub {D}.
Arguments f_mul {D}.
Arguments f_div {D}.
Arguments f_of_ulong {D}.
Arguments f_to_ulong {D}.

(** The conversion of a [double] to [unsigned long] in the code: undefined
    behaviour when it has no value. *)
Definition to_unsigned {D : Type} (A : arith D) (a : D) : outcome Z :=
  match f_to_ulong A a with
  | Some k => Ok k
  | None => Undefined
  end.

(** Exact arithmetic: the operations of [double] above. *)
Definition exact : arith double :=
  mkArith (DFin 0) (DFin 1) dadd dsub dmul ddiv of_int
    (fun a => match to_ulong a with Ok k => Some k | _ => None end).

(** IEEE-754 binary64: the primitive floats.  Every operation rounds to
    nearest, ties to even; an expression is evaluated operation by operation
    (no fused multiply-add, no extended precision).  The conversion of an
    integer rounds likewise; the conversion to an integer discards the
    fractional part. *)
Definition b64_of_ulong (z : Z) : PrimFloat.float :=
  FloatOps.SF2Prim
    (SpecFloat.binary_normalize FloatOps.prec FloatOps.emax z 0 false).

Definition b64_to_ulong (a : PrimFloat.float) : option Z :=
  match FloatOps.Prim2SF a with
  | SpecFloat.S754_zero _ => Some 0
  | SpecFloat.S754_finite s m e =>
      let t := if 0 <=? e then Z.pos m * 2 ^ e else Z.pos m / 2 ^ (- e) in
      if s then (if t =? 0 then Some 0 else None)
      else if t <? ULONG_MOD then Some t else None
  | _ => None
  end.

Definition binary64 : arith PrimFloat.float :=
  mkArith PrimFloat.zero PrimFloat.one PrimFloat.add PrimFloat.sub
    PrimFloat.mul PrimFloat.div b64_of_ulong b64_to_ulong.

(** [struct Particle], [struct Bank] and [struct Geometry] over the values of
    an arithmetic, by the fields the diagnostics and [write_source] read: the
    position of a particle, the storage and the count of a bank, the side
    lengths of the box. *)
Record Particle (D : Type) : Type := mkParticle {
  x : D; y : D; z : D
}.

Arguments mkParticle {D}.
Arguments x {D}.
Arguments y {D}.
Arguments z {D}.

Record Bank (D : Type) : Type := mkBank {
  p : list (Particle D);
  n : Z
}.

Arguments mkBank {D}.
Arguments p {D}.
Arguments n {D}.

Record Geometry (D : Type) : Type := mkGeometry {
  Lx : D; Ly : D; Lz : D
}.

Arguments mkGeometry {D}.
Arguments Lx {D}.
Arguments Ly {D}.
Arguments Lz {D}.

(** The particles of a bank: the slots [0 .. n). *)
Definition live {D : Type} (b : Bank D) : list (Particle D) :=
  firstn (Z.to_nat (n b)) (p b).

(** A bank whose count is within its storage. *)
Definition wf_bank {D : Type} (b : Bank D) : Prop :=
  0 <= n b <= len (p b) /\ len (p b) < ULONG_MOD.

(** A bank filled with the given particles. *)
Definition bank_of {D : Type} (l : list (Particle D)) : Bank D :=
  mkBank l (len l).

Section Diagnostics.

Context {D : Type}.
Variable A : arith D.

(** The functions of the C mathematical library are parameters:
    [pow(., 1.0/3.0)], [ceil] and [log2]. *)
Variable pow_third : D -> D.
Variable ceil : D -> D.
Variable log2 : D -> D.

(** [n = ceil(pow(b->n/20, 1.0/3.0))], the quotient being the
    [unsigned long] one. *)
Definition grid_size (bn : Z) : outcome Z :=
  to_unsigned A (ceil (pow_third (f_of_ulong A (bn / 20)))).

(** [ix = p->x/dx; iy = p->y/dy; iz = p->z/dz] and the index
    [ix*n*n + iy*n + iz] of the counter. *)
Definition cell_index (m : Z) (dx dy dz : D) (q : Particle D) : outcome Z :=
  ix <- to_unsigned A (f_div A (x q) dx) ;;
  iy <- to_unsigned A (f_div A (y q) dy) ;;
  iz <- to_unsigned A (f_div A (z q) dz) ;;
  Ok (uadd (uadd (umul (umul ix m) m) (umul iy m)) iz).

(** The body of the first loop of [shannon_entropy]:
    [count[ix*n*n + iy*n + iz]++]. *)
Definition count_body (b : Bank D) (m : Z) (dx dy dz : D) (i : Z)
    (count : list Z) : outcome (list Z) :=
  q <- load (p b) i ;;
  k <- cell_index m dx dy dz q ;;
  c <- load count k ;;
  store count k (wrap64 (c + 1)).

(** [H -= ((double)c/b->n) * log2((double)c/b->n)]. *)
Definition entropy_step (bn : Z) (c : Z) (H : D) : D :=
  let pc := f_div A (f_of_ulong A c) (f_of_ulong A bn) in
  f_sub A H (f_mul A pc (log2 pc)).

(** The body of the second loop: [if(count[i] > 0) H -= ...]. *)
Definition entropy_body (bn : Z) (count : list Z) (i : Z) (H : D)
  : outcome D :=
  c <- load count i ;;
  if 0 <? c then Ok (entropy_step bn c H) else Ok H.

Definition shannon_entropy (geometry : Geometry D) (b : Bank D) : outcome D :=
  (* n = ceil(pow(b->n/20, 1.0/3.0)) *)
  m <- grid_size (n b) ;;
  let dx := f_div A (Lx geometry) (f_of_ulong A m) in
  let dy := f_div A (Ly geometry) (f_of_ulong A m) in
  let dz := f_div A (Lz geometry) (f_of_ulong A m) in
  (* count = calloc(n*n*n, sizeof(unsigned long)) *)
  let cells := umul (umul m m) m in
  let count0 := calloc cells 8 0 in
  (* for(i=0; i<b->n; i++) *)
  count <- for_range 0 (n b) (count_body b m dx dy dz) count0 ;;
  (* for(i=0; i<n*n*n; i++) *)
  for_range 0 cells (entropy_body (n b) count) (f_zero A).

(** The squared distance accumulated for one pair:
    [(p->x - q->x)*(p->x - q->x) + (p->y - q->y)*(p->y - q->y)
     + (p->z - q->z)*(p->z - q->z)]. *)
Definition sq_dist (a b : Particle D) : D :=
  f_add A
    (f_add A
       (f_mul A (f_sub A (x a) (x b)) (f_sub A (x a) (x b)))
       (f_mul A (f_sub A (y a) (y b)) (f_sub A (y a) (y b))))
    (f_mul A (f_sub A (z a) (z b)) (f_sub A (z a) (z b))).

Definition msd_body (b : Bank D) (i j : Z) (msd : D) : outcome D :=
  a <- load (p b) i ;;
  q <- load (p b) j ;;
  Ok (f_add A msd (sq_dist a q)).

Definition mean_squared_distance (b : Bank D) : outcome D :=
  (* for(i=0; i<b->n; i++) for(j=i+1; j<b->n; j++) msd += ... *)
  msd <- for_range 0 (n b)
           (fun i msd => for_range (uadd i 1) (n b) (msd_body b i) msd)
           (f_zero A) ;;
  (* n_pairs = b->n*(b->n - 1)/2; return msd/n_pairs *)
  Ok (f_div A msd (f_of_ulong A (n_pairs (n b)))).

(** *** What the loops compute *)

(** How many of the particles are counted under the index [c]. *)
Definition box_count (m : Z) (dx dy dz : D) (ps : list (Particle D)) (c : Z)
  : Z :=
  len (filter (fun q => match cell_index m dx dy dz q with
                        | Ok k => k =? c
                        | _ => false
                        end) ps).



(** The squared distances of the pairs [i < j], in the order of the loops,
    and their sum accumulated in that order. *)
Fixpoint pair_terms (l : list (Particle D)) : list D :=
  match l with
  | [] => []
  | a :: tl => map (sq_dist a) tl ++ pair_terms tl
  end.


(** The bank with every position translated by [(tx, ty, tz)], the sums
    being those of the arithmetic. *)
Definition translate (tx ty tz : D) (q : Particle D) : Particle D :=
  mkParticle (f_add A (x q) tx) (f_add A (y q) ty) (f_add A (z q) tz).

Definition translate_bank (tx ty tz : D) (b : Bank D) : Bank D :=
  mkBank (map (translate tx ty tz) (p b)) (n b).

End Diagnostics.

End Machine.




(** *** Worked examples in binary64 *)









(** The unit box, the largest double below one, [1 - 2^-53], and a particle
    at that abscissa. *)
Definition b64_unit_box : Machine.Geometry PrimFloat.float :=
  Machine.mkGeometry PrimFloat.one PrimFloat.one PrimFloat.one.

Definition below_one : PrimFloat.float :=
  PrimFloat.sub PrimFloat.one
    (PrimFloat.div PrimFloat.one (Machine.b64_of_ulong (2 ^ 53))).

Definition near_face : Machine.Particle PrimFloat.float :=
  Machine.mkParticle below_one PrimFloat.zero PrimFloat.zero.
(** * io.c: command line, configuration file, reports and files

    io.c works on a two-dimensional domain: its [Parameters] carry [gx],
    [gy] and [n_bins] and its [Geometry] the sides [x] and [y].  Its
    functions are embedded with the structures as io.c itself uses them, in
    a module of their own. *)

Module Io.

Local Open Scope string_scope.
Local Open Scope Z_scope.

(** ** The C library, as io.c calls it

    A C string is the string of its characters before the terminating NUL;
    a [char *] that may be [NULL] is an [option string]. *)

Definition code (c : ascii) : Z := Z.of_nat (nat_of_ascii c).

Definition chr (z : Z) : ascii := ascii_of_nat (Z.to_nat z).

Definition LF : ascii := chr 10.

Definition NUL : ascii := chr 0.

Definition isdigit (c : ascii) : bool := (48 <=? code c) && (code c <=? 57).

(** [isspace] in the C locale: space, and the controls [\t \n \v \f \r]. *)
Definition isspace (c : ascii) : bool :=
  (code c =? 32) || ((9 <=? code c) && (code c <=? 13)).

Definition tolower (c : ascii) : ascii :=
  if (65 <=? code c) && (code c <=? 90) then chr (code c + 32) else c.

Fixpoint lower (s : string) : string :=
  match s with
  | EmptyString => EmptyString
  | String c r => String (tolower c) (lower r)
  end.

(** [strcmp(a, b) == 0] and [strcasecmp(a, b) == 0]. *)
Definition strcmp_eq (a b : string) : bool := String.eqb a b.

Definition strcasecmp_eq (a b : string) : bool := String.eqb (lower a) (lower b).

Definition strlen (s : string) : Z := Z.of_nat (String.length s).

(** The value of the longest prefix of decimal digits, continuing [acc]. *)
Fixpoint digits_value (s : string) (acc : Z) : Z :=
  match s with
  | String c r =>
      if isdigit c then digits_value r (10 * acc + (code c - 48)) else acc
  | EmptyString => acc
  end.

Fixpoint skip_space (s : string) : string :=
  match s with
  | String c r => if isspace c then skip_space r else s
  | EmptyString => EmptyString
  end.

(** [strtol(s, NULL, 10)] before any range check: leading white space, an
    optional sign, then decimal digits; [0] when there is no digit. *)
Definition strtol10 (s : string) : Z :=
  match skip_space s with
  | String "-"%char r => - digits_value r 0
  | String "+"%char r => digits_value r 0
  | s' => digits_value s' 0
  end.

Definition INT_MIN : Z := - 2 ^ 31.
Definition INT_MAX : Z := 2 ^ 31 - 1.
Definition LLONG_MIN : Z := - 2 ^ 63.
Definition LLONG_MAX : Z := 2 ^ 63 - 1.

(** [atoi] and [atoll]: undefined for [NULL] and when the value cannot be
    represented in the result type. *)
Definition atoi (s : option string) : outcome Z :=
  match s with
  | None => Undefined
  | Some s =>
      let v := strtol10 s in
      if (INT_MIN <=? v) && (v <=? INT_MAX) then Ok v else Undefined
  end.

Definition atoll (s : option string) : outcome Z :=
  match s with
  | None => Undefined
  | Some s =>
      let v := strtol10 s in
      if (LLONG_MIN <=? v) && (v <=? LLONG_MAX) then Ok v else Undefined
  end.

(** The decimal digits of [a >= 0], most significant first, before [acc]. *)
Fixpoint digits (fuel : nat) (a : Z) (acc : string) : string :=
  match fuel with
  | O => acc
  | S k =>
      let acc' := String (chr (48 + a mod 10)) acc in
      if a <? 10 then acc' else digits k (a / 10) acc'
  end.

Definition numeral (a : Z) : string :=
  digits (S (Z.to_nat (Z.log2 a))) a EmptyString.

Fixpoint zeros (k : nat) : string :=
  match k with
  | O => EmptyString
  | S k' => String "0"%char (zeros k')
  end.

(** The conversions [%ld] (and [%d]) and [%03ld] of [printf]. *)
Definition fmt_ld (a : Z) : string :=
  if a <? 0 then "-" ++ numeral (- a) else numeral a.

Definition fmt_03ld (a : Z) : string :=
  if a <? 0
  then "-" ++ zeros (2 - String.length (numeral (- a))) ++ numeral (- a)
  else zeros (3 - String.length (numeral a)) ++ numeral a.

(** [fgets(line, size, fp)] on what is left of the file: at most [size - 1]
    characters, up to and including the first newline; [None] (for [NULL])
    at the end of the file.  The result is the buffer and the rest of the
    file. *)
Fixpoint read_line (n : nat) (fp : string) : string * string :=
  match n, fp with
  | S k, String c rest =>
      if Ascii.eqb c LF then (String c EmptyString, rest)
      else let '(l, r) := read_line k rest in (String c l, r)
  | _, _ => (EmptyString, fp)
  end.

Definition fgets (size : nat) (fp : string) : option (string * string) :=
  match fp with
  | EmptyString => None
  | _ => Some (read_line (size - 1) fp)
  end.

(** The C string held by a buffer: its characters before the first NUL. *)
Fixpoint c_str (buf : string) : string :=
  match buf with
  | String c r => if Ascii.eqb c NUL then EmptyString else String c (c_str r)
  | EmptyString => EmptyString
  end.

(** Whether the character [c] occurs in [s]. *)
Fixpoint contains (c : ascii) (s : string) : bool :=
  match s with
  | String c' r => Ascii.eqb c' c || contains c r
  | EmptyString => false
  end.

Definition is_delim (d : list ascii) (c : ascii) : bool :=
  existsb (Ascii.eqb c) d.

Fixpoint skip_delims (d : list ascii) (s : string) : string :=
  match s with
  | String c r => if is_delim d c then skip_delims d r else s
  | EmptyString => EmptyString
  end.

(** The token at the head of [s] and what follows the delimiter that ends
    it. *)
Fixpoint token (d : list ascii) (s : string) : string * string :=
  match s with
  | String c r =>
      if is_delim d c then (EmptyString, r)
      else let '(t, rest) := token d r in (String c t, rest)
  | EmptyString => (EmptyString, EmptyString)
  end.

(** [strtok]: the next token of [s] and the position saved for the next
    call; [None] (for [NULL]) when only delimiters are left. *)
Definition strtok (s : string) (d : list ascii) : option (string * string) :=
  match skip_delims d s with
  | EmptyString => None
  | s' => Some (token d s')
  end.

(** Comparisons of [double]: false whenever an operand is a NaN. *)
Definition dlt (a b : double) : bool :=
  match a, b with
  | DNaN, _ | _, DNaN => false
  | DFin x, DFin y => if Rlt_dec x y then true else false
  | DInf s, DFin _ => s
  | DFin _, DInf t => negb t
  | DInf s, DInf t => s && negb t
  end.

Definition dle (a b : double) : bool :=
  match a, b with
  | DNaN, _ | _, DNaN => false
  | DFin x, DFin y => if Rle_dec x y then true else false
  | DInf s, DFin _ => s
  | DFin _, DInf t => negb t
  | DInf s, DInf t => s || negb t
  end.

Module Params.

(** [struct Parameters], by the fields io.c reads and writes (its declaration
    is in a header that is not under src/).  The flags are [TRUE]/[FALSE]
    integers in the source; a file name is a [char *], [None] for [NULL]. *)
Record t : Type := mk {
  n_particles : Z;
  n_batches : Z;
  n_generations : Z;
  n_active : Z;
  n_nuclides : Z;
  tally : bool;
  n_bins : Z;
  seed : Z;
  nu : double;
  xs_f : double;
  xs_a : double;
  xs_s : double;
  gx : double;
  gy : double;
  bc : Z;
  load_source : bool;
  save_source : bool;
  write_tally : bool;
  write_entropy : bool;
  write_keff : bool;
  write_bank : bool;
  write_source : bool;
  tally_file : option string;
  entropy_file : option string;
  keff_file : option string;
  bank_file : option string;
  source_file : option string
}.

Definition set_n_particles (v : Z) (p : t) : t :=
  mk v (n_batches p) (n_generations p) (n_active p) (n_nuclides p) (tally p)
     (n_bins p) (seed p) (nu p) (xs_f p) (xs_a p) (xs_s p) (gx p) (gy p)
     (bc p) (load_source p) (save_source p) (write_tally p) (write_entropy p)
     (write_keff p) (write_bank p) (write_source p) (tally_file p)
     (entropy_file p) (keff_file p) (bank_file p) (source_file p).

Definition set_n_batches (v : Z) (p : t) : t :=
  mk (n_particles p) v (n_generations p) (n_active p) (n_nuclides p) (tally p)
     (n_bins p) (seed p) (nu p) (xs_f p) (xs_a p) (xs_s p) (gx p) (gy p)
     (bc p) (load_source p) (save_source p) (write_tally p) (write_entropy p)
     (write_keff p) (write_bank p) (write_source p) (tally_file p)
     (entropy_file p) (keff_file p) (bank_file p) (source_file p).

Definition set_n_generations (v : Z) (p : t) : t :=
  mk (n_particles p) (n_batches p) v (n_active p) (n_nuclides p) (tally p)
     (n_bins p) (seed p) (nu p) (xs_f p) (xs_a p) (xs_s p) (gx p) (gy p)
     (bc p) (load_source p) (save_source p) (write_tally p) (write_entropy p)
     (write_keff p) (write_bank p) (write_source p) (tally_file p)
     (entropy_file p) (keff_file p) (bank_file p) (source_file p).

Definition set_n_active (v : Z) (p : t) : t :=
  mk (n_particles p) (n_batches p) (n_generations p) v (n_nuclides p)
     (tally p) (n_bins p) (seed p) (nu p) (xs_f p) (xs_a p) (xs_s p) (gx p)
     (gy p) (bc p) (load_source p) (save_source p) (write_tally p)
     (write_entropy p) (write_keff p) (write_bank p) (write_source p)
     (tally_file p) (entropy_file p) (keff_file p) (bank_file p)
     (source_file p).

Definition set_n_nuclides (v : Z) (p : t) : t :=
  mk (n_particles p) (n_batches p) (n_generations p) (n_active p) v (tally p)
     (n_bins p) (seed p) (nu p) (xs_f p) (xs_a p) (xs_s p) (gx p) (gy p)
     (bc p) (load_source p) (save_source p) (write_tally p) (write_entropy p)
     (write_keff p) (write_bank p) (write_source p) (tally_file p)
     (entropy_file p) (keff_file p) (bank_file p) (source_file p).

Definition set_tally (v : bool) (p : t) : t :=
  mk (n_particles p) (n_batches p) (n_generations p) (n_active p)
     (n_nuclides p) v (n_bins p) (seed p) (nu p) (xs_f p) (xs_a p) (xs_s p)
     (gx p) (gy p) (bc p) (load_source p) (save_source p) (write_tally p)
     (write_entropy p) (write_keff p) (write_bank p) (write_source p)
     (tally_file p) (entropy_file p) (keff_file p) (bank_file p)
     (source_file p).

Definition set_n_bins (v : Z) (p : t) : t :=
  mk (n_particles p) (n_batches p) (n_generations p) (n_active p)
     (n_nuclides p) (tally p) v (seed p) (nu p) (xs_f p) (xs_a p) (xs_s p)
     (gx p) (gy p) (bc p) (load_source p) (save_source p) (write_tally p)
     (write_entropy p) (write_keff p) (write_bank p) (write_source p)
     (tally_file p) (entropy_file p) (keff_file p) (bank_file p)
     (source_file p).

Definition set_seed (v : Z) (p : t) : t :=
  mk (n_particles p) (n_batches p) (n_generations p) (n_active p)
     (n_nuclides p) (tally p) (n_bins p) v (nu p) (xs_f p) (xs_a p) (xs_s p)
     (gx p) (gy p) (bc p) (load_source p) (save_source p) (write_tally p)
     (write_entropy p) (write_keff p) (write_bank p) (write_source p)
     (tally_file p) (entropy_file p) (keff_file p) (bank_file p)
     (source_file p).

Definition set_nu (v : double) (p : t) : t :=
  mk (n_particles p) (n_batches p) (n_generations p) (n_active p)
     (n_nuclides p) (tally p) (n_bins p) (seed p) v (xs_f p) (xs_a p) (xs_s p)
     (gx p) (gy p) (bc p) (load_source p) (save_source p) (write_tally p)
     (write_entropy p) (write_keff p) (write_bank p) (write_source p)
     (tally_file p) (entropy_file p) (keff_file p) (bank_file p)
     (source_file p).

Definition set_xs_f (v : double) (p : t) : t :=
  mk (n_particles p) (n_batches p) (n_generations p) (n_active p)
     (n_nuclides p) (tally p) (n_bins p) (seed p) (nu p) v (xs_a p) (xs_s p)
     (gx p) (gy p) (bc p) (load_source p) (save_source p) (write_tally p)
     (write_entropy p) (write_keff p) (write_bank p) (write_source p)
     (tally_file p) (entropy_file p) (keff_file p) (bank_file p)
     (source_file p).

Definition set_xs_a (v : double) (p : t) : t :=
  mk (n_particles p) (n_batches p) (n_generations p) (n_active p)
     (n_nuclides p) (tally p) (n_bins p) (seed p) (nu p) (xs_f p) v (xs_s p)
     (gx p) (gy p) (bc p) (load_source p) (save_source p) (write_tally p)
     (write_entropy p) (write_keff p) (write_bank p) (write_source p)
     (tally_file p) (entropy_file p) (keff_file p) (bank_file p)
     (source_file p).

Definition set_xs_s (v : double) (p : t) : t :=
  mk (n_particles p) (n_batches p) (n_generations p) (n_active p)
     (n_nuclides p) (tally p) (n_bins p) (seed p) (nu p) (xs_f p) (xs_a p) v
     (gx p) (gy p) (bc p) (load_source p) (save_source p) (write_tally p)
     (write_entropy p) (write_keff p) (write_bank p) (write_source p)
     (tally_file p) (entropy_file p) (keff_file p) (bank_file p)
     (source_file p).

Definition set_gx (v : double) (p : t) : t :=
  mk (n_particles p) (n_batches p) (n_generations p) (n_active p)
     (n_nuclides p) (tally p) (n_bins p) (seed p) (nu p) (xs_f p) (xs_a p)
     (xs_s p) v (gy p) (bc p) (load_source p) (save_source p) (write_tally p)
     (write_entropy p) (write_keff p) (write_bank p) (write_source p)
     (tally_file p) (entropy_file p) (keff_file p) (bank_file p)
     (source_file p).

Definition set_gy (v : double) (p : t) : t :=
  mk (n_particles p) (n_batches p) (n_generations p) (n_active p)
     (n_nuclides p) (tally p) (n_bins p) (seed p) (nu p) (xs_f p) (xs_a p)
     (xs_s p) (gx p) v (bc p) (load_source p) (save_source p) (write_tally p)
     (write_entropy p) (write_keff p) (write_bank p) (write_source p)
     (tally_file p) (entropy_file p) (keff_file p) (bank_file p)
     (source_file p).

Definition set_bc (v : Z) (p : t) : t :=
  mk (n_particles p) (n_batches p) (n_generations p) (n_active p)
     (n_nuclides p) (tally p) (n_bins p) (seed p) (nu p) (xs_f p) (xs_a p)
     (xs_s p) (gx p) (gy p) v (load_source p) (save_source p) (write_tally p)
     (write_entropy p) (write_keff p) (write_bank p) (write_source p)
     (tally_file p) (entropy_file p) (keff_file p) (bank_file p)
     (source_file p).

Definition set_load_source (v : bool) (p : t) : t :=
  mk (n_particles p) (n_batches p) (n_generations p) (n_active p)
     (n_nuclides p) (tally p) (n_bins p) (seed p) (nu p) (xs_f p) (xs_a p)
     (xs_s p) (gx p) (gy p) (bc p) v (save_source p) (write_tally p)
     (write_entropy p) (write_keff p) (write_bank p) (write_source p)
     (tally_file p) (entropy_file p) (keff_file p) (bank_file p)
     (source_file p).

Definition set_save_source (v : bool) (p : t) : t :=
  mk (n_particles p) (n_batches p) (n_generations p) (n_active p)
     (n_nuclides p) (tally p) (n_bins p) (seed p) (nu p) (xs_f p) (xs_a p)
     (xs_s p) (gx p) (gy p) (bc p) (load_source p) v (write_tally p)
     (write_entropy p) (write_keff p) (write_bank p) (write_source p)
     (tally_file p) (entropy_file p) (keff_file p) (bank_file p)
     (source_file p).

Definition set_write_tally (v : bool) (p : t) : t :=
  mk (n_particles p) (n_batches p) (n_generations p) (n_active p)
     (n_nuclides p) (tally p) (n_bins p) (seed p) (nu p) (xs_f p) (xs_a p)
     (xs_s p) (gx p) (gy p) (bc p) (load_source p) (save_source p) v
     (write_entropy p) (write_keff p) (write_bank p) (write_source p)
     (tally_file p) (entropy_file p) (keff_file p) (bank_file p)
     (source_file p).

Definition set_write_entropy (v : bool) (p : t) : t :=
  mk (n_particles p) (n_batches p) (n_generations p) (n_active p)
     (n_nuclides p) (tally p) (n_bins p) (seed p) (nu p) (xs_f p) (xs_a p)
     (xs_s p) (gx p) (gy p) (bc p) (load_source p) (save_source p)
     (write_tally p) v (write_keff p) (write_bank p) (write_source p)
     (tally_file p) (entropy_file p) (keff_file p) (bank_file p)
     (source_file p).

Definition set_write_keff (v : bool) (p : t) : t :=
  mk (n_particles p) (n_batches p) (n_generations p) (n_active p)
     (n_nuclides p) (tally p) (n_bins p) (seed p) (nu p) (xs_f p) (xs_a p)
     (xs_s p) (gx p) (gy p) (bc p) (load_source p) (save_source p)
     (write_tally p) (write_entropy p) v (write_bank p) (write_source p)
     (tally_file p) (entropy_file p) (keff_file p) (bank_file p)
     (source_file p).

Definition set_write_bank (v : bool) (p : t) : t :=
  mk (n_particles p) (n_batches p) (n_generations p) (n_active p)
     (n_nuclides p) (tally p) (n_bins p) (seed p) (nu p) (xs_f p) (xs_a p)
     (xs_s p) (gx p) (gy p) (bc p) (load_source p) (save_source p)
     (write_tally p) (write_entropy p) (write_keff p) v (write_source p)
     (tally_file p) (entropy_file p) (keff_file p) (bank_file p)
     (source_file p).

Definition set_write_source (v : bool) (p : t) : t :=
  mk (n_particles p) (n_batches p) (n_generations p) (n_active p)
     (n_nuclides p) (tally p) (n_bins p) (seed p) (nu p) (xs_f p) (xs_a p)
     (xs_s p) (gx p) (gy p) (bc p) (load_source p) (save_source p)
     (write_tally p) (write_entropy p) (write_keff p) (write_bank p) v
     (tally_file p) (entropy_file p) (keff_file p) (bank_file p)
     (source_file p).

Definition set_tally_file (v : option string) (p : t) : t :=
  mk (n_particles p) (n_batches p) (n_generations p) (n_active p)
     (n_nuclides p) (tally p) (n_bins p) (seed p) (nu p) (xs_f p) (xs_a p)
     (xs_s p) (gx p) (gy p) (bc p) (load_source p) (save_source p)
     (write_tally p) (write_entropy p) (write_keff p) (write_bank p)
     (write_source p) v (entropy_file p) (keff_file p) (bank_file p)
     (source_file p).

Definition set_entropy_file (v : option string) (p : t) : t :=
  mk (n_particles p) (n_batches p) (n_generations p) (n_active p)
     (n_nuclides p) (tally p) (n_bins p) (seed p) (nu p) (xs_f p) (xs_a p)
     (xs_s p) (gx p) (gy p) (bc p) (load_source p) (save_source p)
     (write_tally p) (write_entropy p) (write_keff p) (write_bank p)
     (write_source p) (tally_file p) v (keff_file p) (bank_file p)
     (source_file p).

Definition set_keff_file (v : option string) (p : t) : t :=
  mk (n_particles p) (n_batches p) (n_generations p) (n_active p)
     (n_nuclides p) (tally p) (n_bins p) (seed p) (nu p) (xs_f p) (xs_a p)
     (xs_s p) (gx p) (gy p) (bc p) (load_source p) (save_source p)
     (write_tally p) (write_entropy p) (write_keff p) (write_bank p)
     (write_source p) (tally_file p) (entropy_file p) v (bank_file p)
     (source_file p).

Definition set_bank_file (v : option string) (p : t) : t :=
  mk (n_particles p) (n_batches p) (n_generations p) (n_active p)
     (n_nuclides p) (tally p) (n_bins p) (seed p) (nu p) (xs_f p) (xs_a p)
     (xs_s p) (gx p) (gy p) (bc p) (load_source p) (save_source p)
     (write_tally p) (write_entropy p) (write_keff p) (write_bank p)
     (write_source p) (tally_file p) (entropy_file p) (keff_file p) v
     (source_file p).

Definition set_source_file (v : option string) (p : t) : t :=
  mk (n_particles p) (n_batches p) (n_generations p) (n_active p)
     (n_nuclides p) (tally p) (n_bins p) (seed p) (nu p) (xs_f p) (xs_a p)
     (xs_s p) (gx p) (gy p) (bc p) (load_source p) (save_source p)
     (write_tally p) (write_entropy p) (write_keff p) (write_bank p)
     (write_source p) (tally_file p) (entropy_file p) (keff_file p)
     (bank_file p) v.

End Params.

(** ** Reading the parameters *)

Section Input.

(** [atof] is taken as a parameter: the model of [double] does not fix how a
    decimal numeral is rounded. *)
Variable atof : string -> double.

Definition atof_of (s : option string) : outcome double :=
  match s with
  | None => Undefined
  | Some s => Ok (atof s)
  end.

(** [params->field = value] once the value has been read. *)
Definition assign {A : Type} (m : outcome A) (set : A -> Params.t -> Params.t)
    (params : Params.t) : outcome Params.t :=
  v <- m ;; Ok (set v params).

(** [n_particles = atoll(s); if(n_particles < 1) print_error(...)]. *)
Definition particles (s : option string) : outcome Z :=
  n_particles <- atoll s ;;
  if n_particles <? 1
  then print_error "Number of particles must be greater than 0"
  else Ok n_particles.

(** A flag: [true] or [false] in any letter case. *)
Definition flag (name : string) (s : option string) : outcome bool :=
  match s with
  | None => Undefined
  | Some s =>
      if strcasecmp_eq s "true" then Ok true
      else if strcasecmp_eq s "false" then Ok false
      else print_error ("Invalid option for parameter '" ++ name
                        ++ "': must be 'true' or 'false'")
  end.

Definition boundary_condition (s : option string) : outcome Z :=
  match s with
  | None => Undefined
  | Some s =>
      if strcasecmp_eq s "vacuum" then Ok 0
      else if strcasecmp_eq s "reflective" then Ok 1
      else if strcasecmp_eq s "periodic" then Ok 2
      else print_error "Invalid boundary condition"
  end.

(** A file name: [malloc(strlen(s)*sizeof(char)+1)] and [strcpy]. *)
Definition path (s : option string) : outcome (option string) :=
  match s with
  | None => Undefined
  | Some s => Ok (Some s)
  end.

(** [if(++i < argc) ... argv[i] ... else print_error("Error reading command
    line input '<option>'")]. *)
Definition with_value {A : Type} (opt : string) (value : option string)
    (use : string -> outcome A) : outcome A :=
  match value with
  | Some v => use v
  | None => print_error ("Error reading command line input '" ++ opt ++ "'")
  end.

(** The body of the loop of [read_CLI] for the argument [arg = argv[i]];
    [value] is [argv[i+1]], or [None] when [++i < argc] fails. *)
Definition cli_option (arg : string) (value : option string) (params : Params.t)
  : outcome Params.t :=
  if strcmp_eq arg "-particles" then
    with_value "-particles" value (fun v => assign (particles (Some v)) Params.set_n_particles params)
  else if strcmp_eq arg "-batches" then
    with_value "-batches" value (fun v => assign (atoi (Some v)) Params.set_n_batches params)
  else if strcmp_eq arg "-active" then
    with_value "-active" value (fun v => assign (atoi (Some v)) Params.set_n_active params)
  else if strcmp_eq arg "-generations" then
    with_value "-generations" value (fun v => assign (atoi (Some v)) Params.set_n_generations params)
  else if strcmp_eq arg "-bc" then
    with_value "-bc" value (fun v => assign (boundary_condition (Some v)) Params.set_bc params)
  else if strcmp_eq arg "-nuclides" then
    with_value "-nuclides" value (fun v => assign (atoi (Some v)) Params.set_n_nuclides params)
  else if strcmp_eq arg "-tally" then
    with_value "-tally" value (fun v => assign (flag "tally" (Some v)) Params.set_tally params)
  else if strcmp_eq arg "-bins" then
    with_value "-bins" value (fun v => assign (atoi (Some v)) Params.set_n_bins params)
  else if strcmp_eq arg "-seed" then
    with_value "-seed" value (fun v => assign (atoi (Some v)) Params.set_seed params)
  else if strcmp_eq arg "-nu" then
    with_value "-nu" value (fun v => assign (atof_of (Some v)) Params.set_nu params)
  else if strcmp_eq arg "-xs_a" then
    with_value "-xs_a" value (fun v => assign (atof_of (Some v)) Params.set_xs_a params)
  else if strcmp_eq arg "-xs_s" then
    with_value "-xs_s" value (fun v => assign (atof_of (Some v)) Params.set_xs_s params)
  else if strcmp_eq arg "-xs_f" then
    with_value "-xs_f" value (fun v => assign (atof_of (Some v)) Params.set_xs_f params)
  else if strcmp_eq arg "-x" then
    with_value "-x" value (fun v => assign (atof_of (Some v)) Params.set_gx params)
  else if strcmp_eq arg "-y" then
    with_value "-y" value (fun v => assign (atof_of (Some v)) Params.set_gy params)
  else if strcmp_eq arg "-load_source" then
    with_value "-load_source" value (fun v => assign (flag "load_source" (Some v)) Params.set_load_source params)
  else if strcmp_eq arg "-save_source" then
    with_value "-save_source" value (fun v => assign (flag "save_source" (Some v)) Params.set_save_source params)
  else if strcmp_eq arg "-write_tally" then
    with_value "-write_tally" value (fun v => assign (flag "write_tally" (Some v)) Params.set_write_tally params)
  else if strcmp_eq arg "-write_entropy" then
    with_value "-write_entropy" value (fun v => assign (flag "write_entropy" (Some v)) Params.set_write_entropy params)
  else if strcmp_eq arg "-write_keff" then
    with_value "-write_keff" value (fun v => assign (flag "write_keff" (Some v)) Params.set_write_keff params)
  else if strcmp_eq arg "-write_bank" then
    with_value "-write_bank" value (fun v => assign (flag "write_bank" (Some v)) Params.set_write_bank params)
  else if strcmp_eq arg "-write_source" then
    with_value "-write_source" value (fun v => assign (flag "write_source" (Some v)) Params.set_write_source params)
  else if strcmp_eq arg "-tally_file" then
    with_value "-tally_file" value (fun v => assign (path (Some v)) Params.set_tally_file params)
  else if strcmp_eq arg "-entropy_file" then
    with_value "-entropy_file" value (fun v => assign (path (Some v)) Params.set_entropy_file params)
  else if strcmp_eq arg "-keff_file" then
    with_value "-keff_file" value (fun v => assign (path (Some v)) Params.set_keff_file params)
  else if strcmp_eq arg "-bank_file" then
    with_value "-bank_file" value (fun v => assign (path (Some v)) Params.set_bank_file params)
  else if strcmp_eq arg "-source_file" then
    with_value "-source_file" value (fun v => assign (path (Some v)) Params.set_source_file params)
  else print_error "Error reading command line input".

(** The chain of comparisons of [parse_params] for the key [s]; [value] is
    the result of [strtok(NULL, "=\n")]. *)
Definition config_option (s : string) (value : option string) (params : Params.t)
  : outcome Params.t :=
  if strcmp_eq s "particles" then
    assign (particles value) Params.set_n_particles params
  else if strcmp_eq s "batches" then
    assign (atoi value) Params.set_n_batches params
  else if strcmp_eq s "generations" then
    assign (atoi value) Params.set_n_generations params
  else if strcmp_eq s "active" then
    assign (atoi value) Params.set_n_active params
  else if strcmp_eq s "nuclides" then
    assign (atoi value) Params.set_n_nuclides params
  else if strcmp_eq s "tally" then
    assign (flag "tally" value) Params.set_tally params
  else if strcmp_eq s "bins" then
    assign (atoi value) Params.set_n_bins params
  else if strcmp_eq s "seed" then
    assign (atoi value) Params.set_seed params
  else if strcmp_eq s "nu" then
    assign (atof_of value) Params.set_nu params
  else if strcmp_eq s "xs_f" then
    assign (atof_of value) Params.set_xs_f params
  else if strcmp_eq s "xs_a" then
    assign (atof_of value) Params.set_xs_a params
  else if strcmp_eq s "xs_s" then
    assign (atof_of value) Params.set_xs_s params
  else if strcmp_eq s "x" then
    assign (atof_of value) Params.set_gx params
  else if strcmp_eq s "y" then
    assign (atof_of value) Params.set_gy params
  else if strcmp_eq s "bc" then
    assign (boundary_condition value) Params.set_bc params
  else if strcmp_eq s "load_source" then
    assign (flag "load_source" value) Params.set_load_source params
  else if strcmp_eq s "save_source" then
    assign (flag "save_source" value) Params.set_save_source params
  else if strcmp_eq s "write_tally" then
    assign (flag "write_tally" value) Params.set_write_tally params
  else if strcmp_eq s "write_entropy" then
    assign (flag "write_entropy" value) Params.set_write_entropy params
  else if strcmp_eq s "write_keff" then
    assign (flag "write_keff" value) Params.set_write_keff params
  else if strcmp_eq s "write_bank" then
    assign (flag "write_bank" value) Params.set_write_bank params
  else if strcmp_eq s "write_source" then
    assign (flag "write_source" value) Params.set_write_source params
  else if strcmp_eq s "tally_file" then
    assign (path value) Params.set_tally_file params
  else if strcmp_eq s "entropy_file" then
    assign (path value) Params.set_entropy_file params
  else if strcmp_eq s "keff_file" then
    assign (path value) Params.set_keff_file params
  else if strcmp_eq s "bank_file" then
    assign (path value) Params.set_bank_file params
  else if strcmp_eq s "source_file" then
    assign (path value) Params.set_source_file params
  else print_error "Unknown option in config file.".

(** The options [read_CLI] knows and the keys [parse_params] knows. *)
Definition cli_options : list string :=
  ["-particles"; "-batches"; "-active"; "-generations"; "-bc";
   "-nuclides"; "-tally"; "-bins"; "-seed"; "-nu"; "-xs_a"; "-xs_s";
   "-xs_f"; "-x"; "-y"; "-load_source"; "-save_source"; "-write_tally";
   "-write_entropy"; "-write_keff"; "-write_bank"; "-write_source";
   "-tally_file"; "-entropy_file"; "-keff_file"; "-bank_file";
   "-source_file"].

Definition config_keys : list string :=
  ["particles"; "batches"; "generations"; "active"; "nuclides"; "tally";
   "bins"; "seed"; "nu"; "xs_f"; "xs_a"; "xs_s"; "x"; "y"; "bc";
   "load_source"; "save_source"; "write_tally"; "write_entropy";
   "write_keff"; "write_bank"; "write_source"; "tally_file";
   "entropy_file"; "keff_file"; "bank_file"; "source_file"].

(** The keys whose value is read with [atoi], each with the field it sets. *)
Definition int_keys : list (string * (Z -> Params.t -> Params.t)) :=
  [("batches", Params.set_n_batches); ("generations", Params.set_n_generations);
   ("active", Params.set_n_active); ("nuclides", Params.set_n_nuclides);
   ("bins", Params.set_n_bins); ("seed", Params.set_seed)].

(** The loop [for(i=1; i<argc; i++)] of [read_CLI] over the arguments from
    [argv[i]] on: an option and its value are consumed together. *)
Fixpoint cli_loop (args : list string) (params : Params.t) : outcome Params.t :=
  match args with
  | [] => Ok params
  | arg :: rest =>
      match rest with
      | [] => cli_option arg None params
      | v :: rest' =>
          params' <- cli_option arg (Some v) params ;;
          cli_loop rest' params'
      end
  end.

Definition is_null (s : option string) : bool :=
  match s with
  | None => true
  | Some _ => false
  end.

(** [if(params->write_x == TRUE && params->x_file == NULL)
      params->x_file = name]. *)
Definition default_file (write : bool) (file : option string) (name : string)
  : option string :=
  if write && is_null file then Some name else file.

Definition default_files (params : Params.t) : Params.t :=
  let p1 := Params.set_tally_file
              (default_file (Params.write_tally params)
                 (Params.tally_file params) "tally.dat") params in
  let p2 := Params.set_entropy_file
              (default_file (Params.write_entropy p1)
                 (Params.entropy_file p1) "entropy.dat") p1 in
  let p3 := Params.set_keff_file
              (default_file (Params.write_keff p2)
                 (Params.keff_file p2) "keff.dat") p2 in
  let p4 := Params.set_bank_file
              (default_file (Params.write_bank p3)
                 (Params.bank_file p3) "bank.dat") p3 in
  Params.set_source_file
    (default_file (Params.write_source p4)
       (Params.source_file p4) "source.dat") p4.

(** [if(cond) print_error(message)]. *)
Definition reject (cond : bool) (message : string) : outcome unit :=
  if cond then print_error message else Ok tt.

(** The part of [read_CLI] after its loop. *)
Definition validate (params : Params.t) : outcome Params.t :=
  let params := default_files params in
  _ <- reject ((Params.n_batches params <? 1) && (Params.n_generations params <? 1))
         "Must have at least one batch or one generation" ;;
  _ <- reject (Params.n_batches params <? 0)
         "Number of batches cannot be negative" ;;
  _ <- reject (Params.n_generations params <? 0)
         "Number of generations cannot be negative" ;;
  _ <- reject (Params.n_batches params <? Params.n_active params)
         "Number of active batches cannot be greater than number of batches" ;;
  _ <- reject (Params.n_bins params <? 0)
         "Number of bins cannot be negative" ;;
  _ <- reject (dlt (Params.nu params) (DFin 0))
         "Average number of fission neutrons produced cannot be negative" ;;
  _ <- reject (dle (Params.gx params) (DFin 0) || dle (Params.gy params) (DFin 0))
         "Length of domain must be positive in x and y dimension" ;;
  _ <- reject (dlt (Params.xs_f params) (DFin 0) || dlt (Params.xs_a params) (DFin 0)
               || dlt (Params.xs_s params) (DFin 0))
         "Macroscopic cross section values cannot be negative" ;;
  Ok params.

(** What the checks of [read_CLI] let through: a value that is not below
    zero, or not at or below zero; a NaN compares false with everything, so
    it is let through. *)
Definition not_below_zero (a : double) : Prop :=
  match a with
  | DFin r => (0 <= r)%R
  | DInf neg => neg = false
  | DNaN => True
  end.

Definition not_at_or_below_zero (a : double) : Prop :=
  match a with
  | DFin r => (0 < r)%R
  | DInf neg => neg = false
  | DNaN => True
  end.

Definition accepted (params : Params.t) : Prop :=
  (1 <= Params.n_batches params \/ 1 <= Params.n_generations params)
  /\ 0 <= Params.n_batches params
  /\ 0 <= Params.n_generations params
  /\ Params.n_active params <= Params.n_batches params
  /\ 0 <= Params.n_bins params
  /\ not_below_zero (Params.nu params)
  /\ not_at_or_below_zero (Params.gx params)
  /\ not_at_or_below_zero (Params.gy params)
  /\ not_below_zero (Params.xs_f params)
  /\ not_below_zero (Params.xs_a params)
  /\ not_below_zero (Params.xs_s params).

(** Every file that is to be written has a name. *)
Definition files_named (params : Params.t) : Prop :=
  (Params.write_tally params = true -> Params.tally_file params <> None)
  /\ (Params.write_entropy params = true -> Params.entropy_file params <> None)
  /\ (Params.write_keff params = true -> Params.keff_file params <> None)
  /\ (Params.write_bank params = true -> Params.bank_file params <> None)
  /\ (Params.write_source params = true -> Params.source_file params <> None).

(** [read_CLI(argc, argv, params)]; [argv] has [argc] entries, the first of
    which is the program name. *)
Definition read_CLI (argv : list string) (params : Params.t) : outcome Params.t :=
  params' <- cli_loop (tl argv) params ;;
  validate params'.

(** The body of the loop of [parse_params] for the buffer [fgets] filled. *)
Definition parse_line (buf : string) (params : Params.t) : outcome Params.t :=
  let line := c_str buf in
  match line with
  | String c _ =>
      if Ascii.eqb c "#"%char then Ok params
      else if Ascii.eqb c LF then Ok params
      else
        match strtok line ["="%char] with
        | None => Ok params
        | Some (s, saved) =>
            config_option s (option_map fst (strtok saved ["="%char; LF])) params
        end
  | EmptyString => Ok params
  end.

(** [while((s = fgets(line, sizeof(line), fp)) != NULL)] with
    [char line[256]]; every call of [fgets] that succeeds consumes at least
    one character, so the length of the file bounds the iterations. *)
Fixpoint parse_lines (fuel : nat) (fp : string) (params : Params.t)
  : outcome Params.t :=
  match fuel with
  | O => Ok params
  | S k =>
      match fgets 256 fp with
      | None => Ok params
      | Some (buf, fp') =>
          params' <- parse_line buf params ;;
          parse_lines k fp' params'
      end
  end.

(** [parse_params(filename, params)], given the contents of the file, or
    [None] when [fopen] returns [NULL] (which the code does not test before
    it calls [fgets]). *)
Definition parse_params (file : option string) (params : Params.t)
  : outcome Params.t :=
  match file with
  | None => Undefined
  | Some contents => parse_lines (String.length contents) contents params
  end.

End Input.

(** ** Reports *)

Definition border_print : string :=
  "==========================================" ++
  "======================================" ++ newline.

(** C's [/] and [%] on [long]: truncated quotient and its remainder. *)
Definition fancy_int (a : Z) : string :=
  if a <? 1000 then
    fmt_ld a ++ newline
  else if (1000 <=? a) && (a <? 1000000) then
    fmt_ld (a ÷ 1000) ++ "," ++ fmt_03ld (Z.rem a 1000) ++ newline
  else if (1000000 <=? a) && (a <? 1000000000) then
    fmt_ld (a ÷ 1000000) ++ "," ++ fmt_03ld (Z.rem a 1000000 ÷ 1000) ++ ","
    ++ fmt_03ld (Z.rem a 1000) ++ newline
  else if 1000000000 <=? a then
    fmt_ld (a ÷ 1000000000) ++ "," ++ fmt_03ld (Z.rem a 1000000000 ÷ 1000000)
    ++ "," ++ fmt_03ld (Z.rem a 1000000 ÷ 1000) ++ ","
    ++ fmt_03ld (Z.rem a 1000) ++ newline
  else
    fmt_ld a ++ newline.

Fixpoint spaces (k : nat) : string :=
  match k with
  | O => EmptyString
  | S k' => String " "%char (spaces k')
  end.

(** [for (i=0; i<=(width-length)/2; i++) fputs(" ", stdout)] makes
    [(width-length)/2 + 1] iterations, none when that is not positive. *)
Definition center_print (s : string) (width : Z) : string :=
  let length := strlen s in
  spaces (Z.to_nat ((width - length) ÷ 2 + 1)) ++ s ++ newline.

(** The conversion of an [unsigned long] argument to the [long] parameter of
    [fancy_int]. *)
Definition to_long (z : Z) : Z :=
  if z <? 2 ^ 63 then z else z - 2 ^ 64.

(** [print_params]: what it prints; [printf("%s", bc)] with [bc == NULL] is
    undefined. *)
Definition print_params (params : Params.t) : outcome string :=
  let bc := if Params.bc params =? 0 then Some "Vacuum"
            else if Params.bc params =? 1 then Some "Reflective"
            else if Params.bc params =? 2 then Some "Periodic"
            else None in
  match bc with
  | None => Undefined
  | Some bc =>
      Ok (border_print
          ++ center_print "INPUT SUMMARY" 79
          ++ border_print
          ++ "Number of particles:            " ++ fancy_int (to_long (Params.n_particles params))
          ++ "Number of batches:              " ++ fmt_ld (Params.n_batches params) ++ newline
          ++ "Number of active batches:       " ++ fmt_ld (Params.n_active params) ++ newline
          ++ "Number of generations:          " ++ fmt_ld (Params.n_generations params) ++ newline
          ++ "Boundary conditions:            " ++ bc ++ newline
          ++ "Number of nuclides in material: " ++ fmt_ld (Params.n_nuclides params) ++ newline
          ++ "RNG seed:                       " ++ fmt_ld (Params.seed params) ++ newline
          ++ border_print)
  end.

(** What is left of a numeral when its separators are taken out, and the
    groups the separators delimit. *)
Fixpoint ungroup (s : string) : string :=
  match s with
  | EmptyString => EmptyString
  | String c r => if Ascii.eqb c ","%char then ungroup r else String c (ungroup r)
  end.

Fixpoint groups (s : string) (cur : string) : list string :=
  match s with
  | EmptyString => [cur]
  | String c r =>
      if Ascii.eqb c ","%char then cur :: groups r EmptyString
      else groups r (cur ++ String c EmptyString)
  end.

(** ** The source file

    [source.dat] holds particle records.  For [load_source] the file is
    given by the records that can be read from it, [None] when it cannot be
    opened; for [save_source] the device is given by the number of records
    it accepts, [None] when the file cannot be opened for writing (which the
    code does not test before it calls [fwrite]). *)

Definition load_source (b : Bank.t) (file : option (list Particle.t))
  : outcome Bank.t :=
  match file with
  | None => print_error "Couldn't open source file."
  | Some records =>
      (* stat = fread(b->p, sizeof(Particle), b->sz, fp) *)
      let stat := Z.min (Bank.sz b) (len records) in
      p <- memcpy (Bank.p b) 0 records 0 stat ;;
      if negb (stat =? Bank.sz b)
      then print_error "Error loading source."
      else Ok (Bank.mk p (Bank.n b) (Bank.sz b))
  end.

(** The result is the contents of the file written. *)
Definition save_source (b : Bank.t) (device : option Z)
  : outcome (list Particle.t) :=
  match device with
  | None => Undefined
  | Some room =>
      (* stat = fwrite(b->p, sizeof(Particle), b->n, fp) *)
      let stat := Z.min (Bank.n b) room in
      if len (Bank.p b) <? stat then Undefined
      else if negb (stat =? Bank.n b)
      then print_error "Error saving source."
      else Ok (firstn (Z.to_nat stat) (Bank.p b))
  end.

(** ** The source distribution *)

Module Geometry.

(** [struct Geometry], by the fields io.c reads (its declaration is in a
    header that is not under src/): the side lengths of the domain, over the
    values of an arithmetic. *)
Record t (D : Type) : Type := mk {
  x : D;
  y : D
}.

Arguments mk {D}.
Arguments x {D}.
Arguments y {D}.

End Geometry.

Section Output.

(** The bin of a particle is a quotient of two doubles converted to an
    integer, so [write_source] is given over an arithmetic (see [Machine]):
    what is proved for every arithmetic holds for binary64. *)
Context {D : Type}.
Variable A : Machine.arith D.

(** The conversion [%e] of [printf] is taken as a parameter. *)
Variable fmt_e : D -> string.

(** [ix = p->x/dx; iy = p->y/dy] and the index [ix + n*iy]. *)
Definition lin_index (n : Z) (dx dy : D) (q : Machine.Particle D) : outcome Z :=
  ix <- Machine.to_unsigned A (Machine.f_div A (Machine.x q) dx) ;;
  iy <- Machine.to_unsigned A (Machine.f_div A (Machine.y q) dy) ;;
  Ok (uadd ix (umul n iy)).

(** The body of the first loop of [write_source]: [dist[ix + n*iy]++]. *)
Definition source_count_body (b : Machine.Bank D) (n : Z) (dx dy : D) (l : Z)
    (dist : list D) : outcome (list D) :=
  q <- load (Machine.p b) l ;;
  k <- lin_index n dx dy q ;;
  d <- load dist k ;;
  store dist k (Machine.f_add A d (Machine.f_one A)).

(** The body of the second loop: [dist[l] /= b->n]. *)
Definition normalize_body (bn : Z) (l : Z) (dist : list D)
  : outcome (list D) :=
  d <- load dist l ;;
  store dist l (Machine.f_div A d (Machine.f_of_ulong A bn)).

(** [fprintf(fp, "%e ", dist[i + n*j])]. *)
Definition print_cell_body (dist : list D) (n i j : Z) (text : string)
  : outcome string :=
  d <- load dist (uadd i (umul n j)) ;;
  Ok (text ++ fmt_e d ++ " ").

(** [for(j=0; j<n; j++) ...; fprintf(fp, "\n")]. *)
Definition print_row_body (dist : list D) (n i : Z) (text : string)
  : outcome string :=
  row <- for_range 0 n (print_cell_body dist n i) text ;;
  Ok (row ++ newline).

(** [write_source]; the file is given by its contents, [None] when
    [fopen(filename, "a")] returns [NULL] (which the code does not test),
    and the result is the contents of the file afterwards.  The counters [i]
    and [j] of the printing loops are [int]s compared with the
    [unsigned long] [n]: they overflow when [n] is beyond [INT_MAX]. *)
Definition write_source (g : Geometry.t D) (b : Machine.Bank D)
    (params : Params.t) (file : option string) : outcome string :=
  (* n = params->n_bins *)
  let n := wrap64 (Params.n_bins params) in
  let dx := Machine.f_div A (Geometry.x g) (Machine.f_of_ulong A n) in
  let dy := Machine.f_div A (Geometry.y g) (Machine.f_of_ulong A n) in
  (* dist = calloc(n*n, sizeof(double)) *)
  let dist0 := calloc (umul n n) 8 (Machine.f_zero A) in
  (* for(l=0; l<b->n; l++) *)
  dist1 <- for_range 0 (Machine.n b) (source_count_body b n dx dy) dist0 ;;
  (* for(l=0; l<n*n; l++) *)
  dist2 <- for_range 0 (umul n n) (normalize_body (Machine.n b)) dist1 ;;
  match file with
  | None => Undefined
  | Some contents =>
      if INT_MAX <? n then Undefined
      else
        (* for(i=0; i<n; i++) *)
        for_range 0 n (print_row_body dist2 n) contents
  end.

(** The table [write_source] is to append to [text]: [n] rows, row [i]
    holding the cells [i + n*j] for [j = 0 .. n-1], each followed by a
    blank. *)
Definition source_row (cell : Z -> D) (n i : Z) (text : string) : string :=
  fold_left (fun row j => row ++ fmt_e (cell (i + n * j)) ++ " ")
    (zseq 0 (Z.to_nat n)) text ++ newline.

Definition source_table (cell : Z -> D) (n : Z) (text : string) : string :=
  fold_left (fun text i => source_row cell n i text) (zseq 0 (Z.to_nat n)) text.

(** A particle whose index is inside the [cells] entries of [dist], and how
    many particles are counted under an index. *)
Definition countable (n : Z) (dx dy : D) (cells : Z) (q : Machine.Particle D)
  : Prop :=
  exists k, lin_index n dx dy q = Ok k /\ 0 <= k < cells.

Definition lin_count (n : Z) (dx dy : D) (ps : list (Machine.Particle D))
    (c : Z) : Z :=
  len (filter (fun q => match lin_index n dx dy q with
                        | Ok k => k =? c
                        | _ => false
                        end) ps).

(** The double that [k] increments [d++] make of [0.0]. *)
Definition counted (k : Z) : D :=
  Nat.iter (Z.to_nat k) (fun d => Machine.f_add A d (Machine.f_one A))
    (Machine.f_zero A).

(** The bin [(ix, iy)] the code computes for a particle, a particle whose
    bin is one of the [n x n] bins, and how many particles have a bin. *)
Definition cell_of (dx dy : D) (q : Machine.Particle D) : outcome (Z * Z) :=
  ix <- Machine.to_unsigned A (Machine.f_div A (Machine.x q) dx) ;;
  iy <- Machine.to_unsigned A (Machine.f_div A (Machine.y q) dy) ;;
  Ok (ix, iy).

Definition in_cell (n : Z) (dx dy : D) (q : Machine.Particle D) : Prop :=
  exists ix iy, cell_of dx dy q = Ok (ix, iy) /\ 0 <= ix < n /\ 0 <= iy < n.

Definition cell_count (dx dy : D) (ps : list (Machine.Particle D)) (i j : Z)
  : Z :=
  len (filter (fun q => match cell_of dx dy q with
                        | Ok (ix, iy) => (ix =? i) && (iy =? j)
                        | _ => false
                        end) ps).

End Output.

(** An array of [N] elements given by its contents, and the sum of a list
    of integers. *)
Definition dtab {T : Type} (f : Z -> T) (N : nat) : list T :=
  map (fun c => f (Z.of_nat c)) (seq 0 N).

Definition Zsum (l : list Z) : Z := fold_right Z.add 0 l.

(** Parameters for worked examples. *)
Definition example_params : Params.t :=
  Params.mk 1000 10 1 5 1 false 10 1 (DFin 2) (DFin 1) (DFin 2) (DFin 3)
    (DFin 100) (DFin 100) 0 false false false false true false false
    None None None None None.

(** Worked examples in binary64: the unit square with two bins a side, the
    particle at [(xn/xd, yn/yd)], particles in three of the quarters of the
    square and a particle on its face [x = 1]. *)
Definition unit_square : Geometry.t PrimFloat.float :=
  Geometry.mk PrimFloat.one PrimFloat.one.

Definition two_bins : Params.t := Params.set_n_bins 2 example_params.

Definition b64_at (xn xd yn yd : Z) : Machine.Particle PrimFloat.float :=
  Machine.mkParticle
    (PrimFloat.div (Machine.b64_of_ulong xn) (Machine.b64_of_ulong xd))
    (PrimFloat.div (Machine.b64_of_ulong yn) (Machine.b64_of_ulong yd))
    PrimFloat.zero.

Definition south_west : Machine.Particle PrimFloat.float := b64_at 1 4 1 4.

Definition south_east : Machine.Particle PrimFloat.float := b64_at 3 4 1 4.

Definition north_west : Machine.Particle PrimFloat.float := b64_at 1 4 3 4.

Definition on_face : Machine.Particle PrimFloat.float := b64_at 1 1 1 4.

End Io.

(** * Properties *)

(** ** Outcomes, arrays and loops *)

Lemma bind_Ok {A B : Type} (m : outcome A) (f : A -> outcome B) (b : B) :
  bind m f = Ok b -> exists a, m = Ok a /\ f a = Ok b.
Proof.
  destruct m; simpl; intros H; try discriminate.
  exists a; split; [reflexivity | exact H].
Qed.

Lemma not_fatal_Ok {A : Type} (a : A) : not_fatal (Ok a).
Proof. intros out code; discriminate. Qed.

Lemma not_fatal_Undefined {A : Type} : not_fatal (@Undefined A).
Proof. intros out code; discriminate. Qed.

Lemma not_fatal_bind {A B : Type} (m : outcome A) (f : A -> outcome B) :
  not_fatal m -> (forall a, not_fatal (f a)) -> not_fatal (bind m f).
Proof.
  intros Hm Hf. destruct m as [a| out code |]; simpl.
  - apply Hf.
  - exfalso. exact (Hm out code eq_refl).
  - apply not_fatal_Undefined.
Qed.

Lemma len_nonneg {A : Type} (l : list A) : 0 <= len l.
Proof. unfold len; lia. Qed.

Lemma len_app {A : Type} (l1 l2 : list A) : len (l1 ++ l2) = len l1 + len l2.
Proof. unfold len; rewrite length_app; lia. Qed.

Lemma wrap64_small (z : Z) : 0 <= z < ULONG_MOD -> wrap64 z = z.
Proof. intros H. unfold wrap64. apply Z.mod_small. exact H. Qed.

Lemma upd_length {A : Type} (a : list A) (k : nat) (v : A) :
  List.length (upd a k v) = List.length a.
Proof.
  unfold upd. destruct (skipn k a) eqn:E; [reflexivity|].
  rewrite length_app; simpl.
  assert (H := length_skipn k a). rewrite E in H; simpl in H.
  rewrite length_firstn. lia.
Qed.

Lemma upd_split {A : Type} (a : list A) (k : nat) (v : A) :
  (k < List.length a)%nat ->
  upd a k v = firstn k a ++ v :: skipn (S k) a.
Proof.
  intros Hk. unfold upd.
  destruct (skipn k a) eqn:E.
  - assert (H := length_skipn k a). rewrite E in H; simpl in H. lia.
  - f_equal. f_equal.
    replace (S k) with (1 + k)%nat by lia.
    rewrite <- skipn_skipn, E. reflexivity.
Qed.

Lemma upd_app_l {A : Type} (a b : list A) (k : nat) (v : A) :
  (k < List.length a)%nat -> upd (a ++ b) k v = upd a k v ++ b.
Proof.
  intros Hk.
  rewrite (upd_split (a ++ b)) by (rewrite length_app; lia).
  rewrite (upd_split a) by exact Hk.
  rewrite firstn_app, skipn_app.
  replace (k - List.length a)%nat with 0%nat by lia.
  replace (S k - List.length a)%nat with 0%nat by lia.
  simpl. rewrite app_nil_r, <- app_assoc. reflexivity.
Qed.

Lemma upd_middle {A : Type} (a b : list A) (x v : A) :
  upd (a ++ x :: b) (List.length a) v = a ++ v :: b.
Proof.
  unfold upd.
  rewrite skipn_app, Nat.sub_diag, skipn_all2 by lia. simpl.
  rewrite firstn_app, Nat.sub_diag, firstn_all2 by lia. simpl.
  rewrite app_nil_r. reflexivity.
Qed.

Lemma Forall_upd {A : Type} (Q : A -> Prop) (a : list A) (k : nat) (v : A) :
  Forall Q a -> Q v -> Forall Q (upd a k v).
Proof.
  intros Ha Hv. unfold upd.
  destruct (skipn k a) as [|x tl] eqn:E; [exact Ha|].
  apply Forall_app. split.
  - rewrite <- (firstn_skipn k a) in Ha. apply Forall_app in Ha. apply Ha.
  - constructor; [exact Hv|].
    rewrite <- (firstn_skipn k a), E in Ha.
    apply Forall_app in Ha. destruct Ha as [_ Ha].
    inversion Ha; assumption.
Qed.

Lemma In_firstn_le {A : Type} (l : list A) (x : A) :
  forall a b : nat, (a <= b)%nat -> In x (firstn a l) -> In x (firstn b l).
Proof.
  induction l as [|y l IH]; intros [|a] [|b] Hab Hin; simpl in *;
    try contradiction; try lia.
  destruct Hin as [E|Hin]; [left; exact E | right].
  apply (IH a b); [lia | exact Hin].
Qed.

Lemma skipn_cons_nth {A : Type} (l : list A) (k : nat) (x : A) :
  nth_error l k = Some x -> skipn k l = x :: skipn (S k) l.
Proof.
  revert k. induction l as [|a l IH]; intros [|k] H; simpl in *; try discriminate.
  - congruence.
  - apply IH. exact H.
Qed.

Lemma nth_error_in_range {A : Type} (a : list A) (i : Z) :
  0 <= i < len a -> exists x, nth_error a (Z.to_nat i) = Some x.
Proof.
  intros [H0 H1]. unfold len in H1.
  destruct (nth_error a (Z.to_nat i)) eqn:E; [eauto|].
  apply nth_error_None in E. lia.
Qed.

Lemma load_in_range {A : Type} (a : list A) (i : Z) (d : A) :
  0 <= i < len a -> load a i = Ok (nth (Z.to_nat i) a d).
Proof.
  intros [H0 H1]. unfold load.
  destruct (0 <=? i) eqn:E; [|lia].
  unfold len in H1.
  destruct (nth_error a (Z.to_nat i)) eqn:En.
  - f_equal. symmetry. apply nth_error_nth. exact En.
  - apply nth_error_None in En. lia.
Qed.

Lemma load_nth_error {A : Type} (a : list A) (i : Z) (x : A) :
  0 <= i -> nth_error a (Z.to_nat i) = Some x -> load a i = Ok x.
Proof.
  intros Hi H. unfold load.
  replace (0 <=? i) with true by (symmetry; apply Z.leb_le; exact Hi).
  rewrite H. reflexivity.
Qed.

Lemma store_in_range {A : Type} (a : list A) (i : Z) (v : A) :
  0 <= i < len a -> store a i v = Ok (upd a (Z.to_nat i) v).
Proof.
  intros [H0 H1]. unfold store.
  replace (0 <=? i) with true by (symmetry; apply Z.leb_le; lia).
  replace (i <? len a) with true by (symmetry; apply Z.ltb_lt; lia).
  reflexivity.
Qed.

Lemma memcpy_in_range {A : Type} (dst : list A) (d : Z) (src : list A) (s cnt : Z) :
  0 <= d -> 0 <= s -> 0 <= cnt -> d + cnt <= len dst -> s + cnt <= len src ->
  memcpy dst d src s cnt =
  Ok (firstn (Z.to_nat d) dst
      ++ firstn (Z.to_nat cnt) (skipn (Z.to_nat s) src)
      ++ skipn (Z.to_nat (d + cnt)) dst).
Proof.
  intros. unfold memcpy.
  repeat match goal with
  | |- context [?a <=? ?b] =>
      replace (a <=? b) with true by (symmetry; apply Z.leb_le; lia)
  end.
  reflexivity.
Qed.

Lemma not_fatal_load {A : Type} (a : list A) (i : Z) : not_fatal (load a i).
Proof.
  unfold load. destruct (0 <=? i); [|apply not_fatal_Undefined].
  destruct (nth_error a (Z.to_nat i));
    [apply not_fatal_Ok | apply not_fatal_Undefined].
Qed.

Lemma not_fatal_store {A : Type} (a : list A) (i : Z) (v : A) :
  not_fatal (store a i v).
Proof.
  unfold store.
  destruct ((0 <=? i) && (i <? len a));
    [apply not_fatal_Ok | apply not_fatal_Undefined].
Qed.

Lemma not_fatal_memcpy {A : Type} (dst : list A) d (src : list A) s cnt :
  not_fatal (memcpy dst d src s cnt).
Proof.
  unfold memcpy.
  match goal with |- not_fatal (if ?c then _ else _) => destruct c end;
    [apply not_fatal_Ok | apply not_fatal_Undefined].
Qed.

Lemma for_loop_fold {A St : Type} (a : list A) (f : St -> A -> St) :
  forall k i acc, 0 <= i -> i + Z.of_nat k <= len a ->
  for_loop k i (fun i s => x <- load a i ;; Ok (f s x)) acc =
  Ok (fold_left f (firstn k (skipn (Z.to_nat i) a)) acc).
Proof.
  induction k as [|k IH]; intros i acc Hi Hk; simpl.
  - reflexivity.
  - destruct (nth_error_in_range a i ltac:(lia)) as [x Hx].
    rewrite (load_nth_error _ i x Hi Hx). simpl.
    rewrite IH by lia.
    rewrite (skipn_cons_nth _ _ _ Hx). simpl.
    replace (Z.to_nat (i + 1)) with (S (Z.to_nat i)) by lia.
    reflexivity.
Qed.

Lemma for_loop_invariant {St : Type} (P : St -> Prop)
    (body : Z -> St -> outcome St) :
  (forall i s s', P s -> body i s = Ok s' -> P s') ->
  forall fuel i s s', P s -> for_loop fuel i body s = Ok s' -> P s'.
Proof.
  intros Hbody fuel. induction fuel as [|k IH]; intros i s s' Hs Hrun; simpl in Hrun.
  - inversion Hrun; subst. exact Hs.
  - apply bind_Ok in Hrun. destruct Hrun as [s1 [H1 H2]].
    apply (IH (i + 1) s1 s'); [|exact H2].
    apply (Hbody i s s1 Hs H1).
Qed.

Lemma loop_states_invariant {St : Type} (P Q : St -> Prop)
    (body : Z -> St -> outcome St) :
  (forall i s s', P s -> body i s = Ok s' -> P s' /\ Q s') ->
  forall fuel i s, P s -> Forall Q (loop_states fuel i body s).
Proof.
  intros Hbody fuel. induction fuel as [|k IH]; intros i s Hs; simpl.
  - constructor.
  - destruct (body i s) as [s1| |] eqn:E; try constructor.
    + apply (Hbody i s s1 Hs E).
    + apply IH. apply (Hbody i s s1 Hs E).
Qed.

Lemma not_fatal_for_loop {St : Type} (body : Z -> St -> outcome St) :
  (forall i s, not_fatal (body i s)) ->
  forall fuel i s, not_fatal (for_loop fuel i body s).
Proof.
  intros Hb fuel. induction fuel as [|k IH]; intros i s; simpl.
  - apply not_fatal_Ok.
  - apply not_fatal_bind; [apply Hb | intros s'; apply IH].
Qed.

(** ** Bank synchronisation *)

Lemma wf_bank_of (l : list Particle.t) :
  len l < ULONG_MOD -> wf_bank (bank_of l).
Proof.
  intros Hl. unfold wf_bank, bank_of; simpl.
  pose proof (len_nonneg l). lia.
Qed.

Lemma wf_stale_bank : wf_bank (Bank.mk [site 1; site 2] 0 2).
Proof. unfold wf_bank, len, ULONG_MOD; simpl. lia. Qed.

Lemma live_length (b : Bank.t) :
  0 <= Bank.n b <= len (Bank.p b) -> len (live b) = Bank.n b.
Proof.
  intros H. unfold len, live in *. rewrite length_firstn. lia.
Qed.

Lemma at_index_live (b : Bank.t) (i : Z) :
  0 <= i < Bank.n b -> Bank.n b <= len (Bank.p b) ->
  In (at_index (Bank.p b) i) (live b).
Proof.
  intros Hi Hn. unfold at_index, live, len in *.
  replace (nth (Z.to_nat i) (Bank.p b) dummy)
    with (nth (Z.to_nat i) (firstn (Z.to_nat (Bank.n b)) (Bank.p b)) dummy).
  - apply nth_In. rewrite length_firstn. lia.
  - rewrite nth_firstn.
    destruct (Z.to_nat i <? Z.to_nat (Bank.n b))%nat eqn:E; [reflexivity|].
    apply Nat.ltb_ge in E. lia.
Qed.

Section SynchronizeFacts.

Variable rng : Type.
Variable rni : Z -> Z -> rng -> Z * rng.
Hypothesis rni_ok : rni_in_range rng rni.


Lemma reservoir_length fp n_s k : forall i sample g,
  List.length (fst (reservoir rng rni fp n_s k i sample g)) = List.length sample.
Proof.
  induction k as [|k IH]; intros i sample g; simpl; [reflexivity|].
  destruct (rni 0 (i + 1) g) as [j g'].
  rewrite IH. destruct (j <? n_s); [apply upd_length | reflexivity].
Qed.

Lemma replace_loop fp n_s rest k : forall i sample g,
  len sample = n_s -> n_s <= i -> 0 <= n_s ->
  i + Z.of_nat k <= len fp -> len fp < ULONG_MOD ->
  for_loop k i (replace_body rng rni fp n_s) (sample ++ rest, g) =
  Ok (fst (reservoir rng rni fp n_s k i sample g) ++ rest,
      snd (reservoir rng rni fp n_s k i sample g)).
Proof.
  induction k as [|k IH]; intros i sample g Hlen Hi Hns Hk Hfp; simpl;
    [reflexivity|].
  rewrite (wrap64_small (i + 1)) by lia.
  assert (Hr := rni_ok 0 (i + 1) g ltac:(lia)).
  destruct (rni 0 (i + 1) g) as [r g']; simpl in Hr.
  rewrite (wrap64_small r) by lia.
  destruct (r <? n_s) eqn:Er.
  - apply Z.ltb_lt in Er.
    rewrite (load_in_range fp i dummy) by lia. simpl.
    rewrite store_in_range by (rewrite len_app; pose proof (len_nonneg rest); lia).
    simpl.
    rewrite upd_app_l by (unfold len in Hlen; lia).
    apply IH; try lia.
    unfold len. rewrite upd_length. exact Hlen.
  - apply IH; try lia.
Qed.

Lemma oversample_length fp n_f k : forall g,
  List.length (fst (oversample rng rni fp n_f k g)) = k.
Proof.
  induction k as [|k IH]; intros g; simpl; [reflexivity|].
  destruct (rni 0 n_f g) as [j g1].
  specialize (IH g1). destruct (oversample rng rni fp n_f k g1) as [rest g2].
  simpl in *. congruence.
Qed.

(** The sampling loop, for any draws that stay inside the fission bank's
    storage. *)
Lemma sample_loop fp n_f k : forall i sp g,
  (forall g0, 0 <= fst (rni 0 n_f g0) < len fp) ->
  len fp < ULONG_MOD -> 0 <= i -> i + Z.of_nat k <= len sp ->
  for_loop k i (sample_body rng rni fp n_f) (sp, g) =
  Ok (firstn (Z.to_nat i) sp ++ fst (oversample rng rni fp n_f k g)
        ++ skipn (Z.to_nat i + k) sp,
      snd (oversample rng rni fp n_f k g)).
Proof.
  induction k as [|k IH]; intros i sp g Hdraw Hfp Hi Hk; simpl.
  - rewrite Nat.add_0_r, firstn_skipn. reflexivity.
  - assert (Hr := Hdraw g).
    destruct (rni 0 n_f g) as [r g1]; simpl in Hr.
    rewrite (wrap64_small r) by lia.
    rewrite (load_in_range fp r dummy) by lia. simpl.
    rewrite store_in_range by lia. simpl.
    rewrite IH; try lia; try assumption.
    2:{ unfold len. rewrite upd_length. fold (len sp). lia. }
    destruct (oversample rng rni fp n_f k g1) as [rest g2]; simpl.
    f_equal. f_equal.
    assert (Hlt : (Z.to_nat i < List.length sp)%nat) by (unfold len in Hk; lia).
    rewrite (upd_split sp) by exact Hlt.
    replace (Z.to_nat (i + 1)) with (S (Z.to_nat i)) by lia.
    assert (Hl : List.length (firstn (Z.to_nat i) sp) = Z.to_nat i)
      by (rewrite length_firstn; lia).
    rewrite firstn_app, skipn_app, Hl.
    replace (S (Z.to_nat i) - Z.to_nat i)%nat with 1%nat by lia.
    replace (S (Z.to_nat i) + k - Z.to_nat i)%nat with (S k) by lia.
    rewrite (firstn_all2 (firstn (Z.to_nat i) sp) (n := S (Z.to_nat i))) by lia.
    rewrite (skipn_all2 (firstn (Z.to_nat i) sp) (n := (S (Z.to_nat i) + k)%nat))
      by lia.
    remember (skipn (S (Z.to_nat i)) sp) as tl eqn:Etl.
    simpl. subst tl. rewrite skipn_skipn, <- app_assoc. simpl.
    replace (k + S (Z.to_nat i))%nat with (Z.to_nat i + S k)%nat by lia.
    reflexivity.
Qed.

Lemma synchronize_bank_counts source_bank fission_bank g s' f' g' :
  synchronize_bank rng rni source_bank fission_bank g = Ok (s', f', g') ->
  Bank.n f' = 0 /\ Bank.n s' = Bank.n source_bank
  /\ Bank.sz s' = Bank.sz source_bank /\ Bank.sz f' = Bank.sz fission_bank
  /\ Bank.p f' = Bank.p fission_bank.
Proof.
  unfold synchronize_bank. intros H.
  apply bind_Ok in H. destruct H as [[sp g1] [_ H]].
  inversion H; subst; simpl. repeat split; reflexivity.
Qed.

Lemma synchronize_bank_reservoir (source_bank fission_bank : Bank.t) (g : rng) :
  wf_bank source_bank -> wf_bank fission_bank ->
  Bank.n source_bank <= Bank.n fission_bank ->
  let n_s := Bank.n source_bank in
  let n_f := Bank.n fission_bank in
  let copied := firstn (Z.to_nat n_s) (Bank.p fission_bank) in
  let r := reservoir rng rni (Bank.p fission_bank) n_s (Z.to_nat (n_f - n_s)) n_s copied g in
  let new_source :=
    Bank.mk (fst r ++ skipn (Z.to_nat n_s) (Bank.p source_bank))
            n_s (Bank.sz source_bank) in
  synchronize_bank rng rni source_bank fission_bank g =
    Ok (new_source, Bank.mk (Bank.p fission_bank) 0 (Bank.sz fission_bank), snd r)
  /\ live new_source = fst r
  /\ (n_f = n_s -> live new_source = live fission_bank).
Proof.
  intros [Hns [Hsz Hm]] [Hnf [Hfz Hfm]] Hle n_s n_f copied r new_source.
  assert (Hcl : List.length copied = Z.to_nat n_s).
  { unfold copied. rewrite length_firstn. unfold len in Hfz. subst n_s. lia. }
  assert (Hrl : List.length (fst r) = Z.to_nat n_s).
  { unfold r. rewrite reservoir_length. exact Hcl. }
  assert (Hlive : live new_source = fst r).
  { unfold live, new_source; simpl. fold n_s.
    rewrite firstn_app, Hrl, Nat.sub_diag, firstn_all2 by lia.
    simpl. apply app_nil_r. }
  split; [|split].
  - unfold synchronize_bank.
    fold n_s n_f.
    replace (n_s <=? n_f) with true by (symmetry; apply Z.leb_le; exact Hle).
    rewrite memcpy_in_range by (unfold n_s, n_f in *; lia).
    simpl. fold copied.
    unfold for_range.
    rewrite (replace_loop (Bank.p fission_bank) n_s); try (unfold n_s, n_f in *; lia).
    + reflexivity.
    + unfold len. rewrite Hcl. unfold n_s in *. lia.
  - exact Hlive.
  - intros Heq. rewrite Hlive. unfold r.
    replace (Z.to_nat (n_f - n_s)) with 0%nat by lia. simpl.
    unfold copied, live. fold n_f. rewrite Heq. reflexivity.
Qed.

(** C1. With [n_f >= n_s], the new source bank is the reservoir rng rni sample:
    the first [n_s] fission particles are copied, then for
    [i = n_s, ..., n_f - 1] in increasing order [j = rni(0, i+1)] is drawn and
    slot [j] is overwritten with [fission_bank[i]] exactly when [j < n_s];
    with [n_f = n_s] the new source bank is a copy of the fission bank. *)
Theorem C1_reservoir_sampling (source_bank fission_bank : Bank.t) (g : rng) :
  wf_bank source_bank -> wf_bank fission_bank ->
  Bank.n source_bank <= Bank.n fission_bank ->
  let n_s := Bank.n source_bank in
  let n_f := Bank.n fission_bank in
  let copied := firstn (Z.to_nat n_s) (Bank.p fission_bank) in
  let r := reservoir rng rni (Bank.p fission_bank) n_s (Z.to_nat (n_f - n_s)) n_s copied g in
  let new_source :=
    Bank.mk (fst r ++ skipn (Z.to_nat n_s) (Bank.p source_bank))
            n_s (Bank.sz source_bank) in
  synchronize_bank rng rni source_bank fission_bank g =
    Ok (new_source, Bank.mk (Bank.p fission_bank) 0 (Bank.sz fission_bank), snd r)
  /\ live new_source = fst r
  /\ (n_f = n_s -> live new_source = live fission_bank).
Proof. exact (synchronize_bank_reservoir source_bank fission_bank g). Qed.

Lemma synchronize_bank_oversample (source_bank fission_bank : Bank.t) (g : rng) :
  wf_bank source_bank -> wf_bank fission_bank ->
  0 < Bank.n fission_bank < Bank.n source_bank ->
  let n_s := Bank.n source_bank in
  let n_f := Bank.n fission_bank in
  let r := oversample rng rni (Bank.p fission_bank) n_f (Z.to_nat (n_s - n_f)) g in
  let new_source :=
    Bank.mk (fst r ++ live fission_bank
               ++ skipn (Z.to_nat n_s) (Bank.p source_bank))
            n_s (Bank.sz source_bank) in
  synchronize_bank rng rni source_bank fission_bank g =
    Ok (new_source, Bank.mk (Bank.p fission_bank) 0 (Bank.sz fission_bank), snd r)
  /\ live new_source = fst r ++ live fission_bank
  /\ firstn (Z.to_nat (n_s - n_f)) (Bank.p new_source) = fst r
  /\ (forall k, 0 <= k < n_f ->
       nth_error (Bank.p new_source) (Z.to_nat (n_s - n_f + k)) =
       nth_error (Bank.p fission_bank) (Z.to_nat k)).
Proof.
  intros [Hns [Hsz Hm]] [Hnf [Hfz Hfm]] Hlt n_s n_f r new_source.
  assert (Hrl : List.length (fst r) = Z.to_nat (n_s - n_f))
    by (unfold r; apply oversample_length).
  assert (Hll : List.length (live fission_bank) = Z.to_nat n_f).
  { unfold live. rewrite length_firstn. unfold len in Hfz. fold n_f. lia. }
  split; [|split; [|split]].
  - unfold synchronize_bank.
    fold n_s n_f.
    replace (n_s <=? n_f) with false by (symmetry; apply Z.leb_gt; apply Hlt).
    rewrite (wrap64_small (n_s - n_f)) by (unfold n_s, n_f in *; lia).
    unfold for_range. rewrite Z.sub_0_r.
    rewrite (sample_loop (Bank.p fission_bank) n_f);
      try (unfold n_s, n_f in *; lia).
    2:{ intros g0. pose proof (rni_ok 0 n_f g0 ltac:(apply Hlt)).
        unfold n_f in *. lia. }
    fold r. simpl.
    rewrite memcpy_in_range; try (unfold n_s, n_f in *; lia).
    2:{ rewrite len_app. unfold len at 1. rewrite Hrl.
        unfold len. rewrite length_skipn. unfold len in Hsz.
        unfold n_s, n_f in *. lia. }
    simpl. unfold new_source, live. fold n_f.
    rewrite firstn_app, skipn_app, Hrl, Nat.sub_diag, firstn_all2 by lia.
    rewrite (skipn_all2 (fst r)) by lia.
    rewrite skipn_skipn. simpl. rewrite app_nil_r.
    replace (Z.to_nat (n_s - n_f + n_f) - Z.to_nat (n_s - n_f) + Z.to_nat (n_s - n_f))%nat
      with (Z.to_nat n_s) by lia.
    reflexivity.
  - unfold live at 1, new_source; simpl. fold n_s.
    rewrite app_assoc, firstn_app.
    rewrite firstn_all2 by (rewrite length_app; lia).
    rewrite length_app.
    replace (Z.to_nat n_s - (List.length (fst r) + List.length (live fission_bank)))%nat
      with 0%nat by lia.
    simpl. apply app_nil_r.
  - unfold new_source; simpl.
    rewrite firstn_app, Hrl, Nat.sub_diag, firstn_all2 by lia.
    simpl. apply app_nil_r.
  - intros k Hk. unfold new_source; simpl.
    rewrite nth_error_app2 by lia.
    rewrite nth_error_app1 by lia.
    unfold live. rewrite nth_error_firstn.
    replace (Z.to_nat (n_s - n_f + k) - List.length (fst r))%nat
      with (Z.to_nat k) by lia.
    fold n_f.
    destruct (Z.to_nat k <? Z.to_nat n_f)%nat eqn:E; [reflexivity|].
    apply Nat.ltb_ge in E. lia.
Qed.

(** C2. With [0 < n_f < n_s], the first [n_s - n_f] entries of the new
    source bank are [fission_bank[rni(0, n_f)]], drawn in the order
    [k = 0, 1, ...], and the last [n_f] entries are the fission bank in
    order. *)
Theorem C2_oversampling (source_bank fission_bank : Bank.t) (g : rng) :
  wf_bank source_bank -> wf_bank fission_bank ->
  0 < Bank.n fission_bank < Bank.n source_bank ->
  let n_s := Bank.n source_bank in
  let n_f := Bank.n fission_bank in
  let r := oversample rng rni (Bank.p fission_bank) n_f (Z.to_nat (n_s - n_f)) g in
  let new_source :=
    Bank.mk (fst r ++ live fission_bank
               ++ skipn (Z.to_nat n_s) (Bank.p source_bank))
            n_s (Bank.sz source_bank) in
  synchronize_bank rng rni source_bank fission_bank g =
    Ok (new_source, Bank.mk (Bank.p fission_bank) 0 (Bank.sz fission_bank), snd r)
  /\ live new_source = fst r ++ live fission_bank
  /\ firstn (Z.to_nat (n_s - n_f)) (Bank.p new_source) = fst r
  /\ (forall k, 0 <= k < n_f ->
       nth_error (Bank.p new_source) (Z.to_nat (n_s - n_f + k)) =
       nth_error (Bank.p fission_bank) (Z.to_nat k)).
Proof. exact (synchronize_bank_oversample source_bank fission_bank g). Qed.

Lemma synchronize_bank_not_fatal source_bank fission_bank g :
  not_fatal (synchronize_bank rng rni source_bank fission_bank g).
Proof.
  unfold synchronize_bank.
  apply not_fatal_bind.
  - destruct (Bank.n source_bank <=? Bank.n fission_bank).
    + apply not_fatal_bind; [apply not_fatal_memcpy|].
      intros sp0. apply not_fatal_for_loop.
      intros i [sp g0]. unfold replace_body.
      destruct (rni 0 (wrap64 (i + 1)) g0) as [r g1].
      destruct (wrap64 r <? Bank.n source_bank); [|apply not_fatal_Ok].
      apply not_fatal_bind; [apply not_fatal_load|]. intros q.
      apply not_fatal_bind; [apply not_fatal_store|]. intros sp'.
      apply not_fatal_Ok.
    + apply not_fatal_bind.
      * apply not_fatal_for_loop.
        intros i [sp g0]. unfold sample_body.
        destruct (rni 0 (Bank.n fission_bank) g0) as [r g1].
        apply not_fatal_bind; [apply not_fatal_load|]. intros q.
        apply not_fatal_bind; [apply not_fatal_store|]. intros sp'.
        apply not_fatal_Ok.
      * intros [sp1 g1].
        apply not_fatal_bind; [apply not_fatal_memcpy|]. intros sp2.
        apply not_fatal_Ok.
  - intros [sp g']. apply not_fatal_Ok.
Qed.

(** C5 (as the code has it). An empty fission bank is not detected:
    [synchronize_bank] never calls [print_error]; with [n_f = 0 < n_s] it
    takes the over-sampling branch, draws [rni(0, 0)] once per source slot
    and, when the draws fall inside the fission bank's storage, returns
    normally with every source slot overwritten from that storage and
    [fission_bank.n = 0]. *)
Theorem C5_empty_fission_bank_is_sampled (source_bank fission_bank : Bank.t)
    (g : rng) :
  wf_bank source_bank -> wf_bank fission_bank ->
  Bank.n fission_bank = 0 -> 0 < Bank.n source_bank ->
  (forall g0, 0 <= fst (rni 0 0 g0) < Bank.sz fission_bank) ->
  let n_s := Bank.n source_bank in
  let r := oversample rng rni (Bank.p fission_bank) 0 (Z.to_nat n_s) g in
  not_fatal (synchronize_bank rng rni source_bank fission_bank g)
  /\ synchronize_bank rng rni source_bank fission_bank g =
     Ok (Bank.mk (fst r ++ skipn (Z.to_nat n_s) (Bank.p source_bank))
                 n_s (Bank.sz source_bank),
         Bank.mk (Bank.p fission_bank) 0 (Bank.sz fission_bank),
         snd r).
Proof.
  intros [Hns [Hsz Hm]] [Hnf [Hfz Hfm]] Hz Hpos Hdraw n_s r.
  split; [apply synchronize_bank_not_fatal|].
  assert (Hrl : List.length (fst r) = Z.to_nat n_s)
    by (unfold r; apply oversample_length).
  unfold synchronize_bank.
  fold n_s. rewrite Hz.
  replace (n_s <=? 0) with false by (symmetry; apply Z.leb_gt; exact Hpos).
  rewrite Z.sub_0_r.
  rewrite (wrap64_small n_s) by (unfold n_s in *; lia).
  unfold for_range. rewrite Z.sub_0_r.
  rewrite (sample_loop (Bank.p fission_bank) 0);
    try (unfold n_s in *; lia).
  2:{ intros g0. rewrite <- Hfz. apply Hdraw. }
  fold r. simpl.
  rewrite memcpy_in_range; try (unfold n_s in *; lia).
  2:{ rewrite len_app. unfold len at 1. rewrite Hrl.
      unfold len. rewrite length_skipn. unfold len in Hsz.
      unfold n_s in *. lia. }
  simpl.
  rewrite Z.add_0_r, firstn_app, skipn_app, Hrl, Nat.sub_diag.
  rewrite firstn_all2 by lia. rewrite (skipn_all2 (fst r)) by lia.
  simpl. rewrite app_nil_r. reflexivity.
Qed.

End SynchronizeFacts.

Section SamplingFacts.

Variable rng : Type.
Variable rni : Z -> Z -> rng -> Z * rng.
Hypothesis rni_ok : rni_in_range rng rni.

Lemma reservoir_from (b : Bank.t) (n_s : Z) (Q : Particle.t -> Prop) (k : nat) :
  forall i sample g,
  0 <= i -> i + Z.of_nat k <= Bank.n b -> Bank.n b <= len (Bank.p b) ->
  (forall p, In p (live b) -> Q p) ->
  Forall Q sample ->
  Forall Q (fst (reservoir rng rni (Bank.p b) n_s k i sample g)).
Proof.
  induction k as [|k IH]; intros i sample g Hi Hk Hn HQ Hs; simpl; [exact Hs|].
  destruct (rni 0 (i + 1) g) as [j g'].
  apply IH; try lia; try assumption.
  destruct (j <? n_s); [|exact Hs].
  apply Forall_upd; [exact Hs|].
  apply HQ. apply at_index_live; lia.
Qed.

Lemma oversample_from (b : Bank.t) (Q : Particle.t -> Prop) (k : nat) :
  forall g,
  0 < Bank.n b <= len (Bank.p b) ->
  (forall p, In p (live b) -> Q p) ->
  Forall Q (fst (oversample rng rni (Bank.p b) (Bank.n b) k g)).
Proof.
  induction k as [|k IH]; intros g Hn HQ; simpl; [constructor|].
  pose proof (rni_ok 0 (Bank.n b) g ltac:(lia)) as Hr.
  destruct (rni 0 (Bank.n b) g) as [j g1]. simpl in Hr.
  specialize (IH g1 Hn HQ).
  destruct (oversample rng rni (Bank.p b) (Bank.n b) k g1) as [rest g2].
  simpl in *. constructor; [|exact IH].
  apply HQ. apply at_index_live; lia.
Qed.

Lemma synchronize_bank_draws (source_bank fission_bank : Bank.t) (g : rng) :
  wf_bank source_bank -> wf_bank fission_bank -> 0 < Bank.n fission_bank ->
  exists s' f' g',
    synchronize_bank rng rni source_bank fission_bank g = Ok (s', f', g')
    /\ Bank.n s' = Bank.n source_bank
    /\ wf_bank s'
    /\ Forall (fun p => In p (live fission_bank)) (live s').
Proof.
  intros Hs Hf Hpos.
  destruct (Z_le_gt_dec (Bank.n source_bank) (Bank.n fission_bank)) as [Hle|Hgt].
  - destruct (synchronize_bank_reservoir rng rni rni_ok source_bank fission_bank g
                Hs Hf Hle) as [Hrun [Hlive _]].
    eexists _, _, _. split; [exact Hrun|]. split; [reflexivity|].
    destruct Hs as [Hs1 [Hs2 Hs3]]. destruct Hf as [Hf1 [Hf2 _]].
    split.
    + unfold wf_bank; simpl. repeat split; try lia.
      rewrite Hs2. unfold len in *.
      rewrite length_app, reservoir_length, length_firstn, length_skipn. lia.
    + rewrite Hlive. apply reservoir_from; try lia.
      * intros p Hp; exact Hp.
      * apply Forall_forall. intros p Hp. unfold live.
        apply (In_firstn_le _ _ (Z.to_nat (Bank.n source_bank))); [lia | exact Hp].
  - assert (Hlt : 0 < Bank.n fission_bank < Bank.n source_bank) by lia.
    destruct (synchronize_bank_oversample rng rni rni_ok source_bank fission_bank g
                Hs Hf Hlt) as [Hrun [Hlive _]].
    eexists _, _, _. split; [exact Hrun|]. split; [reflexivity|].
    destruct Hs as [Hs1 [Hs2 Hs3]]. destruct Hf as [Hf1 [Hf2 _]].
    split.
    + unfold wf_bank; simpl. repeat split; try lia.
      rewrite Hs2. unfold len, live in *.
      rewrite !length_app, oversample_length, length_firstn, length_skipn. lia.
    + rewrite Hlive. apply Forall_app. split.
      * apply oversample_from; [lia|]. intros p Hp; exact Hp.
      * apply Forall_forall. intros p Hp; exact Hp.
Qed.

(** X5. When the fission bank is not empty, [synchronize_bank] returns
    normally and every particle of the new source bank is a particle of the
    fission bank. *)
Theorem X5_source_drawn_from_fission (source_bank fission_bank : Bank.t)
    (g : rng) :
  wf_bank source_bank -> wf_bank fission_bank -> 0 < Bank.n fission_bank ->
  exists s' f' g',
    synchronize_bank rng rni source_bank fission_bank g = Ok (s', f', g')
    /\ Bank.n s' = Bank.n source_bank
    /\ Forall (fun p => In p (live fission_bank)) (live s').
Proof.
  intros Hs Hf Hpos.
  destruct (synchronize_bank_draws source_bank fission_bank g Hs Hf Hpos)
    as [s' [f' [g' [Hrun [Hn [_ Hin]]]]]].
  exists s', f', g'. repeat split; assumption.
Qed.

End SamplingFacts.

(** *** Worked examples with the tape generator *)

Lemma tape_rni_in_range : rni_in_range tape tape_rni.
Proof.
  intros a b [|r t] Hab; simpl; [lia|].
  replace (a <? b) with true by (symmetry; apply Z.ltb_lt; exact Hab).
  pose proof (Z.mod_pos_bound r (b - a) ltac:(lia)). lia.
Qed.

Lemma tape_rni_empty_range (g : tape) : fst (tape_rni 0 0 g) = 0.
Proof. destruct g; reflexivity. Qed.

(** Scenario S2: [N = 2], fission bank [A, B, C, D], draws 2 then 0. *)
Example S2_reservoir_halving :
  synchronize_bank tape tape_rni
    (Bank.mk [site 0; site 0] 2 2)
    (Bank.mk [site 1; site 2; site 3; site 4] 4 4) [2; 0]
  = Ok (Bank.mk [site 4; site 2] 2 2,
        Bank.mk [site 1; site 2; site 3; site 4] 0 4, []).
Proof. reflexivity. Qed.

(** Scenario S3: [N = 4], fission bank [A, B], draws 0 then 1. *)
Example S3_oversampling :
  synchronize_bank tape tape_rni
    (Bank.mk [site 0; site 0; site 0; site 0] 4 4)
    (Bank.mk [site 1; site 2] 2 2) [0; 1]
  = Ok (Bank.mk [site 1; site 2; site 1; site 2] 4 4,
        Bank.mk [site 1; site 2] 0 2, []).
Proof. reflexivity. Qed.

Lemma C1_witness :
  synchronize_bank tape tape_rni
    (bank_of [site 0; site 0]) (bank_of [site 1; site 2; site 3; site 4]) [2; 0]
  = Ok (Bank.mk [site 4; site 2] 2 2,
        Bank.mk [site 1; site 2; site 3; site 4] 0 4, []).
Proof.
  refine (proj1 (C1_reservoir_sampling tape tape_rni tape_rni_in_range
                   (bank_of [site 0; site 0])
                   (bank_of [site 1; site 2; site 3; site 4]) [2; 0]
                   (wf_bank_of [site 0; site 0] eq_refl)
                   (wf_bank_of [site 1; site 2; site 3; site 4] eq_refl) _)).
  unfold bank_of, len; simpl. lia.
Defined.

Lemma C2_witness :
  synchronize_bank tape tape_rni
    (bank_of [site 0; site 0; site 0; site 0]) (bank_of [site 1; site 2]) [0; 1]
  = Ok (Bank.mk [site 1; site 2; site 1; site 2] 4 4,
        Bank.mk [site 1; site 2] 0 2, []).
Proof.
  refine (proj1 (C2_oversampling tape tape_rni tape_rni_in_range
                   (bank_of [site 0; site 0; site 0; site 0])
                   (bank_of [site 1; site 2]) [0; 1]
                   (wf_bank_of [site 0; site 0; site 0; site 0] eq_refl)
                   (wf_bank_of [site 1; site 2] eq_refl) _)).
  unfold bank_of, len; simpl. lia.
Defined.

Lemma C5_witness :
  not_fatal
    (synchronize_bank tape tape_rni (bank_of [site 0; site 0])
       (Bank.mk [site 1; site 2] 0 2) [])
  /\ synchronize_bank tape tape_rni (bank_of [site 0; site 0])
       (Bank.mk [site 1; site 2] 0 2) []
     = Ok (Bank.mk [site 1; site 1] 2 2, Bank.mk [site 1; site 2] 0 2, []).
Proof.
  refine (C5_empty_fission_bank_is_sampled tape tape_rni
            (bank_of [site 0; site 0]) (Bank.mk [site 1; site 2] 0 2) []
            (wf_bank_of [site 0; site 0] eq_refl) wf_stale_bank eq_refl _ _).
  - unfold bank_of, len; simpl. lia.
  - intros g0. rewrite tape_rni_empty_range. simpl. lia.
Defined.

(** With an empty fission bank [synchronize_bank] returns normally: both
    source slots are filled from the slot of the fission bank's storage
    that [rni(0, 0)] names. *)
Lemma C5_counterexample :
  synchronize_bank tape tape_rni (bank_of [site 0; site 0])
    (Bank.mk [site 1; site 2] 0 2) []
  = Ok (Bank.mk [site 1; site 1] 2 2, Bank.mk [site 1; site 2] 0 2, []).
Proof. reflexivity. Qed.

Lemma X5_witness :
  exists s' f' g',
    synchronize_bank tape tape_rni
      (bank_of [site 0; site 0]) (bank_of [site 1; site 2; site 3; site 4]) [2; 0]
      = Ok (s', f', g')
    /\ Bank.n s' = Bank.n (bank_of [site 0; site 0])
    /\ Forall (fun p => In p (live (bank_of [site 1; site 2; site 3; site 4])))
         (live s').
Proof.
  refine (X5_source_drawn_from_fission tape tape_rni tape_rni_in_range
            (bank_of [site 0; site 0]) (bank_of [site 1; site 2; site 3; site 4])
            [2; 0] (wf_bank_of [site 0; site 0] eq_refl)
            (wf_bank_of [site 1; site 2; site 3; site 4] eq_refl) _).
  unfold bank_of, len; simpl. lia.
Defined.

(** ** Arithmetic on [double] *)

Lemma Rneg_true (r : R) : (r < 0)%R -> Rneg r = true.
Proof. intros H. unfold Rneg. destruct (Rlt_dec r 0); [reflexivity | contradiction]. Qed.

Lemma Rneg_false (r : R) : (0 <= r)%R -> Rneg r = false.
Proof. intros H. unfold Rneg. destruct (Rlt_dec r 0); [lra | reflexivity]. Qed.

Lemma ddiv_fin (x y : R) : y <> 0%R -> ddiv (DFin x) (DFin y) = DFin (x / y).
Proof.
  intros Hy. unfold ddiv. destruct (Req_dec_T y 0); [contradiction | reflexivity].
Qed.

Lemma ddiv_zero_zero (x y : R) : x = 0%R -> y = 0%R -> ddiv (DFin x) (DFin y) = DNaN.
Proof.
  intros Hx Hy. unfold ddiv.
  destruct (Req_dec_T y 0); [|contradiction].
  destruct (Req_dec_T x 0); [reflexivity | contradiction].
Qed.

Lemma dsqrt_fin (r : R) : (0 <= r)%R -> dsqrt (DFin r) = DFin (sqrt r).
Proof. intros H. unfold dsqrt. destruct (Rlt_dec r 0); [lra | reflexivity]. Qed.

Lemma dlog2_fin (r : R) : (0 < r)%R -> dlog2 (DFin r) = DFin (ln r / ln 2).
Proof.
  intros H. unfold dlog2.
  destruct (Rlt_dec r 0); [lra|].
  destruct (Req_dec_T r 0); [lra | reflexivity].
Qed.

Lemma dadd_comm (a b : double) : dadd a b = dadd b a.
Proof.
  destruct a as [x|s|], b as [y|t|]; simpl; try reflexivity.
  - f_equal. lra.
  - destruct s, t; reflexivity.
Qed.

Lemma dadd_assoc (a b c : double) : dadd a (dadd b c) = dadd (dadd a b) c.
Proof.
  destruct a as [x|s|], b as [y|t|], c as [z|r|]; simpl; try reflexivity;
    try (f_equal; lra);
    try (destruct s; reflexivity);
    try (destruct t; reflexivity);
    try (destruct s, t; reflexivity);
    try (destruct t, r; reflexivity);
    try (destruct s, r; reflexivity).
  destruct s, t, r; reflexivity.
Qed.

Lemma dadd_0_l (a : double) : dadd (DFin 0) a = a.
Proof. destruct a; simpl; try reflexivity. f_equal. lra. Qed.

Lemma dadd_0_r (a : double) : dadd a (DFin 0) = a.
Proof. rewrite dadd_comm. apply dadd_0_l. Qed.

Arguments dadd : simpl never.

Arguments dsub : simpl never.

Arguments dmul : simpl never.

Arguments ddiv : simpl never.

Arguments dsqrt : simpl never.

Arguments dlog2 : simpl never.

Arguments dcbrt : simpl never.

Arguments dceil : simpl never.

Arguments to_ulong : simpl never.

Arguments of_int : simpl never.

Arguments wrap64 : simpl never.

Lemma ddiv_one (a : double) : ddiv a (DFin 1) = a.
Proof.
  unfold ddiv. destruct a as [x|s|]; try reflexivity.
  - destruct (Req_dec_T 1 0); [lra|]. f_equal. field.
  - rewrite Rneg_false by lra. destruct s; reflexivity.
Qed.




Lemma dsub_self_sq (a : double) :
  dpow2 (dsub a a) = DNaN \/ dpow2 (dsub a a) = DFin 0.
Proof.
  unfold dpow2, dsub, dmul, dadd. destruct a as [x|[]|]; simpl; auto.
  right. f_equal. lra.
Qed.

Lemma dsum_app (a b : list double) : dsum (a ++ b) = dadd (dsum a) (dsum b).
Proof.
  induction a as [|x a IH]; simpl.
  - symmetry. apply dadd_0_l.
  - rewrite IH. apply dadd_assoc.
Qed.

Lemma fold_left_dadd (l : list double) : forall acc,
  fold_left dadd l acc = dadd acc (dsum l).
Proof.
  induction l as [|x l IH]; intros acc; simpl.
  - symmetry. apply dadd_0_r.
  - rewrite IH. symmetry. apply dadd_assoc.
Qed.



Lemma Rsum_app (a b : list R) : Rsum (a ++ b) = (Rsum a + Rsum b)%R.
Proof.
  induction a as [|x a IH]; simpl; [lra|]. rewrite IH. lra.
Qed.

Lemma to_ulong_IZR (z : Z) : 0 <= z < ULONG_MOD -> to_ulong (DFin (IZR z)) = Ok z.
Proof.
  intros Hz. unfold to_ulong.
  destruct (Rlt_dec (IZR z) 0) as [Hneg|_].
  - apply lt_IZR in Hneg. lia.
  - rewrite ZfloorZ.
    replace (0 <=? z) with true by (symmetry; apply Z.leb_le; lia).
    replace (z <? ULONG_MOD) with true by (symmetry; apply Z.ltb_lt; lia).
    reflexivity.
Qed.

(** ** Mean-squared distance *)

Lemma odd_coprime_pow2 (a : Z) (k : Z) :
  0 <= k -> Z.odd a = true -> Z.gcd (2 ^ k) a = 1.
Proof.
  intros Hk Ha.
  apply Z.coprime_pow_l; [exact Hk|].
  apply Z.coprime_prime_l; [exact Z.prime_2|].
  intros [q Hq]. subst a. rewrite Z.mul_comm, Z.odd_mul in Ha.
  simpl in Ha. discriminate.
Qed.

Lemma n_pairs_zero_iff (n : Z) :
  0 <= n < ULONG_MOD -> (n_pairs n = 0 <-> n <= 1).
Proof.
  intros Hn. unfold n_pairs, umul. split.
  - intros H.
    destruct (Z_le_gt_dec n 1) as [Hle|Hgt]; [exact Hle | exfalso].
    rewrite (wrap64_small (n - 1)) in H by lia.
    unfold wrap64 in H.
    assert (Hpos : 0 < ULONG_MOD) by (unfold ULONG_MOD; lia).
    pose proof (Z.mod_pos_bound (n * (n - 1)) ULONG_MOD Hpos) as Hb.
    assert (Hsmall : (n * (n - 1)) mod ULONG_MOD < 2).
    { apply Z.div_small_iff in H; lia. }
    assert (Heven : Z.even ((n * (n - 1)) mod ULONG_MOD) = true).
    { assert (He : Z.even (n * (n - 1)) = true).
      { rewrite Z.even_mul, Z.even_sub. simpl.
        destruct (Z.even n); reflexivity. }
      rewrite (Z.div_mod (n * (n - 1)) ULONG_MOD) in He by lia.
      rewrite Z.even_add, Z.even_mul in He.
      change (Z.even ULONG_MOD) with true in He. simpl in He.
      destruct (Z.even ((n * (n - 1)) mod ULONG_MOD)); [reflexivity | discriminate]. }
    assert (Hz : (n * (n - 1)) mod ULONG_MOD = 0).
    { destruct (Z.eq_dec ((n * (n - 1)) mod ULONG_MOD) 0) as [E|E]; [exact E|].
      assert (E1 : (n * (n - 1)) mod ULONG_MOD = 1) by lia.
      rewrite E1 in Heven. discriminate. }
    apply Z.mod_divide in Hz; [|lia].
    destruct (Z.odd n) eqn:Hodd.
    + assert (Hd : (ULONG_MOD | n - 1)).
      { apply Z.gauss with n; [exact Hz|].
        apply (odd_coprime_pow2 n 64); [lia | exact Hodd]. }
      apply Z.divide_pos_le in Hd; lia.
    + assert (Hodd' : Z.odd (n - 1) = true).
      { rewrite Z.odd_sub, Hodd. reflexivity. }
      assert (Hd : (ULONG_MOD | n)).
      { apply Z.gauss with (n - 1); [rewrite Z.mul_comm; exact Hz|].
        apply (odd_coprime_pow2 (n - 1) 64); [lia | exact Hodd']. }
      apply Z.divide_pos_le in Hd; lia.
  - intros Hle.
    assert (Hc : n = 0 \/ n = 1) by lia.
    destruct Hc as [-> | ->]; reflexivity.
Qed.

Lemma n_pairs_small (n : Z) :
  0 <= n < 2 ^ 32 -> 2 * n_pairs n = n * (n - 1).
Proof.
  intros Hn. unfold n_pairs, umul.
  destruct (Z.eq_dec n 0) as [->|Hz]; [reflexivity|].
  rewrite (wrap64_small (n - 1)) by (unfold ULONG_MOD; lia).
  rewrite wrap64_small by (unfold ULONG_MOD; nia).
  assert (Heven : (n * (n - 1)) mod 2 = 0).
  { rewrite Z.mul_mod by lia.
    destruct (Z.mod_pos_bound n 2 ltac:(lia)) as [H0 H1].
    assert (Hc : n mod 2 = 0 \/ n mod 2 = 1) by lia.
    destruct Hc as [E|E].
    - rewrite E. reflexivity.
    - replace ((n - 1) mod 2) with 0; [rewrite E; reflexivity|].
      symmetry. rewrite Zminus_mod, E. reflexivity. }
  pose proof (Z.div_mod (n * (n - 1)) 2 ltac:(lia)) as Hd.
  lia.
Qed.

Lemma msd_inner_loop (b : Bank.t) (i : Z) (pi : Particle.t) :
  0 <= i -> nth_error (Bank.p b) (Z.to_nat i) = Some pi ->
  forall k j acc, 0 <= j -> j + Z.of_nat k <= len (Bank.p b) ->
  for_loop k j (msd_body b i) acc =
  Ok (fold_left dadd
        (map (sq_dist pi) (firstn k (skipn (Z.to_nat j) (Bank.p b)))) acc).
Proof.
  intros Hi Hpi. induction k as [|k IH]; intros j acc Hj Hk; simpl.
  - reflexivity.
  - destruct (nth_error_in_range (Bank.p b) j ltac:(lia)) as [pj Hpj].
    unfold msd_body at 1.
    rewrite (load_nth_error _ i pi Hi Hpi). simpl.
    rewrite (load_nth_error _ j pj Hj Hpj). simpl.
    rewrite IH by lia.
    rewrite (skipn_cons_nth _ _ _ Hpj). simpl.
    replace (Z.to_nat (j + 1)) with (S (Z.to_nat j)) by lia.
    reflexivity.
Qed.

Lemma msd_outer_loop (b : Bank.t) :
  0 <= Bank.n b <= len (Bank.p b) -> len (Bank.p b) < ULONG_MOD ->
  forall k i acc, 0 <= i -> i + Z.of_nat k = Bank.n b ->
  for_loop k i
    (fun i msd => for_range (uadd i 1) (Bank.n b) (msd_body b i) msd) acc =
  Ok (fold_left dadd
        (pair_terms (firstn k (skipn (Z.to_nat i) (Bank.p b)))) acc).
Proof.
  intros Hn Hm. induction k as [|k IH]; intros i acc Hi Hk; simpl.
  - reflexivity.
  - destruct (nth_error_in_range (Bank.p b) i ltac:(lia)) as [pi Hpi].
    unfold uadd. rewrite wrap64_small by lia.
    unfold for_range.
    replace (Z.to_nat (Bank.n b - (i + 1))) with k by lia.
    rewrite (msd_inner_loop b i pi Hi Hpi) by lia. simpl.
    rewrite IH by lia.
    rewrite (skipn_cons_nth _ _ _ Hpi). simpl.
    rewrite fold_left_app.
    replace (Z.to_nat (i + 1)) with (S (Z.to_nat i)) by lia.
    reflexivity.
Qed.

Lemma mean_squared_distance_eq (b : Bank.t) :
  wf_bank b -> mean_squared_distance b = Ok (msd_of (live b)).
Proof.
  intros [Hn [Hsz Hm]]. rewrite Hsz in *.
  unfold mean_squared_distance, for_range.
  rewrite (msd_outer_loop b) by lia. simpl.
  rewrite fold_left_dadd, dadd_0_l.
  unfold msd_of. rewrite live_length by lia.
  rewrite Z.sub_0_r. reflexivity.
Qed.

(** C10. [mean_squared_distance] divides by the pair count without a guard:
    the count [n*(n-1)/2] is zero exactly for banks of fewer than two
    particles, and for those the value returned is [0.0/0], a NaN. *)
Theorem C10_msd_undefined_below_two_particles (b : Bank.t) :
  0 <= Bank.n b < ULONG_MOD ->
  (n_pairs (Bank.n b) = 0 <-> Bank.n b <= 1)
  /\ (Bank.n b <= 1 -> mean_squared_distance b = Ok DNaN).
Proof.
  intros Hn. split; [apply n_pairs_zero_iff; exact Hn|].
  intros Hle. unfold mean_squared_distance.
  assert (Hc : Bank.n b = 0 \/ Bank.n b = 1) by lia.
  destruct Hc as [E | E]; rewrite E.
  - simpl. unfold of_int. rewrite ddiv_zero_zero; reflexivity.
  - simpl. unfold of_int. rewrite ddiv_zero_zero; reflexivity.
Qed.

Lemma C10_witness :
  (n_pairs 1 = 0 <-> 1 <= 1)
  /\ (1 <= 1 -> mean_squared_distance (Bank.mk [site 7] 1 1) = Ok DNaN).
Proof.
  apply (C10_msd_undefined_below_two_particles (Bank.mk [site 7] 1 1)).
  simpl. unfold ULONG_MOD. lia.
Defined.






Lemma sq_dist_finite (p q : Particle.t) :
  finite_pos p -> finite_pos q ->
  sq_dist p q = DFin (Rsq_dist (pos_of p) (pos_of q)).
Proof.
  intros [Hx [Hy Hz]] [Hx' [Hy' Hz']].
  unfold sq_dist, pos_of, Rsq_dist.
  rewrite Hx, Hy, Hz, Hx', Hy', Hz'. simpl.
  unfold dsub, dmul, dadd, dneg. f_equal; ring.
Qed.

Lemma dsum_pair_terms_finite (l : list Particle.t) :
  Forall finite_pos l ->
  dsum (pair_terms l) = DFin (Rsum (Rpair_terms (map pos_of l))).
Proof.
  induction 1 as [|p l Hp Hl IH]; simpl; [reflexivity|].
  rewrite dsum_app, IH, Rsum_app.
  assert (Hrow : dsum (map (sq_dist p) l)
                 = DFin (Rsum (map (Rsq_dist (pos_of p)) (map pos_of l)))).
  { clear IH. induction Hl as [|q l Hq Hl IHl]; simpl; [reflexivity|].
    rewrite IHl, (sq_dist_finite p q Hp Hq). reflexivity. }
  rewrite Hrow. reflexivity.
Qed.

(** X4. For a bank of [2 <= n < 2^32] particles at finite positions,
    [mean_squared_distance] returns
    [(2/(n(n-1))) * sum over the pairs i < j of |p_i - p_j|^2]. *)
Theorem X4_msd_formula (b : Bank.t) :
  wf_bank b -> 2 <= Bank.n b < 2 ^ 32 -> Forall finite_pos (live b) ->
  mean_squared_distance b = Ok (DFin (spec_msd (map pos_of (live b)))).
Proof.
  intros Hwf Hn Hfin.
  rewrite (mean_squared_distance_eq b Hwf). f_equal.
  assert (Hlen : len (live b) = Bank.n b).
  { destruct Hwf as [H1 [H2 H3]]. apply live_length. lia. }
  unfold msd_of, spec_msd. rewrite (dsum_pair_terms_finite _ Hfin).
  assert (Hl : len (map pos_of (live b)) = Bank.n b).
  { unfold len in *. rewrite length_map. exact Hlen. }
  rewrite Hl, Hlen.
  pose proof (n_pairs_small (Bank.n b) ltac:(lia)) as Hp.
  assert (Hpr : (2 * IZR (n_pairs (Bank.n b)) = IZR (Bank.n b) * (IZR (Bank.n b) - 1))%R).
  { rewrite <- (minus_IZR _ 1), <- !mult_IZR. f_equal. exact Hp. }
  assert (Hn2 : (2 <= IZR (Bank.n b))%R) by (apply IZR_le; lia).
  assert (Hne : IZR (n_pairs (Bank.n b)) <> 0%R) by nra.
  unfold of_int. rewrite ddiv_fin by exact Hne.
  f_equal. rewrite <- Hpr. field. exact Hne.
Qed.

Lemma finite_site (k : Z) : finite_pos (site k).
Proof. unfold finite_pos, site; simpl. repeat split. Qed.

Lemma X4_witness :
  mean_squared_distance (bank_of [site 1; site 2; site 4])
  = Ok (DFin (spec_msd (map pos_of [site 1; site 2; site 4]))).
Proof.
  refine (X4_msd_formula (bank_of [site 1; site 2; site 4])
            (wf_bank_of [site 1; site 2; site 4] eq_refl) _ _).
  - unfold bank_of, len; simpl. lia.
  - repeat constructor.
Defined.

(** Three particles at x = 1, 2 and 4: the squared distances are 1, 9 and
    4, and their mean is 14/3. *)
Example msd_three_sites :
  spec_msd (map pos_of [site 1; site 2; site 4]) = (14 / 3)%R.
Proof.
  unfold spec_msd, len; simpl. field.
Qed.

(** ** The k_eff statistics *)




Lemma calculate_keff_one (k0 : double) (rest : list double) :
  calculate_keff (k0 :: rest) 1 = Ok (k0, DNaN).
Proof.
  unfold calculate_keff, for_range. simpl.
  rewrite dadd_0_l. unfold of_int. rewrite ddiv_one.
  rewrite dadd_0_l.
  destruct (dsub_self_sq k0) as [E|E]; rewrite E.
  + reflexivity.
  + rewrite ddiv_zero_zero; reflexivity.
Qed.

Lemma calculate_keff_zero (ks : list double) :
  calculate_keff ks 0 = Ok (DNaN, DFin 0).
Proof.
  unfold calculate_keff, for_range. simpl.
  unfold of_int. rewrite ddiv_zero_zero by reflexivity.
  rewrite ddiv_fin by (apply not_0_IZR; lia).
  rewrite dsqrt_fin by (simpl; lra).
  do 3 f_equal. rewrite <- sqrt_0 at 2. f_equal. simpl. field.
Qed.



(** Scenario S5: the mean of 1.00, 1.02 and 0.99 is 3.01/3. *)
Example S5_mean : mean_of [1; 102 / 100; 99 / 100]%R = (301 / 300)%R.
Proof. unfold mean_of, Rsum, len; simpl. field. Qed.

(** X3. Called with [n = 0], [calculate_keff] reads no element of [keff]
    and returns normally, with a NaN mean ([0.0/0]) and a zero standard
    deviation ([sqrt(0.0/-1)]). *)
Theorem X3_calculate_keff_no_estimate (ks : list double) :
  calculate_keff ks 0 = Ok (DNaN, DFin 0).
Proof. apply calculate_keff_zero. Qed.

(** ** Shannon entropy *)

Lemma cbrt_cubed (x : R) : (0 < x)%R ->
  (Rpower x (1 / 3) * Rpower x (1 / 3) * Rpower x (1 / 3) = x)%R.
Proof.
  intros Hx.
  assert (Hy : (0 < Rpower x (1 / 3))%R) by (unfold Rpower; apply exp_pos).
  assert (E : Rpower (Rpower x (1 / 3)) (INR 3) = x).
  { rewrite Rpower_mult.
    replace (1 / 3 * INR 3)%R with 1%R by (simpl; field).
    apply Rpower_1. exact Hx. }
  rewrite Rpower_pow in E by exact Hy. simpl in E.
  rewrite <- E at 4. ring.
Qed.

Lemma cube_lt (a b : R) : (0 <= a < b)%R -> (a * a * a < b * b * b)%R.
Proof.
  intros [H0 H1].
  assert (Hsq : (a * a <= b * b)%R) by nra.
  assert (Hb : (0 < b * b)%R) by nra.
  apply Rle_lt_trans with (b * b * a)%R.
  - apply Rmult_le_compat_r; assumption.
  - apply Rmult_lt_compat_l; assumption.
Qed.

Lemma cube_le (a b : R) : (0 <= a <= b)%R -> (a * a * a <= b * b * b)%R.
Proof.
  intros [H0 H1].
  assert (Hsq : (a * a <= b * b)%R) by nra.
  assert (Hb : (0 <= b * b)%R) by nra.
  apply Rle_trans with (b * b * a)%R.
  - apply Rmult_le_compat_r; assumption.
  - apply Rmult_le_compat_l; assumption.
Qed.

Lemma Rpower_one (y : R) : Rpower 1 y = 1%R.
Proof. unfold Rpower. rewrite ln_1, Rmult_0_r. apply exp_0. Qed.

Lemma grid_of_bounds (q : Z) : 1 <= q ->
  let m := Zceil (Rpower (IZR q) (1 / 3)) in
  1 <= m /\ (m - 1) * (m - 1) * (m - 1) < q <= m * m * m.
Proof.
  intros Hq m.
  assert (Hx : (0 < IZR q)%R) by (apply IZR_lt; lia).
  set (y := Rpower (IZR q) (1 / 3)).
  assert (Hy : (0 < y)%R) by (unfold y, Rpower; apply exp_pos).
  assert (Hy3 : (y * y * y = IZR q)%R) by (apply cbrt_cubed; exact Hx).
  pose proof (Zceil_bound y) as [Hlo Hhi].
  change (Zceil y) with m in Hlo, Hhi.
  assert (Hm : 1 <= m).
  { apply Z.lt_pred_le. apply lt_IZR. simpl. lra. }
  split; [exact Hm|]. split.
  - apply lt_IZR. rewrite !mult_IZR, minus_IZR. rewrite <- Hy3.
    apply cube_lt. split; [|lra].
    assert (H1 : (1 <= IZR m)%R) by (apply IZR_le; exact Hm). lra.
  - apply le_IZR. rewrite !mult_IZR, <- Hy3.
    apply cube_le. lra.
Qed.

Lemma grid_size_eq (n : Z) : 20 <= n < ULONG_MOD ->
  grid_size n = Ok (grid_of n).
Proof.
  intros Hn. unfold grid_size, grid_of.
  assert (Hq : 1 <= n / 20) by (apply Z.div_le_lower_bound; lia).
  assert (Hx : (0 < IZR (n / 20))%R) by (apply IZR_lt; lia).
  pose proof (grid_of_bounds (n / 20) Hq) as [Hm [Hlo Hhi]].
  unfold of_int, dcbrt.
  destruct (Rlt_dec (IZR (n / 20)) 0); [lra|].
  destruct (Req_dec_T (IZR (n / 20)) 0); [lra|].
  unfold dceil. apply to_ulong_IZR.
  set (m := Zceil (Rpower (IZR (n / 20)) (1 / 3))) in *.
  assert (n / 20 < ULONG_MOD) by (apply Z.div_lt_upper_bound; lia).
  split; [lia|].
  assert (Hk : m - 1 <= (m - 1) * (m - 1) * (m - 1)).
  { destruct (Z.eq_dec (m - 1) 0) as [E|E]; [rewrite E; lia|].
    assert (1 <= (m - 1) * (m - 1)) by nia. nia. }
  lia.
Qed.

Lemma grid_cells_small (n : Z) : 20 <= n < ULONG_MOD ->
  grid_of n * grid_of n * grid_of n < ULONG_MOD.
Proof.
  intros Hn.
  assert (Hq : 1 <= n / 20) by (apply Z.div_le_lower_bound; lia).
  pose proof (grid_of_bounds (n / 20) Hq) as [Hm [Hlo _]].
  fold (grid_of n) in Hm, Hlo.
  set (m := grid_of n) in *.
  assert (Hq2 : n / 20 < 2 ^ 60).
  { apply Z.div_lt_upper_bound; [lia|]. unfold ULONG_MOD in Hn. lia. }
  assert (Hm2 : m - 1 < 2 ^ 20).
  { destruct (Z_lt_ge_dec (m - 1) (2 ^ 20)) as [H|H]; [exact H | exfalso].
    assert (2 ^ 20 * 2 ^ 20 <= (m - 1) * (m - 1)) by nia.
    assert (2 ^ 20 * 2 ^ 20 * 2 ^ 20 <= (m - 1) * (m - 1) * (m - 1)) by nia.
    lia. }
  assert (m * m <= 2 ^ 20 * 2 ^ 20) by nia.
  assert (m * m * m <= 2 ^ 20 * 2 ^ 20 * 2 ^ 20) by nia.
  unfold ULONG_MOD. lia.
Qed.

Lemma coord_box (lx : R) (m : Z) (a : double) :
  (0 < lx)%R -> 1 <= m < ULONG_MOD -> coord_in lx a ->
  let t := (fin_val a / (lx / IZR m))%R in
  to_ulong (ddiv a (ddiv (DFin lx) (of_int m))) = Ok (Zfloor t)
  /\ 0 <= Zfloor t < m.
Proof.
  intros Hlx Hm [r [-> [Hr0 Hr1]]] t. simpl in t.
  assert (Hmr : (1 <= IZR m)%R) by (apply IZR_le; lia).
  assert (Hd : (0 < lx / IZR m)%R) by (apply Rdiv_lt_0_compat; lra).
  unfold of_int. rewrite ddiv_fin by lra. rewrite ddiv_fin by lra.
  fold t.
  assert (Ht0 : (0 <= t)%R).
  { unfold t. apply Rmult_le_pos; [exact Hr0|].
    left. apply Rinv_0_lt_compat. exact Hd. }
  assert (Ht1 : (t < IZR m)%R).
  { unfold t. apply Rmult_lt_reg_r with (lx / IZR m)%R; [exact Hd|].
    replace (r / (lx / IZR m) * (lx / IZR m))%R with r by (field; lra).
    replace (IZR m * (lx / IZR m))%R with lx by (field; lra).
    exact Hr1. }
  assert (Hf : 0 <= Zfloor t < m).
  { split.
    - apply (Zfloor_lub 0). exact Ht0.
    - apply lt_IZR. pose proof (Zfloor_bound t). lra. }
  split; [|exact Hf].
  unfold to_ulong.
  destruct (Rlt_dec t 0); [lra|].
  replace (0 <=? Zfloor t) with true by (symmetry; apply Z.leb_le; lia).
  replace (Zfloor t <? ULONG_MOD) with true by (symmetry; apply Z.ltb_lt; lia).
  reflexivity.
Qed.

Lemma box_index (m ix iy iz : Z) :
  0 <= ix < m -> 0 <= iy < m -> 0 <= iz < m -> m * m * m < ULONG_MOD ->
  uadd (uadd (umul (umul ix m) m) (umul iy m)) iz = ix * m * m + iy * m + iz
  /\ 0 <= ix * m * m + iy * m + iz < m * m * m.
Proof.
  intros Hx Hy Hz Hm.
  assert (H1 : 0 <= ix * m <= (m - 1) * m) by nia.
  assert (H2 : 0 <= ix * m * m <= (m - 1) * m * m) by nia.
  assert (H3 : 0 <= iy * m <= (m - 1) * m) by nia.
  assert (H4 : (m - 1) * m * m + (m - 1) * m + (m - 1) = m * m * m - 1) by ring.
  assert (H5 : (m - 1) * m <= (m - 1) * m * m) by nia.
  unfold uadd, umul.
  rewrite (wrap64_small (ix * m)) by lia.
  rewrite (wrap64_small (ix * m * m)) by lia.
  rewrite (wrap64_small (iy * m)) by lia.
  rewrite (wrap64_small (ix * m * m + iy * m)) by lia.
  rewrite (wrap64_small (ix * m * m + iy * m + iz)) by lia.
  split; [reflexivity | lia].
Qed.

Lemma tabulate_nth_error (f : Z -> Z) (N k : nat) :
  (k < N)%nat -> nth_error (tabulate f N) k = Some (f (Z.of_nat k)).
Proof.
  intros Hk. unfold tabulate.
  rewrite nth_error_map, nth_error_seq.
  destruct (k <? N)%nat eqn:E; [reflexivity|].
  apply Nat.ltb_ge in E. lia.
Qed.

Lemma tabulate_ext (f g : Z -> Z) (N : nat) :
  (forall c, 0 <= c < Z.of_nat N -> f c = g c) -> tabulate f N = tabulate g N.
Proof.
  intros H. unfold tabulate. apply map_ext_in.
  intros c Hc. apply in_seq in Hc. apply H. lia.
Qed.

Lemma upd_tabulate (f : Z -> Z) (N k : nat) (v : Z) :
  (k < N)%nat ->
  upd (tabulate f N) k v
  = tabulate (fun c => if c =? Z.of_nat k then v else f c) N.
Proof.
  intros Hk. unfold tabulate.
  replace N with (k + S (N - S k))%nat by lia.
  rewrite seq_app. simpl. rewrite !map_app. simpl.
  rewrite Z.eqb_refl.
  pose proof (upd_middle (map (fun c => f (Z.of_nat c)) (seq 0 k))
                (map (fun c => f (Z.of_nat c)) (seq (S k) (N - S k)))
                (f (Z.of_nat k)) v) as Hu.
  rewrite length_map, length_seq in Hu. rewrite Hu.
  f_equal; [|f_equal]; apply map_ext_in; intros c Hc; apply in_seq in Hc;
    (replace (Z.of_nat c =? Z.of_nat k) with false
       by (symmetry; apply Z.eqb_neq; lia)); reflexivity.
Qed.

Lemma box_count_cons m lx ly lz (p : Particle.t) (l : list Particle.t) (c : Z) :
  box_count m lx ly lz (p :: l) c =
  (if box_of m lx ly lz p =? c then 1 else 0) + box_count m lx ly lz l c.
Proof.
  unfold box_count, len. cbn [filter].
  destruct (box_of m lx ly lz p =? c); cbn [List.length]; lia.
Qed.


Lemma box_count_repeat m lx ly lz (p : Particle.t) (k : nat) (c : Z) :
  box_count m lx ly lz (repeat p k) c
  = if box_of m lx ly lz p =? c then Z.of_nat k else 0.
Proof.
  induction k as [|k IH].
  - unfold box_count, len. simpl. destruct (box_of m lx ly lz p =? c); reflexivity.
  - cbn [repeat]. rewrite box_count_cons, IH.
    destruct (box_of m lx ly lz p =? c); lia.
Qed.

Lemma box_count_bounds m lx ly lz (l : list Particle.t) (c : Z) :
  0 <= box_count m lx ly lz l c <= len l.
Proof.
  unfold box_count, len.
  pose proof (filter_length_le (fun p => box_of m lx ly lz p =? c) l). lia.
Qed.

Section CountLoop.

Variables (b : Bank.t) (m : Z) (lx ly lz : R).
Hypothesis lx_pos : (0 < lx)%R.
Hypothesis ly_pos : (0 < ly)%R.
Hypothesis lz_pos : (0 < lz)%R.
Hypothesis m_pos : 1 <= m.
Hypothesis m_small : m * m * m < ULONG_MOD.

Let N := Z.to_nat (m * m * m).
Let dx := ddiv (DFin lx) (of_int m).
Let dy := ddiv (DFin ly) (of_int m).
Let dz := ddiv (DFin lz) (of_int m).

Lemma m_lt_mod : m < ULONG_MOD.
Proof.
  assert (m <= m * m * m) by nia. lia.
Qed.

Lemma count_step (i : Z) (p : Particle.t) (f : Z -> Z) :
  0 <= i -> nth_error (Bank.p b) (Z.to_nat i) = Some p ->
  inside lx ly lz p ->
  (forall c, 0 <= f c < ULONG_MOD - 1) ->
  count_body b m dx dy dz i (tabulate f N) =
  Ok (tabulate (fun c => f c + (if box_of m lx ly lz p =? c then 1 else 0)) N).
Proof.
  intros Hi Hp [Hx [Hy Hz]] Hf.
  pose proof m_lt_mod as Hmm.
  destruct (coord_box lx m _ lx_pos (conj m_pos Hmm) Hx) as [Ex Bx].
  destruct (coord_box ly m _ ly_pos (conj m_pos Hmm) Hy) as [Ey By].
  destruct (coord_box lz m _ lz_pos (conj m_pos Hmm) Hz) as [Ez Bz].
  destruct (box_index m _ _ _ Bx By Bz m_small) as [Ek Bk].
  unfold count_body.
  rewrite (load_nth_error _ i p Hi Hp). simpl.
  unfold dx, dy, dz. rewrite Ex, Ey, Ez. simpl.
  rewrite Ek. fold (box_of m lx ly lz p) in *.
  set (k := box_of m lx ly lz p) in *.
  assert (HkN : (Z.to_nat k < N)%nat) by (unfold N; lia).
  rewrite (load_nth_error _ k (f k)); [|lia|].
  2:{ rewrite tabulate_nth_error by exact HkN. rewrite Z2Nat.id by lia. reflexivity. }
  simpl.
  rewrite store_in_range.
  2:{ unfold len, tabulate. rewrite length_map, length_seq. lia. }
  rewrite upd_tabulate by exact HkN.
  rewrite wrap64_small by (specialize (Hf k); lia).
  f_equal. apply tabulate_ext. intros c Hc.
  rewrite Z2Nat.id by lia. rewrite (Z.eqb_sym k c).
  destruct (c =? k) eqn:E; [apply Z.eqb_eq in E; subst c|]; lia.
Qed.

Lemma count_loop : forall k i f B,
  0 <= i -> i + Z.of_nat k <= len (Bank.p b) ->
  Forall (inside lx ly lz) (firstn k (skipn (Z.to_nat i) (Bank.p b))) ->
  (forall c, 0 <= f c <= B) -> B + Z.of_nat k < ULONG_MOD ->
  for_loop k i (count_body b m dx dy dz) (tabulate f N) =
  Ok (tabulate
        (fun c => f c + box_count m lx ly lz
                          (firstn k (skipn (Z.to_nat i) (Bank.p b))) c) N).
Proof.
  induction k as [|k IH]; intros i f B Hi Hk Hin Hf HB; simpl.
  - f_equal. apply tabulate_ext. intros c _.
    unfold box_count, len. simpl. lia.
  - destruct (nth_error_in_range (Bank.p b) i ltac:(lia)) as [p Hp].
    rewrite (skipn_cons_nth _ _ _ Hp) in Hin |- *.
    cbn [firstn] in Hin |- *.
    inversion Hin as [|? ? Hp_in Hrest]; subst.
    rewrite (count_step i p f Hi Hp Hp_in) by (intros c; specialize (Hf c); lia).
    cbn [bind].
    rewrite (IH (i + 1) _ (B + 1)); try lia.
    + f_equal. apply tabulate_ext. intros c _.
      rewrite box_count_cons.
      replace (Z.to_nat (i + 1)) with (S (Z.to_nat i)) by lia. lia.
    + replace (Z.to_nat (i + 1)) with (S (Z.to_nat i)) by lia. exact Hrest.
    + intros c. specialize (Hf c).
      destruct (box_of m lx ly lz p =? c); lia.
Qed.

End CountLoop.

Lemma entropy_step (n : Z) (c : Z) (H : R) :
  0 < n -> 0 <= c ->
  (if 0 <? c
   then Ok (dsub (DFin H)
              (dmul (ddiv (of_int c) (of_int n))
                    (dlog2 (ddiv (of_int c) (of_int n)))))
   else Ok (DFin H))
  = Ok (DFin (H - entropy_term n c)).
Proof.
  intros Hn Hc. unfold entropy_term.
  destruct (0 <? c) eqn:E.
  - apply Z.ltb_lt in E.
    assert (Hnr : (0 < IZR n)%R) by (apply IZR_lt; lia).
    assert (Hcr : (0 < IZR c)%R) by (apply IZR_lt; lia).
    unfold of_int. rewrite ddiv_fin by lra.
    rewrite dlog2_fin by (apply Rdiv_lt_0_compat; assumption).
    reflexivity.
  - f_equal. f_equal. lra.
Qed.

Lemma entropy_loop (n : Z) (g : Z -> Z) (N : nat) :
  0 < n -> (forall c, 0 <= g c) ->
  forall k i H, (i + k <= N)%nat ->
  for_loop k (Z.of_nat i) (entropy_body n (tabulate g N)) (DFin H) =
  Ok (DFin (H - Rsum (map (fun c => entropy_term n (g (Z.of_nat c))) (seq i k)))).
Proof.
  intros Hn Hg. induction k as [|k IH]; intros i H Hk; simpl.
  - f_equal. f_equal. lra.
  - unfold entropy_body at 1.
    rewrite (load_nth_error _ (Z.of_nat i) (g (Z.of_nat i))); [|lia|].
    2:{ rewrite Nat2Z.id. apply tabulate_nth_error. lia. }
    cbn [bind].
    rewrite (entropy_step n (g (Z.of_nat i)) H Hn (Hg _)).
    cbn [bind].
    replace (Z.of_nat i + 1) with (Z.of_nat (S i)) by lia.
    rewrite IH by lia.
    f_equal. f_equal. lra.
Qed.

(** In exact arithmetic a position inside the box has a grid box: the value
    of [shannon_entropy] on such a bank is that of the entropy formula on
    the grid of the code. *)
Lemma shannon_entropy_grid (geometry : Geometry) (b : Bank.t) (lx ly lz : R) :
  wf_bank b -> 20 <= Bank.n b ->
  Lx geometry = DFin lx -> Ly geometry = DFin ly -> Lz geometry = DFin lz ->
  (0 < lx)%R -> (0 < ly)%R -> (0 < lz)%R ->
  Forall (inside lx ly lz) (live b) ->
  let q := Bank.n b / 20 in
  let m := grid_of (Bank.n b) in
  grid_size (Bank.n b) = Ok m
  /\ (m - 1) * (m - 1) * (m - 1) < q <= m * m * m
  /\ shannon_entropy geometry b = Ok (DFin (entropy_of m lx ly lz (live b))).
Proof.
  intros [Hn [Hsz Hmod]] H20 Ex Ey Ez Hlx Hly Hlz Hin q m.
  assert (Hnm : 20 <= Bank.n b < ULONG_MOD) by lia.
  assert (Hq : 1 <= q) by (apply Z.div_le_lower_bound; lia).
  pose proof (grid_of_bounds q Hq) as [Hm [Hlo Hhi]].
  change (Zceil (Rpower (IZR q) (1 / 3))) with m in Hm, Hlo, Hhi.
  pose proof (grid_cells_small _ Hnm) as Hcells. fold m in Hcells.
  split; [apply grid_size_eq; exact Hnm|].
  split; [exact (conj Hlo Hhi)|].
  unfold shannon_entropy.
  rewrite (grid_size_eq _ Hnm). fold m. cbn [bind].
  rewrite Ex, Ey, Ez.
  assert (Hc1 : umul (umul m m) m = m * m * m).
  { unfold umul. rewrite (wrap64_small (m * m)) by nia.
    apply wrap64_small. nia. }
  rewrite Hc1. unfold for_range. rewrite !Z.sub_0_r.
  set (N := Z.to_nat (m * m * m)).
  assert (Hrep : repeat 0 N = tabulate (fun _ => 0) N).
  { unfold tabulate. clear. generalize 0%nat.
    induction N as [|N IH]; intros s; simpl; [reflexivity|].
    f_equal. apply IH. }
  rewrite Hrep.
  rewrite (count_loop b m lx ly lz Hlx Hly Hlz Hm Hcells _ 0 (fun _ => 0) 0);
    try lia.
  2:{ exact Hin. }
  cbn [bind]. simpl (Z.to_nat 0). rewrite skipn_O. fold (live b).
  change 0 with (Z.of_nat 0) at 1.
  rewrite (entropy_loop (Bank.n b)); try lia.
  2:{ intros c. pose proof (box_count_bounds m lx ly lz (live b) c). lia. }
  f_equal. f_equal. unfold entropy_of.
  rewrite live_length by lia.
  fold N. rewrite Rminus_0_l. reflexivity.
Qed.

(** *** Thirty particles in the unit box *)

Lemma Zfloor_quarter_1 : Zfloor (1 / 4 / (1 / IZR 1)) = 0.
Proof. apply Zfloor_eq. simpl. lra. Qed.




Lemma box_of_west_1 : box_of 1 1 1 1 west = 0.
Proof. unfold box_of, west, at_pos; simpl. rewrite Zfloor_quarter_1. reflexivity. Qed.






Lemma inside_west : inside 1 1 1 west.
Proof.
  unfold inside, west, at_pos, coord_in; simpl.
  repeat split; eexists; (split; [reflexivity | lra]).
Qed.








(** X1. For a bank of fewer than twenty particles the grid has no box
    ([b->n/20] is 0) and the first particle is counted outside the empty
    array of counters: the behaviour of [shannon_entropy] is undefined. *)
Theorem X1_shannon_entropy_small_bank (geometry : Geometry) (b : Bank.t)
    (lx ly lz : R) (p : Particle.t) :
  0 < Bank.n b < 20 ->
  Lx geometry = DFin lx -> Ly geometry = DFin ly -> Lz geometry = DFin lz ->
  (0 < lx)%R -> (0 < ly)%R -> (0 < lz)%R ->
  nth_error (Bank.p b) 0 = Some p -> inside lx ly lz p ->
  grid_size (Bank.n b) = Ok 0 /\ shannon_entropy geometry b = Undefined.
Proof.
  intros Hn Ex Ey Ez Hlx Hly Hlz Hp [[x [Hx _]] [[y [Hy _]] [z [Hz _]]]].
  assert (Hq : Bank.n b / 20 = 0) by (apply Z.div_small; lia).
  assert (Hg : grid_size (Bank.n b) = Ok 0).
  { unfold grid_size. rewrite Hq. unfold of_int, dcbrt.
    destruct (Rlt_dec 0 0); [lra|].
    destruct (Req_dec_T 0 0); [|lra].
    unfold dceil. replace (Zceil 0) with 0 by (symmetry; apply Zceil_eq; simpl; lra).
    apply to_ulong_IZR. unfold ULONG_MOD. lia. }
  split; [exact Hg|].
  unfold shannon_entropy. rewrite Hg. cbn [bind].
  unfold for_range. rewrite Z.sub_0_r.
  destruct (Z.to_nat (Bank.n b)) as [|k] eqn:Ek; [lia|].
  cbn [for_loop]. unfold count_body at 1.
  rewrite (load_nth_error _ 0 p); [|lia|exact Hp]. cbn [bind].
  rewrite Ex, Ey, Ez, Hx, Hy, Hz.
  assert (Hinf : forall l c : R, (0 < l)%R ->
            to_ulong (ddiv (DFin c) (ddiv (DFin l) (of_int 0))) = Ok 0).
  { intros l c Hl. unfold of_int, ddiv.
    destruct (Req_dec_T 0 0); [|lra].
    destruct (Req_dec_T l 0); [lra|].
    apply (to_ulong_IZR 0). unfold ULONG_MOD. lia. }
  rewrite !Hinf by assumption. cbn [bind].
  reflexivity.
Qed.

Lemma X1_witness :
  grid_size 4 = Ok 0
  /\ shannon_entropy unit_box (bank_of [west; west; west; west]) = Undefined.
Proof.
  refine (X1_shannon_entropy_small_bank unit_box
            (bank_of [west; west; west; west]) 1 1 1 west _
            eq_refl eq_refl eq_refl Rlt_0_1 Rlt_0_1 Rlt_0_1 eq_refl inside_west).
  unfold bank_of, len; simpl. lia.
Defined.

(** ** The driver *)

Section DriverFacts.

Variable rng : Type.
Variable rni : Z -> Z -> rng -> Z * rng.
Variable transport :
  Parameters -> Geometry -> Z -> Bank.t -> Particle.t ->
  Bank.t * Tally -> outcome (Bank.t * Tally).
Variable parameters : Parameters.
Variable geometry : Geometry.

Local Abbreviation generation := (generation rng rni transport parameters geometry).
Local Abbreviation batch_begin := (batch_begin rng parameters).
Local Abbreviation batch_end := (batch_end rng parameters).
Local Abbreviation batch := (batch rng rni transport parameters geometry).
Local Abbreviation run_eigenvalue :=
  (run_eigenvalue rng rni transport parameters geometry).
Local Abbreviation generation_ends :=
  (generation_ends rng rni transport parameters geometry).
Local Abbreviation population_ok := (population_ok rng parameters).
Local Abbreviation source_full := (source_full rng parameters).
Local Abbreviation stored_estimates := (stored_estimates parameters).

Lemma calls_app (o1 o2 : list event) :
  calculate_keff_calls (o1 ++ o2) = calculate_keff_calls o1 ++ calculate_keff_calls o2.
Proof.
  induction o1 as [|e o1 IH]; simpl; [reflexivity|].
  destruct e; simpl; rewrite IH; reflexivity.
Qed.

Lemma calls_emit (flag : bool) (e : event) (o : list event) :
  (forall n, e <> CalculateKeff n) ->
  calculate_keff_calls (emit flag e o) = calculate_keff_calls o.
Proof.
  intros He. unfold emit. destruct flag; [|reflexivity].
  rewrite calls_app. destruct e; simpl; try apply app_nil_r.
  exfalso. exact (He n eq_refl).
Qed.

Lemma generation_effect (i_b i_g : Z) (s s' : Sim rng) :
  generation i_b i_g s = Ok s' ->
  Bank.n (fission_bank s') = 0
  /\ Bank.n (source_bank s') = Bank.n (source_bank s)
  /\ i_a s' = i_a s
  /\ calculate_keff_calls (out s') = calculate_keff_calls (out s).
Proof.
  unfold generation. intros Hrun.
  apply bind_Ok in Hrun. destruct Hrun as [[fb tl] [_ Hrun]].
  apply bind_Ok in Hrun. destruct Hrun as [[[sb fb'] g] [Hsync Hrun]].
  apply bind_Ok in Hrun. destruct Hrun as [h [_ Hrun]].
  apply bind_Ok in Hrun. destruct Hrun as [o2 [Ho2 Hrun]].
  inversion Hrun; subst; clear Hrun. simpl.
  destruct (synchronize_bank_counts rng rni _ _ _ _ _ _ Hsync) as [Hf [Hs _]].
  repeat split; try assumption.
  rewrite calls_emit by (intros n; discriminate).
  destruct (write_msd parameters).
  - apply bind_Ok in Ho2. destruct Ho2 as [msd [_ Ho2]].
    inversion Ho2; subst. rewrite calls_app. simpl. rewrite app_nil_r.
    apply calls_emit. intros n; discriminate.
  - inversion Ho2; subst. apply calls_emit. intros n; discriminate.
Qed.

Lemma batch_end_effect (i_b : Z) (s s' : Sim rng) :
  batch_end i_b s = Ok s' ->
  source_bank s' = source_bank s /\ fission_bank s' = fission_bank s
  /\ i_a s' = i_a s
  /\ calculate_keff_calls (out s') = calculate_keff_calls (out s) ++ [i_a s + 1].
Proof.
  unfold batch_end. intros Hrun.
  apply bind_Ok in Hrun. destruct Hrun as [ks [_ Hrun]].
  apply bind_Ok in Hrun. destruct Hrun as [[m sd] [_ Hrun]].
  inversion Hrun; subst; clear Hrun. simpl.
  repeat split.
  rewrite !calls_app. simpl. rewrite app_nil_r. f_equal.
  destruct (tallies_on (sim_tally s)); [|reflexivity].
  apply calls_emit. intros n; discriminate.
Qed.



Lemma generations_keep_source_full (i_b : Z) (k : nat) (i : Z) (s s' : Sim rng) :
  source_full s -> for_loop k i (generation i_b) s = Ok s' -> source_full s'.
Proof.
  apply for_loop_invariant. intros j t t' Ht Hrun.
  destruct (generation_effect i_b j t t' Hrun) as [_ [Hn _]].
  unfold source_full in *. congruence.
Qed.

Lemma batch_keeps_source_full (i_b : Z) (s s' : Sim rng) :
  source_full s -> batch i_b s = Ok s' -> source_full s'.
Proof.
  unfold batch, for_range. intros Hs Hrun.
  apply bind_Ok in Hrun. destruct Hrun as [s1 [Hgen Hend]].
  apply generations_keep_source_full in Hgen; [|exact Hs].
  destruct (batch_end_effect i_b s1 s' Hend) as [Hsrc _].
  unfold source_full in *. rewrite Hsrc. exact Hgen.
Qed.

Lemma generation_ends_ok (k : nat) : forall i_b s,
  source_full s -> Forall population_ok (generation_ends k i_b s).
Proof.
  induction k as [|k IH]; intros i_b s Hs; simpl; [constructor|].
  apply Forall_app. split.
  - unfold generation_ends_of_batch.
    apply (loop_states_invariant source_full population_ok); [|exact Hs].
    intros j t t' Ht Hrun.
    destruct (generation_effect i_b j t t' Hrun) as [Hf [Hn _]].
    unfold source_full, population_ok in *. repeat split; congruence.
  -     destruct (batch i_b s) as [s1| |] eqn:E; try constructor.
    apply IH. apply (batch_keeps_source_full i_b s s1 Hs E).
Qed.


Lemma batch_begin_i_a (i_b : Z) (s : Sim rng) :
  0 <= i_b ->
  i_a s + 1 = Z.max 0 (i_b - Z.max 0 (n_batches parameters - n_active parameters)) ->
  i_a (batch_begin i_b s) + 1 = stored_estimates i_b.
Proof.
  intros Hb Hia. unfold batch_begin, stored_estimates. simpl.
  destruct (n_batches parameters - n_active parameters <=? i_b) eqn:E.
  - apply Z.leb_le in E. lia.
  - apply Z.leb_gt in E. lia.
Qed.

Lemma batch_calls (i_b : Z) (s s' : Sim rng) :
  0 <= i_b ->
  i_a s + 1 = Z.max 0 (i_b - Z.max 0 (n_batches parameters - n_active parameters)) ->
  batch i_b s = Ok s' ->
  i_a s' + 1 = stored_estimates i_b
  /\ calculate_keff_calls (out s')
     = calculate_keff_calls (out s) ++ [stored_estimates i_b].
Proof.
  intros Hb Hia Hrun.
  unfold batch, for_range in Hrun.
  apply bind_Ok in Hrun. destruct Hrun as [s1 [Hgen Hend]].
  pose proof (batch_begin_i_a i_b s Hb Hia) as Hbegin.
  assert (Hinv : i_a s1 = i_a (batch_begin i_b s)
                 /\ calculate_keff_calls (out s1) = calculate_keff_calls (out s)).
  { revert Hgen.
    apply (for_loop_invariant
             (fun t => i_a t = i_a (batch_begin i_b s)
                       /\ calculate_keff_calls (out t) = calculate_keff_calls (out s))).
    - intros j t t' [Ht1 Ht2] Hg.
      destruct (generation_effect i_b j t t' Hg) as [_ [_ [Hi Hc]]].
      split; congruence.
    - split; [reflexivity|].
      unfold batch_begin. simpl.
      apply calls_emit. intros n; discriminate. }
  destruct Hinv as [Hi1 Hc1].
  destruct (batch_end_effect i_b s1 s' Hend) as [_ [_ [Hi2 Hc2]]].
  rewrite Hi2, Hc2, Hc1, Hi1, Hbegin. split; reflexivity.
Qed.

Lemma batches_calls (k : nat) : forall i_b s s',
  0 <= i_b ->
  i_a s + 1 = Z.max 0 (i_b - Z.max 0 (n_batches parameters - n_active parameters)) ->
  for_loop k i_b batch s = Ok s' ->
  calculate_keff_calls (out s')
  = calculate_keff_calls (out s) ++ map stored_estimates (zseq i_b k).
Proof.
  induction k as [|k IH]; intros i_b s s' Hb Hia Hrun; simpl in *.
  - inversion Hrun; subst. symmetry. apply app_nil_r.
  - apply bind_Ok in Hrun. destruct Hrun as [s1 [H1 H2]].
    destruct (batch_calls i_b s s1 Hb Hia H1) as [Hi Hc].
    rewrite (IH (i_b + 1) s1 s') ; [| lia | | exact H2].
    + rewrite Hc, <- app_assoc. reflexivity.
    + rewrite Hi. unfold stored_estimates.
      reflexivity.
Qed.

Lemma run_eigenvalue_calls source tl ks fission g (s' : Sim rng) :
  run_eigenvalue source tl ks fission g = Ok s' ->
  calculate_keff_calls (out s')
  = map stored_estimates (zseq 0 (Z.to_nat (n_batches parameters))).
Proof.
  unfold run_eigenvalue, for_range. intros Hrun.
  apply bind_Ok in Hrun. destruct Hrun as [s1 [Hloop Hrun]].
  inversion Hrun; subst; clear Hrun. simpl.
  rewrite Z.sub_0_r in Hloop.
  apply batches_calls in Hloop; [|lia|simpl; lia].
  simpl in Hloop.
  rewrite !calls_emit by (intros n; discriminate).
  exact Hloop.
Qed.

Lemma stored_estimates_positive (i_b : Z) :
  0 <= i_b ->
  (1 <= stored_estimates i_b <-> n_batches parameters - n_active parameters <= i_b).
Proof. unfold stored_estimates. lia. Qed.

End DriverFacts.

(** C3. At the end of every generation of every batch of the driver the
    fission bank is empty and the source bank holds [N] particles:
    [synchronize_bank] sets [fission_bank.n] to 0 and never changes
    [source_bank.n], and nothing else in a generation or between two
    generations changes either count. *)
Theorem C3_population_conservation (rng : Type)
    (rni : Z -> Z -> rng -> Z * rng)
    (transport : Parameters -> Geometry -> Z -> Bank.t -> Particle.t ->
                 Bank.t * Tally -> outcome (Bank.t * Tally))
    (parameters : Parameters) (geometry : Geometry)
    (source : Bank.t) (tl : Tally) (ks : list double) (fission : Bank.t)
    (g : rng) :
  Bank.n source = n_particles parameters ->
  (forall sb fb g0 sb' fb' g',
     synchronize_bank rng rni sb fb g0 = Ok (sb', fb', g') ->
     Bank.n fb' = 0 /\ Bank.n sb' = Bank.n sb)
  /\ Forall (population_ok rng parameters)
       (generation_ends rng rni transport parameters geometry
          (Z.to_nat (n_batches parameters)) 0
          (mkSim rng source fission tl g ks (-1) (DFin 0) (DFin 0) [])).
Proof.
  intros Hn. split.
  - intros sb fb g0 sb' fb' g' Hs.
    destruct (synchronize_bank_counts rng rni _ _ _ _ _ _ Hs) as [Hf [Hc _]].
    split; assumption.
  - apply generation_ends_ok. exact Hn.
Qed.

(** C6 (as the code has it). [run_eigenvalue] calls [calculate_keff] once at
    the end of every batch, with [n = i_a + 1], the number of active-batch
    estimates stored so far: [n >= 1] exactly for the active batches
    ([i_b >= n_batches - n_active]) and [n = 0] for every inactive batch. *)
Theorem C6_calculate_keff_calls (rng : Type)
    (rni : Z -> Z -> rng -> Z * rng)
    (transport : Parameters -> Geometry -> Z -> Bank.t -> Particle.t ->
                 Bank.t * Tally -> outcome (Bank.t * Tally))
    (parameters : Parameters) (geometry : Geometry)
    (source : Bank.t) (tl : Tally) (ks : list double) (fission : Bank.t)
    (g : rng) (s' : Sim rng) :
  run_eigenvalue rng rni transport parameters geometry source tl ks fission g
    = Ok s' ->
  calculate_keff_calls (out s')
    = map (stored_estimates parameters) (zseq 0 (Z.to_nat (n_batches parameters)))
  /\ (forall i_b, 0 <= i_b ->
        (1 <= stored_estimates parameters i_b
         <-> n_batches parameters - n_active parameters <= i_b))
  /\ (forall i_b, 0 <= i_b < n_batches parameters - n_active parameters ->
        stored_estimates parameters i_b = 0).
Proof.
  intros Hrun. split; [|split].
  - exact (run_eigenvalue_calls rng rni transport parameters geometry
             source tl ks fission g s' Hrun).
  - intros i_b Hb. apply stored_estimates_positive. exact Hb.
  - intros i_b Hb. unfold stored_estimates. lia.
Qed.


(** ** The worked run *)

Arguments calculate_keff : simpl never.

Arguments shannon_entropy : simpl never.

Arguments mean_squared_distance : simpl never.

Arguments synchronize_bank : simpl never.



Lemma inside_demo_offspring :
  Forall (inside 1 1 1) (live (Bank.mk (repeat west 20) 20 20)).
Proof.
  change (live (Bank.mk (repeat west 20) 20 20)) with (repeat west 20).
  apply Forall_forall. intros p Hp. apply repeat_spec in Hp. subst p.
  apply inside_west.
Qed.

Lemma demo_transport_loop (i_b i_g : Z) (fb : Bank.t) (tl : Tally) :
  fb = Bank.mk [] 0 0 \/ fb = demo_fission ->
  for_range 0 (n_particles demo_parameters)
    (transport_body echo_transport demo_parameters unit_box i_b i_g demo_source)
    (fb, tl)
  = Ok (Bank.mk (repeat west 20) 20 20, tl).
Proof.
  intros [-> | ->]; reflexivity.
Qed.

Lemma demo_synchronize (g : tape) :
  synchronize_bank tape tape_rni demo_source (Bank.mk (repeat west 20) 20 20) g
  = Ok (demo_source, demo_fission, g).
Proof. reflexivity. Qed.

Lemma grid_of_20 : grid_of 20 = 1.
Proof.
  unfold grid_of. change (20 / 20) with 1.
  rewrite Rpower_one. apply Zceil_eq. simpl. lra.
Qed.

Lemma demo_entropy : shannon_entropy unit_box demo_source = Ok (DFin 0).
Proof.
  assert (Hwf : wf_bank demo_source)
    by (unfold wf_bank, demo_source, len, ULONG_MOD; simpl; lia).
  assert (Hin : Forall (inside 1 1 1) (live demo_source)).
  { change (live demo_source) with (repeat west 20).
    apply Forall_forall. intros p Hp. apply repeat_spec in Hp. subst p.
    apply inside_west. }
  destruct (shannon_entropy_grid unit_box demo_source 1 1 1 Hwf
              ltac:(simpl; lia) eq_refl eq_refl eq_refl
              ltac:(lra) ltac:(lra) ltac:(lra) Hin) as [_ [_ Hs]].
  rewrite Hs. f_equal. f_equal.
  change (Bank.n demo_source) with 20. rewrite grid_of_20.
  unfold entropy_of.
  change (live demo_source) with (repeat west 20).
  change (Z.to_nat (1 * 1 * 1)) with 1%nat. cbn [seq map Rsum fold_right].
  rewrite box_count_repeat, box_of_west_1.
  change (len (repeat west 20)) with 20.
  simpl. unfold entropy_term. simpl.
  replace (20 / 20)%R with 1%R by field. rewrite ln_1. lra.
Qed.

Lemma demo_keff_gen : ddiv (of_int 20) (of_int 20) = DFin 1.
Proof.
  unfold of_int. rewrite ddiv_fin by lra. f_equal. field.
Qed.

Lemma demo_generation (i_b i_g : Z) (s : Sim tape) :
  source_bank s = demo_source ->
  fission_bank s = Bank.mk [] 0 0 \/ fission_bank s = demo_fission ->
  generation tape tape_rni echo_transport demo_parameters unit_box i_b i_g s
  = Ok (mkSim tape demo_source demo_fission (sim_tally s) (other_stream s)
          (keff s) (i_a s) (dadd (keff_batch s) (DFin 1)) (DFin 0) (out s)).
Proof.
  intros Hsrc Hfis. unfold generation. rewrite Hsrc.
  rewrite (demo_transport_loop i_b i_g _ _ Hfis). cbn [bind].
  rewrite demo_synchronize. cbn [bind].
  rewrite demo_entropy. cbn [bind].
  change (Bank.n (Bank.mk (repeat west 20) 20 20)) with 20.
  change (Bank.n demo_source) with 20.
  rewrite demo_keff_gen. reflexivity.
Qed.

Lemma demo_batch_0 :
  batch tape tape_rni echo_transport demo_parameters unit_box 0
    (demo_state (Bank.mk [] 0 0) [DFin 0] (-1) (DFin 0) (DFin 0) [])
  = Ok (demo_state demo_fission [DFin 0] (-1) (DFin 1) (DFin 0)
          [CalculateKeff 0; Status 1 (DFin 0) (DFin 1) None]).
Proof.
  unfold batch, for_range.
  change (Z.to_nat (n_generations demo_parameters - 0)) with 1%nat.
  cbn [for_loop].
  rewrite demo_generation; [|reflexivity|left; reflexivity].
  cbn [bind]. unfold batch_end, batch_begin. simpl.
  rewrite dadd_0_l. 
  change (of_int 1) with (DFin 1). rewrite ddiv_one.
  reflexivity.
Qed.

Lemma demo_batch_1 (o : list event) :
  batch tape tape_rni echo_transport demo_parameters unit_box 1
    (demo_state demo_fission [DFin 0] (-1) (DFin 1) (DFin 0) o)
  = Ok (demo_state demo_fission [DFin 1] 0 (DFin 1) (DFin 0)
          (o ++ [CalculateKeff 1]
             ++ [Status 2 (DFin 0) (DFin 1) (Some (DFin 1, DNaN))])).
Proof.
  unfold batch, for_range.
  change (Z.to_nat (n_generations demo_parameters - 0)) with 1%nat.
  cbn [for_loop].
  rewrite demo_generation; [|reflexivity|right; reflexivity].
  cbn [bind]. unfold batch_end, batch_begin. simpl.
  rewrite dadd_0_l.
  change (of_int 1) with (DFin 1). rewrite ddiv_one.
  pose proof (calculate_keff_one (DFin 1) []) as Hk.
  unfold calculate_keff, for_range in Hk. simpl in Hk.
  change (of_int 1) with (DFin 1) in Hk.
  injection Hk as Hm Hs. rewrite Hs, Hm.
  rewrite <- app_assoc. reflexivity.
Qed.

Lemma demo_run_result :
  demo_run
  = Ok (demo_state demo_fission [DFin 1] 0 (DFin 1) (DFin 0)
          [CalculateKeff 0; Status 1 (DFin 0) (DFin 1) None;
           CalculateKeff 1; Status 2 (DFin 0) (DFin 1) (Some (DFin 1, DNaN))]).
Proof.
  unfold demo_run, run_eigenvalue, for_range.
  change (Z.to_nat (n_batches demo_parameters - 0)) with 2%nat.
  cbn [for_loop].
  fold (demo_state (Bank.mk [] 0 0) [DFin 0] (-1) (DFin 0) (DFin 0) []).
  rewrite demo_batch_0. cbn [bind]. 
  change (0 + 1) with 1.
  rewrite demo_batch_1. reflexivity.
Qed.

(** The worked run passes through two generations. *)
Example demo_generation_ends_eq :
  demo_generation_ends
  = [demo_state demo_fission [DFin 0] (-1) (DFin 1) (DFin 0) [];
     demo_state demo_fission [DFin 0] 0 (DFin 1) (DFin 0)
       [CalculateKeff 0; Status 1 (DFin 0) (DFin 1) None]].
Proof.
  unfold demo_generation_ends.
  change (Z.to_nat (n_batches demo_parameters)) with 2%nat.
  cbn [generation_ends].
  fold (demo_state (Bank.mk [] 0 0) [DFin 0] (-1) (DFin 0) (DFin 0) []).
  rewrite demo_batch_0. change (0 + 1) with 1.
  rewrite demo_batch_1.
  unfold generation_ends_of_batch.
  change (Z.to_nat (n_generations demo_parameters)) with 1%nat.
  cbn [loop_states].
  rewrite !demo_generation;
    try reflexivity; try (left; reflexivity); try (right; reflexivity).
  unfold batch_begin, demo_state. simpl.
  rewrite !dadd_0_l. reflexivity.
Qed.

Lemma C3_witness :
  (forall sb fb g0 sb' fb' g',
     synchronize_bank tape tape_rni sb fb g0 = Ok (sb', fb', g') ->
     Bank.n fb' = 0 /\ Bank.n sb' = Bank.n sb)
  /\ Forall (population_ok tape demo_parameters) demo_generation_ends.
Proof.
  exact (C3_population_conservation tape tape_rni echo_transport
           demo_parameters unit_box demo_source demo_tally [DFin 0]
           (Bank.mk [] 0 0) [] eq_refl).
Defined.

Lemma C6_witness :
  calculate_keff_calls
    [CalculateKeff 0; Status 1 (DFin 0) (DFin 1) None;
     CalculateKeff 1; Status 2 (DFin 0) (DFin 1) (Some (DFin 1, DNaN))]
    = map (stored_estimates demo_parameters) (zseq 0 2)
  /\ (forall i_b, 0 <= i_b ->
        (1 <= stored_estimates demo_parameters i_b <-> 2 - 1 <= i_b))
  /\ (forall i_b, 0 <= i_b < 2 - 1 -> stored_estimates demo_parameters i_b = 0).
Proof.
  exact (C6_calculate_keff_calls tape tape_rni echo_transport demo_parameters
           unit_box demo_source demo_tally [DFin 0] (Bank.mk [] 0 0) [] _
           demo_run_result).
Defined.

(** In the worked run (two batches, the last one active) the first call of
    [calculate_keff] has [n = 0]. *)
Lemma C6_counterexample :
  exists s, demo_run = Ok s /\ calculate_keff_calls (out s) = [0; 1].
Proof.
  eexists. split; [exact demo_run_result | reflexivity].
Qed.

(** X2. Scenario S1 at twenty particles: when every particle has exactly
    one offspring the driver runs to completion and the stored estimate is
    [keff = 1.0] exactly. *)
Theorem X2_pass_through_keff :
  exists s, demo_run = Ok s /\ keff s = [DFin 1] /\ keff_batch s = DFin 1.
Proof.
  eexists. split; [exact demo_run_result|]. split; reflexivity.
Qed.

(** * Further properties of eigenvalue.c *)

(** ** The extent of the [keff] array that [calculate_keff] reads *)

Lemma for_loop_app {St : Type} (body : Z -> St -> outcome St) (k1 k2 : nat) :
  forall i s,
  for_loop (k1 + k2) i body s
  = (s' <- for_loop k1 i body s ;; for_loop k2 (i + Z.of_nat k1) body s').
Proof.
  induction k1 as [|k1 IH]; intros i s.
  - simpl. now rewrite Z.add_0_r.
  - cbn [Nat.add for_loop].
    destruct (body i s) as [s1| |]; try reflexivity.
    cbn [bind]. rewrite IH.
    replace (i + 1 + Z.of_nat k1) with (i + Z.of_nat (S k1)) by lia.
    reflexivity.
Qed.

Lemma load_past_end {A : Type} (a : list A) (i : Z) :
  len a <= i -> load a i = Undefined.
Proof.
  intros H. unfold load. pose proof (len_nonneg a).
  destruct (Z.leb_spec 0 i); [|lia].
  destruct (nth_error a (Z.to_nat i)) eqn:E; [|reflexivity].
  assert (Hn : nth_error a (Z.to_nat i) <> None) by congruence.
  apply nth_error_Some in Hn. unfold len in H. lia.
Qed.

Lemma for_loop_load_past_end {A St : Type} (a : list A) (f : St -> A -> St)
    (n : Z) (acc : St) :
  len a < n ->
  for_range 0 n (fun i s => x <- load a i ;; Ok (f s x)) acc = Undefined.
Proof.
  intros Hn. unfold for_range. rewrite Z.sub_0_r.
  pose proof (len_nonneg a).
  replace (Z.to_nat n) with (List.length a + S (Z.to_nat (n - len a - 1)))%nat
    by (unfold len in *; lia).
  rewrite for_loop_app.
  rewrite for_loop_fold by (unfold len; lia).
  cbn [bind for_loop]. rewrite load_past_end by (unfold len; lia).
  reflexivity.
Qed.

Lemma for_loop_load_prefix {A St : Type} (a : list A) (f : St -> A -> St)
    (n : Z) (acc : St) :
  n <= len a ->
  for_range 0 n (fun i s => x <- load a i ;; Ok (f s x)) acc
  = Ok (fold_left f (firstn (Z.to_nat n) a) acc).
Proof.
  intros Hn. unfold for_range. rewrite Z.sub_0_r.
  pose proof (len_nonneg a).
  rewrite for_loop_fold by lia. reflexivity.
Qed.

Lemma calculate_keff_prefix (ks : list double) (n : Z) :
  n <= len ks ->
  calculate_keff ks n
  = (let l := firstn (Z.to_nat n) ks in
     let mean := ddiv (fold_left dadd l (DFin 0)) (of_int n) in
     Ok (mean,
         dsqrt (ddiv (fold_left (fun s k => dadd s (dpow2 (dsub k mean))) l (DFin 0))
                     (of_int (n - 1))))).
Proof.
  intros Hn. unfold calculate_keff.
  rewrite (for_loop_load_prefix ks dadd) by exact Hn. cbn [bind].
  rewrite (for_loop_load_prefix ks
             (fun s k => dadd s (dpow2 (dsub k
                (ddiv (fold_left dadd (firstn (Z.to_nat n) ks) (DFin 0)) (of_int n))))))
    by exact Hn.
  reflexivity.
Qed.

(** X8. calculate_keff reads [keff[0 .. n)] and nothing else: with [n] at most
    the length of the array it returns, whatever the values, and the result
    is that for any other array with the same first [n] entries; with [n]
    beyond the length it reads outside the array. *)
Theorem X8_calculate_keff_extent (ks : list double) (n : Z) :
  (n <= len ks ->
   exists r, calculate_keff ks n = Ok r
     /\ forall ks', n <= len ks' ->
          firstn (Z.to_nat n) ks' = firstn (Z.to_nat n) ks ->
          calculate_keff ks' n = Ok r)
  /\ (len ks < n -> calculate_keff ks n = Undefined).
Proof.
  split.
  - intros Hn. eexists. split; [apply calculate_keff_prefix; exact Hn|].
    intros ks' Hn' Hf. rewrite calculate_keff_prefix by exact Hn'.
    cbv zeta. rewrite Hf. reflexivity.
  - intros Hn. unfold calculate_keff.
    rewrite (for_loop_load_past_end ks dadd) by exact Hn. reflexivity.
Qed.

(** ** The positions in the random-number sequence *)

(** X9. run_eigenvalue: within a run that stays clear of integer overflow, the
    position handed to [rn_skip] for particle [i_p] of generation [i_g] of
    batch [i_b] is [(i_b * n_generations + i_g) * n_particles + i_p]: the
    histories of the run take the positions [0, 1, 2, ...] below
    [n_batches * n_generations * n_particles] in order, and no two histories
    share a position. *)
Theorem X9_skip_positions (parameters : Parameters)
    (i_b i_g i_p j_b j_g j_p : Z) :
  n_batches parameters * n_generations parameters < 2 ^ 31 ->
  n_batches parameters * n_generations parameters * n_particles parameters
    < ULONG_MOD ->
  0 <= i_b < n_batches parameters -> 0 <= i_g < n_generations parameters ->
  0 <= i_p < n_particles parameters ->
  0 <= j_b < n_batches parameters -> 0 <= j_g < n_generations parameters ->
  0 <= j_p < n_particles parameters ->
  skip_position parameters i_b i_g i_p
    = (i_b * n_generations parameters + i_g) * n_particles parameters + i_p
  /\ skip_position parameters i_b i_g i_p
     < n_batches parameters * n_generations parameters * n_particles parameters
  /\ (skip_position parameters i_b i_g i_p = skip_position parameters j_b j_g j_p ->
      i_b = j_b /\ i_g = j_g /\ i_p = j_p).
Proof.
  set (B := n_batches parameters). set (G := n_generations parameters).
  set (N := n_particles parameters).
  intros _ Hmod Hib Hig Hip Hjb Hjg Hjp.
  assert (Hval : forall b g p, 0 <= b < B -> 0 <= g < G -> 0 <= p < N ->
            skip_position parameters b g p = (b * G + g) * N + p
            /\ 0 <= b * G + g < B * G /\ (b * G + g) * N + p < B * G * N).
  { intros b g p Hb Hg Hp.
    assert (H1 : 0 <= b * G + g < B * G) by nia.
    assert (H2 : 0 <= (b * G + g) * N) by nia.
    assert (H3 : (b * G + g) * N + p < B * G * N) by nia.
    assert (H4 : B * G <= B * G * N) by nia.
    unfold skip_position, uadd, umul. fold G N.
    rewrite (wrap64_small (b * G + g)) by lia.
    rewrite (wrap64_small ((b * G + g) * N)) by lia.
    rewrite wrap64_small by lia. auto. }
  destruct (Hval i_b i_g i_p Hib Hig Hip) as (Ei & Ri & Li).
  destruct (Hval j_b j_g j_p Hjb Hjg Hjp) as (Ej & Rj & Lj).
  split; [exact Ei|]. split; [rewrite Ei; exact Li|].
  rewrite Ei, Ej. intros E.
  assert (E1 : i_b * G + i_g = j_b * G + j_g /\ i_p = j_p).
  { apply (Z.div_mod_unique N); lia. }
  destruct E1 as [E1 E2].
  assert (E3 : i_b = j_b /\ i_g = j_g).
  { apply (Z.div_mod_unique G); lia. }
  tauto.
Qed.

(** ** A batch without generations *)

Lemma load_upd_same {A : Type} (a : list A) (i : Z) (v : A) :
  0 <= i < len a -> load (upd a (Z.to_nat i) v) i = Ok v.
Proof.
  intros Hi. apply load_nth_error; [lia|].
  unfold upd. unfold len in Hi.
  destruct (skipn (Z.to_nat i) a) as [|x tl] eqn:E.
  - exfalso. assert (Hl := f_equal (@List.length A) E).
    rewrite length_skipn in Hl. simpl in Hl. lia.
  - rewrite nth_error_app2 by (rewrite length_firstn; lia).
    rewrite length_firstn.
    replace (Z.to_nat i - Nat.min (Z.to_nat i) (List.length a))%nat with 0%nat by lia.
    reflexivity.
Qed.

(** X10. run_eigenvalue: with [n_generations = 0] a batch runs no
    generation and divides its accumulated [0.0] by [0]: the k_eff of the
    batch is a NaN, which an active batch stores in [keff]; the banks are
    left as they were. *)
Theorem X10_batch_without_generations (rng : Type) (rni : Z -> Z -> rng -> Z * rng)
    (transport : Parameters -> Geometry -> Z -> Bank.t -> Particle.t ->
                 Bank.t * Tally -> outcome (Bank.t * Tally))
    (parameters : Parameters) (geometry : Geometry) (i_b : Z) (s : Sim rng) :
  n_generations parameters = 0 ->
  -1 <= i_a s -> i_a s + 1 < len (keff s) ->
  exists s',
    batch rng rni transport parameters geometry i_b s = Ok s'
    /\ keff_batch s' = DNaN
    /\ (0 <= i_a s' -> load (keff s') (i_a s') = Ok DNaN)
    /\ source_bank s' = source_bank s
    /\ fission_bank s' = fission_bank s.
Proof.
  intros Hg Hia Hlen.
  unfold batch, for_range. rewrite Hg.
  change (Z.to_nat (0 - 0)) with 0%nat. cbn [for_loop bind].
  set (s0 := batch_begin rng parameters i_b s).
  assert (Hia0 : i_a s <= i_a s0 <= i_a s + 1).
  { unfold s0, batch_begin. cbn [i_a].
    destruct (n_batches parameters - n_active parameters <=? i_b); lia. }
  assert (Hk0 : keff s0 = keff s) by reflexivity.
  assert (Hkb : ddiv (keff_batch s0) (of_int 0) = DNaN).
  { unfold s0, batch_begin. cbn [keff_batch].
    unfold of_int. apply ddiv_zero_zero; reflexivity. }
  unfold batch_end. rewrite Hg, Hkb, Hk0.
  destruct (Z.leb_spec 0 (i_a s0)) as [Hact|Hin].
  - rewrite store_in_range by lia. cbn [bind].
    rewrite calculate_keff_prefix by (unfold len in *; rewrite upd_length; lia).
    cbv zeta. cbn [bind].
    eexists. split; [reflexivity|]. cbn [keff_batch keff i_a source_bank fission_bank].
    repeat split.
    intros _. apply load_upd_same. lia.
  - cbn [bind].
    rewrite calculate_keff_prefix by lia.
    cbv zeta. cbn [bind].
    eexists. split; [reflexivity|]. cbn [keff_batch keff i_a source_bank fission_bank].
    repeat split. intros H0. lia.
Qed.

(** ** Worked examples *)

Lemma X9_witness :
  skip_position demo_parameters 0 0 19 = (0 * 1 + 0) * 20 + 19
  /\ skip_position demo_parameters 0 0 19 < 2 * 1 * 20
  /\ (skip_position demo_parameters 0 0 19 = skip_position demo_parameters 1 0 0 ->
      0 = 1 /\ 0 = 0 /\ 19 = 0).
Proof.
  apply (X9_skip_positions demo_parameters 0 0 19 1 0 0);
    unfold ULONG_MOD; simpl; lia.
Defined.

Lemma X10_witness :
  exists s',
    batch tape tape_rni echo_transport idle_parameters unit_box 1
      (demo_state (Bank.mk [] 0 0) [DFin 0] (-1) (DFin 0) (DFin 0) []) = Ok s'
    /\ keff_batch s' = DNaN
    /\ (0 <= i_a s' -> load (keff s') (i_a s') = Ok DNaN)
    /\ source_bank s' = demo_source
    /\ fission_bank s' = Bank.mk [] 0 0.
Proof.
  apply (X10_batch_without_generations tape tape_rni echo_transport
           idle_parameters unit_box 1
           (demo_state (Bank.mk [] 0 0) [DFin 0] (-1) (DFin 0) (DFin 0) [])).
  - reflexivity.
  - simpl. lia.
  - unfold len. simpl. lia.
Defined.

(** ** The diagnostics in machine arithmetic *)

Lemma calloc_fits {T : Type} (nmemb size : Z) (zero : T) :
  nmemb * size < ULONG_MOD ->
  calloc nmemb size zero = repeat zero (Z.to_nat nmemb).
Proof.
  intros H. unfold calloc.
  replace (nmemb * size <? ULONG_MOD) with true
    by (symmetry; apply Z.ltb_lt; exact H).
  reflexivity.
Qed.



Section MachineFacts.

Context {D : Type}.
Variable A : Machine.arith D.

Lemma machine_live_length (b : Machine.Bank D) :
  0 <= Machine.n b <= len (Machine.p b) -> len (Machine.live b) = Machine.n b.
Proof.
  intros H. unfold Machine.live, len in *. rewrite length_firstn. lia.
Qed.

(** *** Mean-squared distance *)




(** *** Shannon entropy *)



Section CountLoop.

Variables (b : Machine.Bank D) (m : Z) (dx dy dz : D) (N : nat).



End CountLoop.

Variable log2 : D -> D.



End MachineFacts.

(** *** Exact arithmetic *)













(** *** Binary64: the square of a difference

    Rounding to nearest even is symmetric in the sign, so [b - a] is the
    opposite of [a - b] (or both are [+0]) and the two have the same
    square. *)

Section SignSymmetry.

Variables prec emax : Z.





End SignSymmetry.






(** *** Worked examples *)







(** X7. In binary64 a position inside the box can have the index of no
    box.  In the unit box with three boxes per side (180 particles), the
    abscissa [1 - 2^-53] is below [Lx = 1], but its quotient by
    [dx = 1.0/3] rounds to [3.0]: the particle has [ix = 3] and the index
    27, one past the 27 counters, and [shannon_entropy] on a bank of such
    particles has undefined behaviour. *)
Theorem X7_shannon_entropy_near_face
    (pow_third ceil log2 : PrimFloat.float -> PrimFloat.float) :
  let third := PrimFloat.div PrimFloat.one (Machine.b64_of_ulong 3) in
  PrimFloat.ltb below_one PrimFloat.one = true
  /\ Machine.b64_to_ulong (PrimFloat.div below_one third) = Some 3
  /\ Machine.cell_index Machine.binary64 3 third third third near_face = Ok 27
  /\ (Machine.grid_size Machine.binary64 pow_third ceil 180 = Ok 3 ->
      Machine.shannon_entropy Machine.binary64 pow_third ceil log2 b64_unit_box
        (Machine.bank_of (repeat near_face 180)) = Undefined).
Proof.
  intros third. split; [|split; [|split]].
  - vm_compute. reflexivity.
  - vm_compute. reflexivity.
  - vm_compute. reflexivity.
  - intros Hg. unfold Machine.shannon_entropy.
    change (Machine.n (Machine.bank_of (repeat near_face 180))) with 180.
    rewrite Hg. cbn [bind]. vm_compute. reflexivity.
Qed.

Lemma X7_witness :
  Machine.shannon_entropy Machine.binary64
    (fun _ => Machine.b64_of_ulong 3) (fun a => a) (fun a => a) b64_unit_box
    (Machine.bank_of (repeat near_face 180)) = Undefined.
Proof.
  refine (proj2 (proj2 (proj2 (X7_shannon_entropy_near_face
            (fun _ => Machine.b64_of_ulong 3) (fun a => a) (fun a => a)))) _).
  vm_compute. reflexivity.
Defined.
(** * Properties of io.c *)

Import Io.
Open Scope string_scope.
Open Scope Z_scope.

(** ** Numerals *)

Lemma append_assoc (a b c : string) : (a ++ b) ++ c = a ++ b ++ c.
Proof. induction a as [|x a IH]; simpl; [reflexivity | now rewrite IH]. Qed.

Lemma append_nil_r (a : string) : a ++ "" = a.
Proof. induction a as [|x a IH]; simpl; [reflexivity | now rewrite IH]. Qed.

Lemma length_append (a b : string) :
  String.length (a ++ b) = (String.length a + String.length b)%nat.
Proof. induction a as [|x a IH]; simpl; [reflexivity | now rewrite IH]. Qed.

Lemma digits_acc (fuel : nat) : forall a acc,
  digits fuel a acc = digits fuel a "" ++ acc.
Proof.
  induction fuel as [|k IH]; intros a acc; simpl; [reflexivity|].
  destruct (a <? 10); [reflexivity|].
  rewrite (IH (a / 10) (String _ acc)), (IH (a / 10) (String _ "")).
  now rewrite append_assoc.
Qed.

Lemma digits_fuel (k1 : nat) : forall k2 a acc,
  0 <= a < 10 ^ Z.of_nat (S k1) -> a < 10 ^ Z.of_nat (S k2) ->
  digits (S k1) a acc = digits (S k2) a acc.
Proof.
  induction k1 as [|k1 IH]; intros k2 a acc Ha1 Ha2.
  - change (10 ^ Z.of_nat 1) with 10 in Ha1.
    cbn [digits]. destruct (Z.ltb_spec a 10); [reflexivity | lia].
  - cbn [digits]. destruct (Z.ltb_spec a 10) as [Hlt|Hge]; [reflexivity|].
    destruct k2 as [|k2].
    + change (10 ^ Z.of_nat 1) with 10 in Ha2. lia.
    + apply IH.
      * split; [apply Z.div_pos; lia|].
        apply Z.div_lt_upper_bound; [lia|].
        rewrite <- Z.pow_succ_r by lia. rewrite <- Nat2Z.inj_succ. lia.
      * apply Z.div_lt_upper_bound; [lia|].
        rewrite <- Z.pow_succ_r by lia. rewrite <- Nat2Z.inj_succ. lia.
Qed.

Lemma numeral_fuel (a : Z) :
  0 <= a -> a < 10 ^ Z.of_nat (S (Z.to_nat (Z.log2 a))).
Proof.
  intros Ha. rewrite Nat2Z.inj_succ, Z2Nat.id by apply Z.log2_nonneg.
  destruct (Z.eq_dec a 0) as [->|Hn]; [reflexivity|].
  assert (Hlog := Z.log2_spec a ltac:(lia)).
  assert (2 ^ Z.succ (Z.log2 a) <= 10 ^ Z.succ (Z.log2 a)).
  { apply Z.pow_le_mono_l. lia. }
  lia.
Qed.

Lemma numeral_small (a : Z) :
  0 <= a < 10 -> numeral a = String (chr (48 + a)) "".
Proof.
  intros Ha. unfold numeral. cbn [digits].
  destruct (Z.ltb_spec a 10); [|lia].
  now rewrite Z.mod_small by lia.
Qed.

Lemma numeral_step (a : Z) :
  10 <= a -> numeral a = numeral (a / 10) ++ String (chr (48 + a mod 10)) "".
Proof.
  intros Ha. unfold numeral at 1. cbn [digits].
  destruct (Z.ltb_spec a 10); [lia|].
  rewrite digits_acc. f_equal.
  assert (Hq : 0 <= a / 10) by (apply Z.div_pos; lia).
  assert (Hf := numeral_fuel a ltac:(lia)).
  assert (Hl : 0 < Z.log2 a) by (apply Z.log2_pos; lia).
  destruct (Z.to_nat (Z.log2 a)) as [|k] eqn:Hk; [lia|].
  unfold numeral. apply digits_fuel.
  - split; [exact Hq|]. apply Z.div_lt_upper_bound; [lia|].
    rewrite <- Z.pow_succ_r by lia. rewrite <- Nat2Z.inj_succ. exact Hf.
  - apply numeral_fuel. exact Hq.
Qed.

Lemma numeral_two (a : Z) :
  10 <= a < 100 ->
  numeral a = String (chr (48 + a / 10)) (String (chr (48 + a mod 10)) "").
Proof.
  intros Ha. rewrite numeral_step by lia.
  rewrite numeral_small by (split; [apply Z.div_pos; lia | apply Z.div_lt_upper_bound; lia]).
  reflexivity.
Qed.

Lemma fmt_03ld_three (r : Z) :
  0 <= r < 1000 ->
  fmt_03ld r = String (chr (48 + r / 100))
                 (String (chr (48 + r / 10 mod 10))
                    (String (chr (48 + r mod 10)) "")).
Proof.
  intros Hr. unfold fmt_03ld. destruct (Z.ltb_spec r 0); [lia|].
  destruct (Z_lt_le_dec r 10) as [H1|H1].
  - rewrite numeral_small by lia. simpl.
    rewrite (Z.div_small r 100), (Z.div_small r 10), Z.mod_0_l, (Z.mod_small r 10) by lia.
    reflexivity.
  - destruct (Z_lt_le_dec r 100) as [H2|H2].
    + rewrite numeral_two by lia. simpl.
      rewrite (Z.div_small r 100) by lia.
      rewrite (Z.mod_small (r / 10) 10)
        by (split; [apply Z.div_pos; lia | apply Z.div_lt_upper_bound; lia]).
      reflexivity.
    + rewrite numeral_step by lia.
      assert (10 <= r / 10 < 100).
      { split; [apply Z.div_le_lower_bound; lia | apply Z.div_lt_upper_bound; lia]. }
      rewrite numeral_two by lia. simpl.
      replace (r / 10 / 10) with (r / 100)
        by (Z.to_euclidean_division_equations; lia).
      reflexivity.
Qed.

Lemma numeral_thousand (a : Z) :
  1000 <= a -> numeral a = numeral (a / 1000) ++ fmt_03ld (a mod 1000).
Proof.
  intros Ha.
  rewrite fmt_03ld_three by (apply Z.mod_pos_bound; lia).
  assert (H1 : 100 <= a / 10) by (apply Z.div_le_lower_bound; lia).
  assert (H2 : 10 <= a / 10 / 10) by (apply Z.div_le_lower_bound; lia).
  rewrite (numeral_step a) by lia.
  rewrite (numeral_step (a / 10)) by lia.
  rewrite (numeral_step (a / 10 / 10)) by lia.
  rewrite !append_assoc. simpl.
  replace (a / 10 / 10 / 10) with (a / 1000)
    by (Z.to_euclidean_division_equations; lia).
  replace (a mod 1000 / 100) with (a / 10 / 10 mod 10)
    by (Z.to_euclidean_division_equations; lia).
  replace (a mod 1000 / 10 mod 10) with (a / 10 mod 10)
    by (Z.to_euclidean_division_equations; lia).
  replace (a mod 1000 mod 10) with (a mod 10)
    by (Z.to_euclidean_division_equations; lia).
  reflexivity.
Qed.

(** ** [fancy_int] *)

Lemma ungroup_append (s t : string) : ungroup (s ++ t) = ungroup s ++ ungroup t.
Proof.
  induction s as [|c s IH]; simpl; [reflexivity|].
  destruct (Ascii.eqb c ","); simpl; now rewrite IH.
Qed.

Lemma digit_not_comma (a : Z) : Ascii.eqb (chr (48 + a mod 10)) "," = false.
Proof.
  assert (H := Z.mod_pos_bound a 10 ltac:(lia)).
  assert (Hc : a mod 10 = 0 \/ a mod 10 = 1 \/ a mod 10 = 2 \/ a mod 10 = 3
               \/ a mod 10 = 4 \/ a mod 10 = 5 \/ a mod 10 = 6 \/ a mod 10 = 7
               \/ a mod 10 = 8 \/ a mod 10 = 9) by lia.
  repeat (destruct Hc as [Hc|Hc]; [rewrite Hc; reflexivity|]).
  rewrite Hc; reflexivity.
Qed.

Lemma ungroup_digits (fuel : nat) : forall a acc,
  ungroup (digits fuel a acc) = digits fuel a (ungroup acc).
Proof.
  induction fuel as [|k IH]; intros a acc; cbn [digits]; [reflexivity|].
  destruct (a <? 10).
  - cbn [ungroup]. now rewrite digit_not_comma.
  - rewrite IH. cbn [ungroup]. now rewrite digit_not_comma.
Qed.

Lemma ungroup_numeral (a : Z) : ungroup (numeral a) = numeral a.
Proof. unfold numeral. now rewrite ungroup_digits. Qed.

Lemma ungroup_zeros (k : nat) : ungroup (zeros k) = zeros k.
Proof. induction k as [|k IH]; simpl; [reflexivity | now rewrite IH]. Qed.

Lemma ungroup_fmt_ld (a : Z) : ungroup (fmt_ld a) = fmt_ld a.
Proof.
  unfold fmt_ld. destruct (a <? 0); [|apply ungroup_numeral].
  rewrite ungroup_append, ungroup_numeral. reflexivity.
Qed.

Lemma ungroup_fmt_03ld (a : Z) : ungroup (fmt_03ld a) = fmt_03ld a.
Proof.
  unfold fmt_03ld. destruct (a <? 0);
    rewrite ?ungroup_append, ungroup_zeros, ungroup_numeral; reflexivity.
Qed.

Lemma fmt_ld_thousand (a : Z) :
  1000 <= a -> fmt_ld a = fmt_ld (a / 1000) ++ fmt_03ld (a mod 1000).
Proof.
  intros Ha. unfold fmt_ld.
  assert (0 <= a / 1000) by (apply Z.div_pos; lia).
  destruct (Z.ltb_spec a 0); [lia|].
  destruct (Z.ltb_spec (a / 1000) 0); [lia|].
  now apply numeral_thousand.
Qed.

(** X11. Taking the separators out of what [fancy_int] prints leaves the plain
    [%ld] numeral, for every [long]: a negative number is printed without
    separators, whatever its size. *)
Theorem X11_fancy_int_ungroup (a : Z) :
  ungroup (fancy_int a) = fmt_ld a ++ newline
  /\ (a < 1000 -> fancy_int a = fmt_ld a ++ newline).
Proof.
  split.
  2:{ intros Ha. unfold fancy_int. destruct (Z.ltb_spec a 1000); [reflexivity | lia]. }
  unfold fancy_int.
  destruct (Z.ltb_spec a 1000) as [H1|H1].
  { rewrite ungroup_append, ungroup_fmt_ld. reflexivity. }
  assert (Hq : forall b, 0 < b -> a ÷ b = a / b)
    by (intros b Hb; apply Z.quot_div_nonneg; lia).
  assert (Hr : forall b, 0 < b -> Z.rem a b = a mod b)
    by (intros b Hb; apply Z.rem_mod_nonneg; lia).
  assert (Hm : a mod 1000000 / 1000 = a / 1000 mod 1000)
    by (Z.to_euclidean_division_equations; lia).
  assert (Hm' : a mod 1000000000 / 1000000 = a / 1000000 mod 1000)
    by (Z.to_euclidean_division_equations; lia).
  assert (H0 : 0 <= a mod 1000000) by (apply Z.mod_pos_bound; lia).
  assert (H0' : 0 <= a mod 1000000000) by (apply Z.mod_pos_bound; lia).
  destruct ((1000 <=? a) && (a <? 1000000)) eqn:E2.
  { rewrite Hq, Hr by lia.
    rewrite !ungroup_append, ungroup_fmt_ld, ungroup_fmt_03ld. simpl ungroup.
    rewrite (fmt_ld_thousand a) by lia. now rewrite !append_assoc. }
  destruct ((1000000 <=? a) && (a <? 1000000000)) eqn:E3.
  { rewrite !Hr by lia. rewrite Hq by lia.
    rewrite (Z.quot_div_nonneg (a mod 1000000)) by lia. rewrite Hm.
    rewrite !ungroup_append, ungroup_fmt_ld, !ungroup_fmt_03ld. simpl ungroup.
    rewrite (fmt_ld_thousand a) by lia.
    rewrite (fmt_ld_thousand (a / 1000)) by (apply Z.div_le_lower_bound; lia).
    rewrite Z.div_div by lia. now rewrite !append_assoc. }
  destruct (Z.leb_spec 1000000000 a) as [H4|H4].
  { rewrite !Hr by lia. rewrite Hq by lia.
    rewrite (Z.quot_div_nonneg (a mod 1000000)), (Z.quot_div_nonneg (a mod 1000000000)) by lia.
    rewrite Hm, Hm'.
    rewrite !ungroup_append, ungroup_fmt_ld, !ungroup_fmt_03ld. simpl ungroup.
    rewrite (fmt_ld_thousand a) by lia.
    rewrite (fmt_ld_thousand (a / 1000)) by (apply Z.div_le_lower_bound; lia).
    rewrite (fmt_ld_thousand (a / 1000 / 1000)).
    2:{ apply Z.div_le_lower_bound; [lia|]. apply Z.div_le_lower_bound; lia. }
    rewrite !Z.div_div by lia. now rewrite !append_assoc. }
  rewrite ungroup_append, ungroup_fmt_ld. reflexivity.
Qed.

Lemma ungroup_length (s : string) :
  (String.length (ungroup s) <= String.length s)%nat.
Proof.
  induction s as [|c s IH]; simpl; [lia|].
  destruct (Ascii.eqb c ","); simpl; lia.
Qed.

Lemma groups_plain (s : string) : forall cur rest,
  ungroup s = s ->
  groups (s ++ "," ++ rest) cur = (cur ++ s) :: groups rest "".
Proof.
  induction s as [|c s IH]; intros cur rest Hs.
  - simpl. now rewrite append_nil_r.
  - simpl in Hs. simpl. simpl in IH. destruct (Ascii.eqb c ",") eqn:E.
    + exfalso. assert (H := ungroup_length s). rewrite Hs in H. simpl in H. lia.
    + injection Hs as Hs. rewrite IH by exact Hs.
      now rewrite append_assoc.
Qed.

Lemma groups_plain_end (s : string) : forall cur,
  ungroup s = s -> groups s cur = [cur ++ s].
Proof.
  induction s as [|c s IH]; intros cur Hs.
  - simpl. now rewrite append_nil_r.
  - simpl in Hs. simpl. destruct (Ascii.eqb c ",") eqn:E.
    + exfalso. assert (H := ungroup_length s). rewrite Hs in H. simpl in H. lia.
    + injection Hs as Hs. rewrite IH by exact Hs.
      now rewrite append_assoc.
Qed.

Lemma digits_length_le (fuel : nat) : forall a acc,
  (String.length acc <= String.length (digits fuel a acc))%nat.
Proof.
  induction fuel as [|k IH]; intros a acc; cbn [digits]; [lia|].
  destruct (a <? 10); [simpl; lia|].
  eapply Nat.le_trans; [|apply IH]. simpl. lia.
Qed.

Lemma digits_length (fuel : nat) (a : Z) (acc : string) :
  (String.length acc < String.length (digits (S fuel) a acc))%nat.
Proof.
  cbn [digits]. destruct (a <? 10); [simpl; lia|].
  eapply Nat.lt_le_trans; [|apply digits_length_le]. simpl. lia.
Qed.

Lemma fmt_03ld_length (r : Z) :
  0 <= r < 1000 -> String.length (fmt_03ld r) = 3%nat.
Proof. intros Hr. now rewrite fmt_03ld_three. Qed.

Lemma digit_code (a : Z) :
  isdigit (chr (48 + a mod 10)) = true
  /\ code (chr (48 + a mod 10)) - 48 = a mod 10.
Proof.
  assert (H := Z.mod_pos_bound a 10 ltac:(lia)).
  assert (Hc : a mod 10 = 0 \/ a mod 10 = 1 \/ a mod 10 = 2 \/ a mod 10 = 3
               \/ a mod 10 = 4 \/ a mod 10 = 5 \/ a mod 10 = 6 \/ a mod 10 = 7
               \/ a mod 10 = 8 \/ a mod 10 = 9) by lia.
  repeat (destruct Hc as [Hc|Hc]; [rewrite Hc; split; reflexivity|]).
  rewrite Hc; split; reflexivity.
Qed.

Lemma digits_value_append_digit (s : string) : forall acc d,
  (forall c, contains c s = true -> isdigit c = true) ->
  digits_value (s ++ String (chr (48 + d mod 10)) "") acc
  = 10 * digits_value s acc + d mod 10.
Proof.
  induction s as [|x s IH]; intros acc d Hs.
  - cbn [append digits_value]. destruct (digit_code d) as [-> ->]. reflexivity.
  - cbn [append digits_value].
    rewrite (Hs x) by (simpl; now rewrite Ascii.eqb_refl).
    apply IH. intros c Hc. apply Hs. simpl. rewrite Hc. apply orb_true_r.
Qed.

Lemma contains_digits (c : ascii) (fuel : nat) : forall a acc,
  contains c (digits fuel a acc) = true ->
  isdigit c = true \/ contains c acc = true.
Proof.
  induction fuel as [|k IH]; intros a acc H; cbn [digits] in H; [now right|].
  assert (Hd : contains c (String (chr (48 + a mod 10)) acc) = true ->
               isdigit c = true \/ contains c acc = true).
  { simpl. intros H'. apply orb_true_iff in H' as [H'|H']; [|now right].
    left. apply Ascii.eqb_eq in H'. subst c. apply digit_code. }
  destruct (a <? 10); [now apply Hd|].
  destruct (IH _ _ H) as [H'|H']; [now left | now apply Hd].
Qed.

Lemma contains_numeral (c : ascii) (a : Z) :
  contains c (numeral a) = true -> isdigit c = true.
Proof.
  intros H. destruct (contains_digits c _ _ _ H) as [H'|H']; [exact H'|discriminate].
Qed.

Lemma digits_value_numeral (a : Z) : 0 <= a -> digits_value (numeral a) 0 = a.
Proof.
  intros Ha. generalize Ha. pattern a. apply Z_lt_induction; [|exact Ha].
  clear a Ha. intros a IH Ha.
  destruct (Z_lt_le_dec a 10) as [Hs|Hl].
  - rewrite numeral_small by lia. cbn [digits_value].
    destruct (digit_code a) as [H1 H2].
    rewrite (Z.mod_small a 10) in H1, H2 by lia.
    rewrite H1. lia.
  - rewrite numeral_step by lia.
    rewrite digits_value_append_digit by (intros c; apply contains_numeral).
    rewrite IH.
    + pose proof (Z.div_mod a 10 ltac:(lia)). lia.
    + split; [apply Z.div_pos; lia | apply Z.div_lt; lia].
    + apply Z.div_pos; lia.
Qed.

Lemma digits_length_bound (fuel : nat) : forall a acc,
  (String.length (digits fuel a acc) <= fuel + String.length acc)%nat.
Proof.
  induction fuel as [|k IH]; intros a acc; cbn [digits]; [lia|].
  destruct (a <? 10); [simpl; lia|].
  eapply Nat.le_trans; [apply IH|]. simpl. lia.
Qed.

Lemma numeral_first (a : Z) :
  exists c r, numeral a = String c r /\ isdigit c = true.
Proof.
  destruct (numeral a) as [|c r] eqn:E.
  - pose proof (digits_length (Z.to_nat (Z.log2 a)) a "") as H.
    unfold numeral in E. rewrite E in H. cbn [String.length] in H. lia.
  - exists c, r. split; [reflexivity|].
    apply (contains_numeral c a). rewrite E. simpl. now rewrite Ascii.eqb_refl.
Qed.

(** [%d] and [atoi] are inverse to one another on the range of [int]. *)
Lemma strtol10_fmt_ld (z : Z) : strtol10 (fmt_ld z) = z.
Proof.
  unfold fmt_ld. destruct (Z.ltb_spec z 0) as [Hn|Hp].
  - unfold strtol10. cbn [append skip_space].
    change (isspace "-") with false. cbn iota.
    rewrite digits_value_numeral by lia. lia.
  - destruct (numeral_first z) as (c & r & E & Hc).
    pose proof (digits_value_numeral z Hp) as Hv. rewrite E in Hv.
    unfold strtol10. rewrite E. cbn [skip_space].
    assert (Hsp : isspace c = false /\ c <> "-"%char /\ c <> "+"%char).
    { unfold isdigit in Hc. apply andb_true_iff in Hc as [H1 H2].
      apply Z.leb_le in H1, H2. unfold isspace.
      repeat split.
      - apply orb_false_iff. split; [apply Z.eqb_neq; lia|].
        apply andb_false_iff. right. apply Z.leb_gt. lia.
      - intros ->. change (code "-") with 45 in H1. lia.
      - intros ->. change (code "+") with 43 in H1. lia. }
    destruct Hsp as (Hs & Hm & Hpl). rewrite Hs.
    destruct c as [b0 b1 b2 b3 b4 b5 b6 b7].
    destruct b0, b1, b2, b3, b4, b5, b6, b7; try exact Hv; congruence.
Qed.

Lemma fmt_ld_plain (c : ascii) (z : Z) :
  isdigit c = false -> c <> "-"%char -> contains c (fmt_ld z) = false.
Proof.
  intros Hd Hm. unfold fmt_ld.
  assert (Hn : forall a, contains c (numeral a) = false).
  { intros a. destruct (contains c (numeral a)) eqn:E; [|reflexivity].
    apply contains_numeral in E. congruence. }
  destruct (z <? 0); [|apply Hn].
  cbn [append contains]. rewrite Hn.
  destruct (Ascii.eqb_spec "-"%char c); [congruence | reflexivity].
Qed.

Lemma fmt_ld_length (z : Z) :
  - 2 ^ 63 <= z < 2 ^ 63 -> (1 <= String.length (fmt_ld z) <= 65)%nat.
Proof.
  intros Hz. unfold fmt_ld.
  assert (Hn : forall a, 0 <= a <= 2 ^ 63 ->
                 (1 <= String.length (numeral a) <= 64)%nat).
  { intros a Ha. split.
    - pose proof (digits_length (Z.to_nat (Z.log2 a)) a "") as H.
      cbn [String.length] in H. unfold numeral. lia.
    - unfold numeral.
      eapply Nat.le_trans; [apply digits_length_bound|]. cbn [String.length].
      assert (Hlog : Z.log2 a <= 63).
      { pose proof (Z.log2_le_mono a (2 ^ 63) ltac:(lia)) as Hm.
        rewrite Z.log2_pow2 in Hm by lia. exact Hm. }
      lia. }
  destruct (z <? 0) eqn:E.
  - apply Z.ltb_lt in E. cbn [append String.length].
    specialize (Hn (- z) ltac:(lia)). lia.
  - apply Z.ltb_ge in E. specialize (Hn z ltac:(lia)). lia.
Qed.

(** X12. From a thousand million on [fancy_int] prints exactly three separators:
    the three low groups have three digits each, and the leading group is
    the whole numeral of [a / 10^9], four digits or more from [10^12] on. *)
Theorem X12_fancy_int_groups (a : Z) :
  1000000000 <= a ->
  groups (fancy_int a) "" =
    [fmt_ld (a / 1000000000); fmt_03ld (a / 1000000 mod 1000);
     fmt_03ld (a / 1000 mod 1000); fmt_03ld (a mod 1000) ++ newline]
  /\ String.length (fmt_03ld (a / 1000000 mod 1000)) = 3%nat
  /\ String.length (fmt_03ld (a / 1000 mod 1000)) = 3%nat
  /\ String.length (fmt_03ld (a mod 1000)) = 3%nat
  /\ (1000000000000 <= a -> (4 <= String.length (fmt_ld (a / 1000000000)))%nat).
Proof.
  intros Ha.
  repeat split; try (apply fmt_03ld_length; apply Z.mod_pos_bound; lia).
  - unfold fancy_int.
    destruct (Z.ltb_spec a 1000) as [?|_]; [lia|].
    destruct (Z.ltb_spec a 1000000) as [?|_]; [lia|].
    destruct (Z.ltb_spec a 1000000000) as [?|_]; [lia|].
    rewrite !andb_false_r.
    destruct (Z.leb_spec 1000000000 a) as [_|?]; [|lia].
    assert (Hm : 0 <= a mod 1000000) by (apply Z.mod_pos_bound; lia).
    assert (Hm' : 0 <= a mod 1000000000) by (apply Z.mod_pos_bound; lia).
    rewrite !Z.rem_mod_nonneg by lia.
    rewrite (Z.quot_div_nonneg a), (Z.quot_div_nonneg (a mod 1000000)),
      (Z.quot_div_nonneg (a mod 1000000000)) by lia.
    replace (a mod 1000000 / 1000) with (a / 1000 mod 1000)
      by (Z.to_euclidean_division_equations; lia).
    replace (a mod 1000000000 / 1000000) with (a / 1000000 mod 1000)
      by (Z.to_euclidean_division_equations; lia).
    rewrite groups_plain by apply ungroup_fmt_ld.
    rewrite groups_plain by apply ungroup_fmt_03ld.
    rewrite groups_plain by apply ungroup_fmt_03ld.
    rewrite groups_plain_end
      by (rewrite ungroup_append, ungroup_fmt_03ld; reflexivity).
    reflexivity.
  - intros Hb. unfold fmt_ld.
    assert (Hq : 1000 <= a / 1000000000) by (apply Z.div_le_lower_bound; lia).
    destruct (Z.ltb_spec (a / 1000000000) 0); [lia|].
    rewrite numeral_thousand by lia.
    rewrite length_append, fmt_03ld_length by (apply Z.mod_pos_bound; lia).
    assert (H1 := digits_length (Z.to_nat (Z.log2 (a / 1000000000 / 1000)))
                    (a / 1000000000 / 1000) "").
    unfold numeral. cbn [String.length] in H1. lia.
Qed.

Lemma X12_witness :
  groups (fancy_int 1234567890123) "" = ["1234"; "567"; "890"; "123" ++ newline].
Proof.
  exact (proj1 (X12_fancy_int_groups 1234567890123 ltac:(lia))).
Defined.

(** ** [center_print] *)

(** X13. center_print writes [(width - length)/2 + 1] blanks before the text, the
    quotient truncated: a text that fits the width stands one or two
    columns to the right of the centre, a text one character too wide is
    still indented by one blank, and a wider one is not indented. *)
Theorem X13_center_print_margin (s : string) (width : Z) :
  exists k : nat,
    center_print s width = spaces k ++ s ++ newline
    /\ (strlen s <= width ->
        width - strlen s + 1 <= 2 * Z.of_nat k <= width - strlen s + 2)
    /\ (strlen s = width + 1 -> k = 1%nat)
    /\ (width + 2 <= strlen s -> k = 0%nat).
Proof.
  exists (Z.to_nat ((width - strlen s) ÷ 2 + 1)).
  split; [reflexivity|].
  generalize (strlen s). intros len.
  split; [|split]; intros Hw; Z.to_euclidean_division_equations; lia.
Qed.

(** ** [read_CLI] *)

Lemma dlt_zero (a : double) : dlt a (DFin 0) = false <-> not_below_zero a.
Proof.
  destruct a as [r|[]|]; simpl; try (split; intros; congruence || exact I).
  destruct (Rlt_dec r 0); split; intros H; try discriminate; try reflexivity; lra.
Qed.

Lemma dle_zero (a : double) : dle a (DFin 0) = false <-> not_at_or_below_zero a.
Proof.
  destruct a as [r|[]|]; simpl; try (split; intros; congruence || exact I).
  destruct (Rle_dec r 0); split; intros H; try discriminate; try reflexivity; lra.
Qed.

Lemma accepted_default_files (p : Params.t) : accepted (default_files p) <-> accepted p.
Proof. reflexivity. Qed.

Lemma files_named_default_files (p : Params.t) : files_named (default_files p).
Proof.
  unfold files_named, default_files, default_file; simpl.
  repeat split; intros H; rewrite H; simpl;
    match goal with |- (if is_null ?f then _ else _) <> _ =>
      destruct f; simpl; discriminate end.
Qed.

Lemma validate_accepted (p : Params.t) :
  accepted p -> validate p = Ok (default_files p).
Proof.
  intros (Hbg & Hb & Hg & Ha & Hn & Hnu & Hx & Hy & Hf & Hxa & Hs).
  unfold validate.
  change (Params.n_batches (default_files p)) with (Params.n_batches p).
  change (Params.n_generations (default_files p)) with (Params.n_generations p).
  change (Params.n_active (default_files p)) with (Params.n_active p).
  change (Params.n_bins (default_files p)) with (Params.n_bins p).
  change (Params.nu (default_files p)) with (Params.nu p).
  change (Params.gx (default_files p)) with (Params.gx p).
  change (Params.gy (default_files p)) with (Params.gy p).
  change (Params.xs_f (default_files p)) with (Params.xs_f p).
  change (Params.xs_a (default_files p)) with (Params.xs_a p).
  change (Params.xs_s (default_files p)) with (Params.xs_s p).
  apply dlt_zero in Hnu, Hf, Hxa, Hs. apply dle_zero in Hx, Hy.
  rewrite Hnu, Hf, Hxa, Hs, Hx, Hy.
  replace ((Params.n_batches p <? 1) && (Params.n_generations p <? 1)) with false
    by (symmetry; apply andb_false_iff; rewrite !Z.ltb_ge; lia).
  replace (Params.n_batches p <? 0) with false by (symmetry; apply Z.ltb_ge; lia).
  replace (Params.n_generations p <? 0) with false by (symmetry; apply Z.ltb_ge; lia).
  replace (Params.n_batches p <? Params.n_active p) with false
    by (symmetry; apply Z.ltb_ge; lia).
  replace (Params.n_bins p <? 0) with false by (symmetry; apply Z.ltb_ge; lia).
  reflexivity.
Qed.

Lemma reject_Ok (cond : bool) (message : string) (u : unit) :
  reject cond message = Ok u -> cond = false.
Proof. unfold reject. destruct cond; [discriminate | reflexivity]. Qed.

Lemma validate_Ok (p p' : Params.t) :
  validate p = Ok p' -> p' = default_files p /\ accepted p.
Proof.
  unfold validate. intros H.
  repeat match type of H with
  | bind (reject ?c ?m) _ = Ok _ =>
      let E := fresh "E" in
      destruct (reject c m) as [[]| |] eqn:E; try discriminate;
      apply reject_Ok in E; simpl bind in H
  end.
  injection H as <-. split; [reflexivity|].
  apply andb_false_iff in E. rewrite !Z.ltb_ge in E.
  rewrite Z.ltb_ge in E0, E1, E2, E3.
  apply orb_false_iff in E5 as [E5 E5'].
  apply orb_false_iff in E6 as [E6 E6'']. apply orb_false_iff in E6 as [E6 E6'].
  apply dlt_zero in E4, E6, E6', E6''. apply dle_zero in E5, E5'.
  unfold accepted. repeat split; try assumption; lia.
Qed.

Lemma validate_never_undefined (p : Params.t) : validate p <> Undefined.
Proof.
  unfold validate, reject.
  repeat match goal with
  | |- context [if ?c then _ else _] => destruct c; simpl; try discriminate
  end.
Qed.

Section InputFacts.

Variable atof : string -> double.

Lemma pair_induction {A : Type} (P : list A -> Prop) :
  P [] -> (forall a, P [a]) -> (forall a b l, P l -> P (a :: b :: l)) ->
  forall l, P l.
Proof.
  intros H0 H1 H2.
  assert (H : forall l, P l /\ forall a, P (a :: l)).
  { induction l as [|b l [IH1 IH2]]; split; auto. }
  intros l. apply H.
Qed.

Lemma cli_option_unknown (arg : string) (value : option string) (p : Params.t) :
  ~ In arg cli_options ->
  cli_option atof arg value p = print_error "Error reading command line input".
Proof.
  intros Hn. unfold cli_option, strcmp_eq.
  repeat match goal with
  | |- context [String.eqb arg ?s] =>
      destruct (String.eqb_spec arg s) as [E|_];
      [exfalso; apply Hn; rewrite E; simpl; tauto|]
  end.
  reflexivity.
Qed.

Lemma cli_option_no_value (arg : string) (p : Params.t) :
  In arg cli_options ->
  cli_option atof arg None p
  = print_error ("Error reading command line input '" ++ arg ++ "'").
Proof.
  intros Hin. simpl in Hin.
  repeat (destruct Hin as [<-|Hin]; [reflexivity|]).
  contradiction.
Qed.

Lemma cli_option_None_fatal (arg : string) (p p' : Params.t) :
  cli_option atof arg None p <> Ok p'.
Proof.
  unfold cli_option.
  repeat match goal with
  | |- context [strcmp_eq arg ?s] => destruct (strcmp_eq arg s); [discriminate|]
  end.
  discriminate.
Qed.

(** Arguments are consumed from left to right, an option with its value. *)
Lemma cli_loop_app (pre : list string) : forall rest p p',
  cli_loop atof pre p = Ok p' ->
  cli_loop atof (pre ++ rest) p = cli_loop atof rest p'.
Proof.
  induction pre as [|a|a b l IH] using pair_induction; intros rest p p' H.
  - injection H as <-. reflexivity.
  - exfalso. exact (cli_option_None_fatal _ _ _ H).
  - cbn [cli_loop] in H. cbn [app cli_loop].
    destruct (cli_option atof a (Some b) p) as [q| |]; try discriminate.
    simpl bind in *. now apply IH.
Qed.

(** X14. read_CLI: whatever the arguments, a call that returns leaves parameters
    that pass every check, with a name for every file that is to be
    written. *)
Theorem X14_read_CLI_accepted (argv : list string) (p p' : Params.t) :
  read_CLI atof argv p = Ok p' -> accepted p' /\ files_named p'.
Proof.
  unfold read_CLI. intros H.
  apply bind_Ok in H. destruct H as [q [_ Hv]].
  destruct (validate_Ok q p' Hv) as [E Hq]. subst p'.
  split; [apply accepted_default_files; exact Hq | apply files_named_default_files].
Qed.

(** X15. read_CLI without options: it returns exactly when the parameters it finds
    are [accepted], having only named the files; it never has undefined
    behaviour.  The checks bound neither [n_active] from below nor
    [n_particles], and a NaN passes them. *)
Theorem X15_read_CLI_no_option (prog : string) (p : Params.t) :
  (accepted p <-> read_CLI atof [prog] p = Ok (default_files p))
  /\ (forall p', read_CLI atof [prog] p = Ok p' -> p' = default_files p)
  /\ read_CLI atof [prog] p <> Undefined.
Proof.
  unfold read_CLI. cbn [tl cli_loop bind].
  split; [split|split].
  - apply validate_accepted.
  - intros Hv. now apply validate_Ok in Hv.
  - intros p' Hv. now apply validate_Ok in Hv.
  - apply validate_never_undefined.
Qed.

(** X16. read_CLI: an option that is the last argument has no value, and the
    call ends in the error that names the option, whatever precedes it. *)
Theorem X16_read_CLI_missing_value (prog opt : string) (pre : list string)
    (p p' : Params.t) :
  In opt cli_options ->
  cli_loop atof pre p = Ok p' ->
  read_CLI atof (prog :: pre ++ [opt]) p
  = Fatal ("ERROR: Error reading command line input '" ++ opt ++ "'" ++ newline) 1.
Proof.
  intros Hin Hpre. unfold read_CLI. cbn [tl].
  rewrite (cli_loop_app pre [opt] p p' Hpre). cbn [cli_loop].
  rewrite cli_option_no_value by exact Hin.
  unfold print_error. cbn [bind]. f_equal. simpl.
  rewrite !append_assoc. reflexivity.
Qed.

(** X17. read_CLI: an argument in option position that is not one of the 27
    options ends the call in an error, whether or not a value follows. *)
Theorem X17_read_CLI_unknown_option (prog arg : string) (pre rest : list string)
    (p p' : Params.t) :
  ~ In arg cli_options ->
  cli_loop atof pre p = Ok p' ->
  read_CLI atof (prog :: pre ++ arg :: rest) p
  = Fatal ("ERROR: Error reading command line input" ++ newline) 1.
Proof.
  intros Hn Hpre. unfold read_CLI. cbn [tl].
  rewrite (cli_loop_app pre (arg :: rest) p p' Hpre). cbn [cli_loop].
  destruct rest as [|v rest]; rewrite cli_option_unknown by exact Hn; reflexivity.
Qed.

(** X18. read_CLI: a particle count below one ends the call at once; so does a
    value that is not a number, which [atoll] reads as zero.  What follows on
    the command line is not looked at. *)
Theorem X18_read_CLI_particles (prog v : string) (pre rest : list string)
    (p p' : Params.t) :
  cli_loop atof pre p = Ok p' ->
  LLONG_MIN <= strtol10 v < 1 ->
  read_CLI atof (prog :: pre ++ "-particles" :: v :: rest) p
  = Fatal ("ERROR: Number of particles must be greater than 0" ++ newline) 1.
Proof.
  intros Hpre Hv. unfold read_CLI. cbn [tl].
  rewrite (cli_loop_app pre _ p p' Hpre). cbn [cli_loop].
  unfold cli_option. change (strcmp_eq "-particles" "-particles") with true.
  cbn iota. unfold with_value, assign, particles, atoll.
  destruct (Z.leb_spec LLONG_MIN (strtol10 v)); [|lia].
  destruct (Z.leb_spec (strtol10 v) LLONG_MAX); [|unfold LLONG_MAX in *; lia].
  cbn [andb bind]. destruct (Z.ltb_spec (strtol10 v) 1); [|lia].
  reflexivity.
Qed.


(** ** [parse_params] *)

(** *** [fgets] *)

Lemma read_line_line (body : string) : forall n rest,
  contains LF body = false -> (String.length body < n)%nat ->
  read_line n (body ++ String LF rest) = (body ++ String LF "", rest).
Proof.
  induction body as [|c body IH]; intros n rest Hc Hn.
  - destruct n as [|n]; [simpl in Hn; lia|]. reflexivity.
  - destruct n as [|n]; [simpl in Hn; lia|].
    simpl in Hc. apply orb_false_iff in Hc as [Hc1 Hc2].
    cbn [append read_line]. rewrite Hc1.
    rewrite IH by (simpl in Hn; try assumption; lia). reflexivity.
Qed.

Lemma read_line_full (chunk : string) : forall rest,
  contains LF chunk = false ->
  read_line (String.length chunk) (chunk ++ rest) = (chunk, rest).
Proof.
  induction chunk as [|c chunk IH]; intros rest Hc.
  - reflexivity.
  - simpl in Hc. apply orb_false_iff in Hc as [Hc1 Hc2].
    cbn [append String.length read_line]. rewrite Hc1.
    now rewrite IH.
Qed.

Lemma read_line_le (n : nat) : forall fp,
  (String.length (snd (read_line n fp)) <= String.length fp)%nat.
Proof.
  induction n as [|n IH]; intros fp; [simpl; lia|].
  destruct fp as [|c fp]; [simpl; lia|].
  cbn [read_line]. destruct (Ascii.eqb c LF); [simpl; lia|].
  specialize (IH fp). destruct (read_line n fp) as [l r]. simpl in *. lia.
Qed.

Lemma read_line_shorter (n : nat) (c : ascii) (fp : string) :
  (String.length (snd (read_line (S n) (String c fp))) <= String.length fp)%nat.
Proof.
  cbn [read_line]. destruct (Ascii.eqb c LF); [simpl; lia|].
  assert (H := read_line_le n fp).
  destruct (read_line n fp) as [l r]. exact H.
Qed.

Lemma read_line_eof (s : string) : forall n,
  contains LF s = false -> (String.length s <= n)%nat ->
  read_line n s = (s, "").
Proof.
  induction s as [|c s IH]; intros n Hc Hn.
  - destruct n; reflexivity.
  - destruct n as [|n]; [simpl in Hn; lia|].
    simpl in Hc. apply orb_false_iff in Hc as [Hc1 Hc2].
    cbn [read_line]. rewrite Hc1.
    rewrite IH by (simpl in Hn; try assumption; lia). reflexivity.
Qed.

(** *** The loop over the lines *)

Lemma parse_lines_fuel (f1 : nat) : forall f2 fp p,
  (String.length fp <= f1)%nat -> (String.length fp <= f2)%nat ->
  parse_lines atof f1 fp p = parse_lines atof f2 fp p.
Proof.
  induction f1 as [|f1 IH]; intros f2 fp p H1 H2.
  - destruct fp; [|simpl in H1; lia]. destruct f2; reflexivity.
  - destruct fp as [|c fp]; [destruct f2; reflexivity|].
    destruct f2 as [|f2]; [simpl in H2; lia|].
    cbn [parse_lines fgets]. change (256 - 1)%nat with (S 254).
    assert (Hs := read_line_shorter 254 c fp).
    destruct (read_line (S 254) (String c fp)) as [buf fp'].
    simpl in Hs, H1, H2.
    destruct (parse_line atof buf p) as [q| |]; try reflexivity.
    simpl bind. apply IH; lia.
Qed.

(** The loop of [parse_params] takes the file one [fgets] buffer at a time. *)
Lemma parse_params_step (contents buf rest : string) (p : Params.t) :
  fgets 256 contents = Some (buf, rest) ->
  parse_params atof (Some contents) p
  = (p' <- parse_line atof buf p ;; parse_params atof (Some rest) p').
Proof.
  intros Hf. unfold parse_params.
  destruct contents as [|c fp]; [discriminate|].
  cbn [String.length parse_lines]. rewrite Hf.
  destruct (parse_line atof buf p) as [q| |]; try reflexivity.
  simpl bind. apply parse_lines_fuel; [|lia].
  cbn [fgets] in Hf. change (256 - 1)%nat with (S 254) in Hf.
  assert (Hs := read_line_shorter 254 c fp).
  assert (Hr : read_line (S 254) (String c fp) = (buf, rest)) by congruence.
  rewrite Hr in Hs. exact Hs.
Qed.

Lemma fgets_line (body rest : string) :
  contains LF body = false -> (String.length body <= 254)%nat ->
  fgets 256 (body ++ newline ++ rest) = Some (body ++ newline, rest).
Proof.
  intros Hc Hn. change (newline ++ rest) with (String LF rest).
  change newline with (String LF "").
  unfold fgets. rewrite read_line_line by (try assumption; simpl; lia).
  destruct body; reflexivity.
Qed.

Lemma fgets_eof (s : string) :
  s <> "" -> contains LF s = false -> (String.length s <= 255)%nat ->
  fgets 256 s = Some (s, "").
Proof.
  intros Hne Hc Hn. unfold fgets. destruct s as [|c s]; [congruence|].
  now rewrite read_line_eof.
Qed.

Lemma fgets_full (chunk rest : string) :
  contains LF chunk = false -> String.length chunk = 255%nat ->
  fgets 256 (chunk ++ rest) = Some (chunk, rest).
Proof.
  intros Hc Hn. unfold fgets. change (256 - 1)%nat with 255%nat.
  rewrite <- Hn, read_line_full by assumption.
  destruct chunk; [discriminate | reflexivity].
Qed.

(** X19. parse_params: a line that begins with [#] and an empty line are skipped,
    as long as the comment fits the buffer of [fgets]. *)
Theorem X19_parse_params_comment (body rest : string) (p : Params.t) :
  contains LF body = false -> (String.length body <= 253)%nat ->
  parse_params atof (Some ("#" ++ body ++ newline ++ rest)) p
  = parse_params atof (Some rest) p
  /\ parse_params atof (Some (newline ++ rest)) p
     = parse_params atof (Some rest) p.
Proof.
  intros Hc Hn. split.
  - rewrite (parse_params_step _ (("#" ++ body) ++ newline) rest).
    2:{ rewrite <- (fgets_line ("#" ++ body) rest) by (simpl; try assumption; lia).
        now rewrite append_assoc. }
    unfold parse_line. cbn [append c_str].
    change (Ascii.eqb "#" NUL) with false. cbn iota. reflexivity.
  - rewrite (parse_params_step _ newline rest).
    2:{ exact (fgets_line "" rest eq_refl ltac:(simpl; lia)). }
    reflexivity.
Qed.

(** X20. parse_params: a comment is over after the 255 characters [fgets] takes
    at a time; what follows them on the line is read as a line of its own. *)
Theorem X20_parse_params_long_comment (body rest : string) (p : Params.t) :
  contains LF body = false -> String.length body = 254%nat ->
  parse_params atof (Some ("#" ++ body ++ rest)) p
  = parse_params atof (Some rest) p.
Proof.
  intros Hc Hn.
  rewrite (parse_params_step _ ("#" ++ body) rest).
  2:{ rewrite <- (fgets_full ("#" ++ body) rest) by (simpl; try assumption; lia).
      now rewrite append_assoc. }
  unfold parse_line. cbn [append c_str].
  change (Ascii.eqb "#" NUL) with false. cbn iota. reflexivity.
Qed.

Lemma contains_append (c : ascii) (s t : string) :
  contains c (s ++ t) = contains c s || contains c t.
Proof.
  induction s as [|x s IH]; simpl; [reflexivity|].
  now rewrite IH, orb_assoc.
Qed.

Lemma c_str_append (s t : string) :
  contains NUL s = false -> c_str (s ++ t) = s ++ c_str t.
Proof.
  induction s as [|x s IH]; simpl; intros H; [reflexivity|].
  apply orb_false_iff in H as [H1 H2]. rewrite H1. now rewrite IH.
Qed.

Lemma token_until (c : ascii) (s rest : string) :
  contains c s = false -> token [c] (s ++ String c rest) = (s, rest).
Proof.
  induction s as [|x s IH]; simpl; intros H.
  - now rewrite Ascii.eqb_refl.
  - apply orb_false_iff in H as [H1 H2]. rewrite H1. simpl.
    now rewrite IH.
Qed.

Lemma config_option_unknown (s : string) (value : option string) (p : Params.t) :
  ~ In s config_keys ->
  config_option atof s value p = print_error "Unknown option in config file.".
Proof.
  intros Hn. unfold config_option, strcmp_eq.
  repeat match goal with
  | |- context [String.eqb s ?k] =>
      destruct (String.eqb_spec s k) as [E|_];
      [exfalso; apply Hn; rewrite E; simpl; tauto|]
  end.
  reflexivity.
Qed.

(** X21. parse_params: a line [key=value] whose key, the text before the first
    [=], is not one of the 27 keys ends the call in an error; the comparison
    is exact, so a key followed by a blank or written in capitals is not
    known. *)
Theorem X21_parse_params_unknown_key (key value rest : string) (p : Params.t) :
  key <> "" -> prefix "#" key = false ->
  contains "=" key = false -> contains LF key = false ->
  contains NUL key = false -> contains LF value = false ->
  (String.length key + String.length value <= 253)%nat ->
  ~ In key config_keys ->
  parse_params atof (Some (key ++ "=" ++ value ++ newline ++ rest)) p
  = Fatal ("ERROR: Unknown option in config file." ++ newline) 1.
Proof.
  intros Hne Hp He Hl Hz Hv Hlen Hn.
  rewrite (parse_params_step _ ((key ++ "=" ++ value) ++ newline) rest).
  2:{ rewrite <- (fgets_line (key ++ "=" ++ value) rest).
      - now rewrite !append_assoc.
      - rewrite !contains_append, Hl, Hv. reflexivity.
      - rewrite !length_append. simpl. lia. }
  assert (Hline : parse_line atof ((key ++ "=" ++ value) ++ newline) p
                  = print_error "Unknown option in config file.").
  { unfold parse_line. rewrite !append_assoc.
    rewrite c_str_append by exact Hz.
    destruct key as [|c key]; [congruence|].
    simpl in Hp, He, Hl. apply orb_false_iff in He as [He1 He2].
    apply orb_false_iff in Hl as [Hl1 Hl2].
    cbn [append].
    assert (Hc : Ascii.eqb c "#" = false).
    { destruct (Ascii.eqb_spec c "#") as [->|]; [|reflexivity].
      destruct key; discriminate. }
    rewrite Hc, Hl1.
    unfold strtok. cbn [skip_delims is_delim existsb]. rewrite He1. cbn [orb].
    change ("=" ++ value ++ newline) with (String "=" (value ++ newline)).
    cbn [c_str]. change (Ascii.eqb "=" NUL) with false. cbn iota.
    change (String c (key ++ String "=" (c_str (value ++ newline))))
      with (String c key ++ String "=" (c_str (value ++ newline))).
    rewrite token_until by (simpl; now rewrite He1, He2).
    apply config_option_unknown. exact Hn. }
  rewrite Hline. reflexivity.
Qed.

Lemma token_value (s rest : string) :
  contains "=" s = false -> contains LF s = false ->
  token ["="%char; LF] (s ++ String LF rest) = (s, rest).
Proof.
  induction s as [|x s IH]; simpl; intros H1 H2.
  - reflexivity.
  - apply orb_false_iff in H1 as [H1 H1']. apply orb_false_iff in H2 as [H2 H2'].
    rewrite H1, H2. simpl. now rewrite IH.
Qed.

(** A line [key=value] reaches the chain of comparisons with the two
    tokens [key] and [value]. *)
Lemma parse_line_key_value (key v : string) (p : Params.t) :
  key <> "" -> prefix "#" key = false ->
  contains "=" key = false -> contains LF key = false -> contains NUL key = false ->
  v <> "" -> contains "=" v = false -> contains LF v = false ->
  contains NUL v = false ->
  parse_line atof ((key ++ "=" ++ v) ++ newline) p = config_option atof key (Some v) p.
Proof.
  intros Hne Hp He Hl Hz Hvn Hve Hvl Hvz.
  unfold parse_line. rewrite !append_assoc.
  rewrite c_str_append by exact Hz.
  change ("=" ++ v ++ newline) with (String "=" (v ++ newline)).
  cbn [c_str]. change (Ascii.eqb "=" NUL) with false. cbn iota.
  rewrite c_str_append by exact Hvz.
  change (c_str newline) with newline.
  destruct key as [|c key]; [congruence|].
  simpl in Hp, He, Hl. apply orb_false_iff in He as [He1 He2].
  apply orb_false_iff in Hl as [Hl1 Hl2].
  cbn [append].
  assert (Hc : Ascii.eqb c "#" = false).
  { destruct (Ascii.eqb_spec c "#") as [->|]; [|reflexivity].
    destruct key; discriminate. }
  rewrite Hc, Hl1.
  unfold strtok at 1. cbn [skip_delims is_delim existsb]. rewrite He1. cbn [orb].
  change (String c (key ++ String "=" (v ++ newline)))
    with (String c key ++ String "=" (v ++ newline)).
  rewrite token_until by (simpl; now rewrite He1, He2).
  destruct v as [|x v]; [congruence|].
  simpl in Hve, Hvl. apply orb_false_iff in Hve as [Hv1 Hv2].
  apply orb_false_iff in Hvl as [Hv3 Hv4].
  unfold strtok. cbn [append skip_delims is_delim existsb]. rewrite Hv1, Hv3. cbn [orb].
  change (String x (v ++ newline)) with (String x v ++ String LF "").
  rewrite token_value by (simpl; rewrite ?Hv1, ?Hv2, ?Hv3, ?Hv4; reflexivity).
  reflexivity.
Qed.

Lemma parse_params_int_line (key v rest : string)
    (set : Z -> Params.t -> Params.t) (p : Params.t) :
  In (key, set) int_keys ->
  v <> "" -> contains "=" v = false -> contains LF v = false ->
  contains NUL v = false -> (String.length v <= 230)%nat ->
  INT_MIN <= strtol10 v <= INT_MAX ->
  parse_params atof (Some (key ++ "=" ++ v ++ newline ++ rest)) p
  = parse_params atof (Some rest) (set (strtol10 v) p).
Proof.
  intros Hin Hvn Hve Hvl Hvz Hlen Hr.
  assert (Hat : atoi (Some v) = Ok (strtol10 v)).
  { unfold atoi. destruct (Z.leb_spec INT_MIN (strtol10 v)); [|lia].
    destruct (Z.leb_spec (strtol10 v) INT_MAX); [|lia]. reflexivity. }
  unfold atoi in Hat.
  assert (Hk : key <> "" /\ prefix "#" key = false /\ contains "=" key = false
               /\ contains LF key = false /\ contains NUL key = false
               /\ (String.length key <= 20)%nat
               /\ config_option atof key (Some v) p = Ok (set (strtol10 v) p)).
  { simpl in Hin.
    repeat (destruct Hin as [Hin|Hin];
            [injection Hin as <- <-;
             repeat split; try reflexivity; try discriminate; try (simpl; lia);
             unfold config_option; simpl; unfold assign; rewrite Hat; reflexivity|]).
    contradiction. }
  destruct Hk as (K1 & K2 & K3 & K4 & K5 & K6 & K7).
  rewrite (parse_params_step _ ((key ++ "=" ++ v) ++ newline) rest).
  2:{ rewrite <- (fgets_line (key ++ "=" ++ v) rest).
      - now rewrite !append_assoc.
      - rewrite !contains_append, K4, Hvl. reflexivity.
      - rewrite !length_append. simpl. lia. }
  rewrite parse_line_key_value by assumption.
  rewrite K7. reflexivity.
Qed.

(** X22. parse_params: a line [key=value] for one of the integer keys stores
    the number [value] begins with ([0] when it begins with none) in the
    field of the key and the call goes on with the next line; later lines
    are applied after earlier ones. *)
Theorem X22_parse_params_assigns_int (key v rest : string)
    (set : Z -> Params.t -> Params.t) (p : Params.t) :
  In (key, set) int_keys ->
  v <> "" -> contains "=" v = false -> contains LF v = false ->
  contains NUL v = false -> (String.length v <= 230)%nat ->
  INT_MIN <= strtol10 v <= INT_MAX ->
  parse_params atof (Some (key ++ "=" ++ v ++ newline ++ rest)) p
  = parse_params atof (Some rest) (set (strtol10 v) p).
Proof. exact (parse_params_int_line key v rest set p). Qed.

(** X23. parse_params reads an integer back as [%d] prints it: for every [int]
    [z], the line [key=z] written with [%d] stores [z] in the field of the
    key. *)
Theorem X23_parse_params_reads_back (key rest : string) (z : Z)
    (set : Z -> Params.t -> Params.t) (p : Params.t) :
  In (key, set) int_keys ->
  INT_MIN <= z <= INT_MAX ->
  parse_params atof (Some (key ++ "=" ++ fmt_ld z ++ newline ++ rest)) p
  = parse_params atof (Some rest) (set z p).
Proof.
  intros Hin Hz.
  assert (Hl : (1 <= String.length (fmt_ld z) <= 65)%nat)
    by (apply fmt_ld_length; unfold INT_MIN, INT_MAX in Hz; lia).
  rewrite (parse_params_int_line key (fmt_ld z) rest set p Hin).
  - now rewrite strtol10_fmt_ld.
  - intros E. rewrite E in Hl. simpl in Hl. lia.
  - apply fmt_ld_plain; [reflexivity | discriminate].
  - apply fmt_ld_plain; [reflexivity | discriminate].
  - apply fmt_ld_plain; [reflexivity | discriminate].
  - lia.
  - now rewrite strtol10_fmt_ld.
Qed.

Lemma parse_line_no_value (key : string) (p : Params.t) :
  In key config_keys ->
  parse_line atof (key ++ "=" ++ newline) p = Undefined
  /\ parse_line atof (key ++ "=") p = Undefined
  /\ parse_line atof key p = Undefined
  /\ parse_line atof (key ++ newline) p
     = print_error "Unknown option in config file."
  /\ contains LF key = false /\ (String.length key <= 20)%nat /\ key <> "".
Proof.
  intros Hin. simpl in Hin.
  repeat (destruct Hin as [<-|Hin];
          [repeat split; try reflexivity; try (simpl; lia); discriminate|]).
  contradiction.
Qed.

(** X24. parse_params: a known key with nothing after its [=], or alone on the
    last line of a file that does not end in a newline, makes the code pass
    the [NULL] of [strtok] to [atoi], [strcasecmp] or [strlen]: undefined
    behaviour.  A known key alone on a line that ends in a newline is an
    unknown option, since the newline is then part of the text compared. *)
Theorem X24_parse_params_missing_value (key rest : string) (p : Params.t) :
  In key config_keys ->
  parse_params atof (Some (key ++ "=" ++ newline ++ rest)) p = Undefined
  /\ parse_params atof (Some (key ++ "=")) p = Undefined
  /\ parse_params atof (Some key) p = Undefined
  /\ parse_params atof (Some (key ++ newline ++ rest)) p
     = Fatal ("ERROR: Unknown option in config file." ++ newline) 1.
Proof.
  intros Hin.
  destruct (parse_line_no_value key p Hin) as (H1 & H2 & H3 & H4 & Hl & Hn & Hne).
  repeat split.
  - rewrite (parse_params_step _ ((key ++ "=") ++ newline) rest).
    2:{ rewrite <- (fgets_line (key ++ "=") rest).
        - now rewrite !append_assoc.
        - rewrite contains_append, Hl. reflexivity.
        - rewrite length_append. simpl. lia. }
    rewrite append_assoc, H1. reflexivity.
  - rewrite (parse_params_step _ (key ++ "=") "").
    2:{ apply fgets_eof.
        - destruct key; discriminate.
        - rewrite contains_append, Hl. reflexivity.
        - rewrite length_append. simpl. lia. }
    rewrite H2. reflexivity.
  - rewrite (parse_params_step _ key "").
    2:{ apply fgets_eof; [exact Hne | exact Hl | lia]. }
    rewrite H3. reflexivity.
  - rewrite (parse_params_step _ (key ++ newline) rest).
    2:{ apply fgets_line; [exact Hl | lia]. }
    rewrite H4. reflexivity.
Qed.


(** ** The boundary condition, and [print_params] *)

Lemma boundary_condition_range (s : option string) (z : Z) :
  boundary_condition s = Ok z -> 0 <= z <= 2.
Proof.
  unfold boundary_condition. destruct s as [s|]; [|discriminate].
  repeat match goal with
  | |- context [strcasecmp_eq s ?k] => destruct (strcasecmp_eq s k)
  end; intros H; try discriminate; injection H as <-; lia.
Qed.

Lemma assign_bc {A : Type} (m : outcome A) (set : A -> Params.t -> Params.t)
    (p p' : Params.t) :
  (forall v, Params.bc (set v p) = Params.bc p) ->
  assign m set p = Ok p' -> Params.bc p' = Params.bc p.
Proof.
  intros Hs. unfold assign. destruct m as [v| |]; try discriminate.
  simpl. intros H. injection H as <-. apply Hs.
Qed.

Lemma assign_set_bc (m : outcome Z) (p p' : Params.t) :
  (forall z, m = Ok z -> 0 <= z <= 2) ->
  assign m Params.set_bc p = Ok p' -> 0 <= Params.bc p' <= 2.
Proof.
  intros Hm. unfold assign. destruct m as [v| |]; try discriminate.
  simpl. intros H. injection H as <-. simpl. now apply Hm.
Qed.

Lemma cli_option_bc (arg : string) (value : option string) (p p' : Params.t) :
  0 <= Params.bc p <= 2 ->
  cli_option atof arg value p = Ok p' -> 0 <= Params.bc p' <= 2.
Proof.
  intros Hb. unfold cli_option, with_value.
  repeat match goal with
  | |- context [strcmp_eq arg ?k] => destruct (strcmp_eq arg k)
  end;
  (destruct value as [v|]; [|discriminate]) || discriminate || idtac;
  intros H;
  first [ apply assign_bc in H; [rewrite H; exact Hb | reflexivity]
        | apply assign_set_bc in H;
          [exact H | intros z; apply boundary_condition_range]
        | discriminate ].
Qed.

Lemma cli_loop_bc (args : list string) : forall p p',
  0 <= Params.bc p <= 2 ->
  cli_loop atof args p = Ok p' -> 0 <= Params.bc p' <= 2.
Proof.
  induction args as [|a|a b l IH] using pair_induction; intros p p' Hb H.
  - injection H as <-. exact Hb.
  - eapply cli_option_bc; eassumption.
  - cbn [cli_loop] in H.
    destruct (cli_option atof a (Some b) p) as [q| |] eqn:E; try discriminate.
    simpl bind in H. eapply IH; [|exact H].
    eapply cli_option_bc; eassumption.
Qed.

Lemma read_CLI_bc (argv : list string) (p p' : Params.t) :
  0 <= Params.bc p <= 2 ->
  read_CLI atof argv p = Ok p' -> 0 <= Params.bc p' <= 2.
Proof.
  intros Hb. unfold read_CLI.
  destruct (cli_loop atof (tl argv) p) as [q| |] eqn:E; try discriminate.
  simpl bind. intros H. apply validate_Ok in H as [-> _].
  change (Params.bc (default_files q)) with (Params.bc q).
  eapply cli_loop_bc; eassumption.
Qed.

Lemma config_option_bc (s : string) (value : option string) (p p' : Params.t) :
  0 <= Params.bc p <= 2 ->
  config_option atof s value p = Ok p' -> 0 <= Params.bc p' <= 2.
Proof.
  intros Hb. unfold config_option.
  repeat match goal with
  | |- context [strcmp_eq s ?k] => destruct (strcmp_eq s k)
  end;
  intros H;
  first [ apply assign_bc in H; [rewrite H; exact Hb | reflexivity]
        | apply assign_set_bc in H;
          [exact H | intros z; apply boundary_condition_range]
        | discriminate ].
Qed.

Lemma parse_line_bc (buf : string) (p p' : Params.t) :
  0 <= Params.bc p <= 2 ->
  parse_line atof buf p = Ok p' -> 0 <= Params.bc p' <= 2.
Proof.
  intros Hb. unfold parse_line.
  destruct (c_str buf) as [|c r]; [intros H; injection H as <-; exact Hb|].
  destruct (Ascii.eqb c "#"); [intros H; injection H as <-; exact Hb|].
  destruct (Ascii.eqb c LF); [intros H; injection H as <-; exact Hb|].
  destruct (strtok (String c r) ["="%char]) as [[s saved]|];
    [|intros H; injection H as <-; exact Hb].
  apply config_option_bc. exact Hb.
Qed.

Lemma parse_lines_bc (fuel : nat) : forall fp p p',
  0 <= Params.bc p <= 2 ->
  parse_lines atof fuel fp p = Ok p' -> 0 <= Params.bc p' <= 2.
Proof.
  induction fuel as [|k IH]; intros fp p p' Hb H.
  - injection H as <-. exact Hb.
  - cbn [parse_lines] in H.
    destruct (fgets 256 fp) as [[buf fp']|]; [|injection H as <-; exact Hb].
    destruct (parse_line atof buf p) as [q| |] eqn:E; try discriminate.
    simpl bind in H. eapply IH; [|exact H].
    eapply parse_line_bc; eassumption.
Qed.

(** X25. Neither [read_CLI] nor [parse_params] ever stores a boundary condition
    other than 0, 1 or 2; with such a boundary condition [print_params]
    has a name to print for it and returns. *)
Theorem X25_print_params_defined (argv : list string) (file : option string)
    (p p' : Params.t) :
  0 <= Params.bc p <= 2 ->
  read_CLI atof argv p = Ok p' \/ parse_params atof file p = Ok p' ->
  0 <= Params.bc p' <= 2 /\ exists text, print_params p' = Ok text.
Proof.
  intros Hb H.
  assert (Hb' : 0 <= Params.bc p' <= 2).
  { destruct H as [H|H].
    - eapply read_CLI_bc; eassumption.
    - destruct file as [contents|]; [|discriminate].
      eapply parse_lines_bc; eassumption. }
  split; [exact Hb'|].
  unfold print_params.
  assert (Hc : Params.bc p' = 0 \/ Params.bc p' = 1 \/ Params.bc p' = 2) by lia.
  destruct Hc as [-> | [-> | ->]]; cbn [Z.eqb]; eexists; reflexivity.
Qed.

End InputFacts.

(** ** The source file *)

(** X26. save_source writes the [n] particles of a bank, load_source demands as
    many records as the bank it fills has capacity ([sz]) and leaves the
    count [n] of that bank as it was.  A saved source can therefore be loaded
    into a bank whose capacity is at most the number saved, and into no
    larger one: a bank with spare capacity cannot be reloaded into a bank
    of its own size. *)
Theorem X26_source_round_trip (b b' : Bank.t) (room : Z) :
  wf_bank b -> wf_bank b' -> Bank.n b <= room ->
  save_source b (Some room) = Ok (live b)
  /\ (Bank.sz b' <= Bank.n b ->
      load_source b' (Some (live b))
      = Ok (Bank.mk (firstn (Z.to_nat (Bank.sz b')) (live b))
              (Bank.n b') (Bank.sz b')))
  /\ (Bank.n b < Bank.sz b' ->
      load_source b' (Some (live b))
      = Fatal ("ERROR: Error loading source." ++ newline) 1).
Proof.
  intros (Hn & Hsz & _) (Hn' & Hsz' & _) Hroom.
  assert (Hlive : len (live b) = Bank.n b) by (apply live_length; lia).
  split; [|split].
  - unfold save_source. rewrite Z.min_l by lia.
    destruct (Z.ltb_spec (len (Bank.p b)) (Bank.n b)); [lia|].
    rewrite Z.eqb_refl. reflexivity.
  - intros Hle. unfold load_source. rewrite Hlive, Z.min_l by lia.
    rewrite memcpy_in_range by lia.
    rewrite Z.eqb_refl. cbn [negb firstn skipn app Z.to_nat Z.add].
    rewrite skipn_all2 by (unfold len in Hsz'; lia).
    now rewrite app_nil_r.
  - intros Hlt. unfold load_source. rewrite Hlive, Z.min_r by lia.
    rewrite memcpy_in_range by lia.
    destruct (Z.eqb_spec (Bank.n b) (Bank.sz b')); [lia|]. reflexivity.
Qed.

(** ** Worked examples *)

Lemma example_accepted : accepted (Params.set_n_batches 30 example_params).
Proof.
  unfold accepted, not_below_zero, not_at_or_below_zero. simpl.
  repeat split; try lia; lra.
Qed.

Lemma X14_witness :
  accepted (default_files (Params.set_n_batches 30 example_params))
  /\ files_named (default_files (Params.set_n_batches 30 example_params)).
Proof.
  apply (X14_read_CLI_accepted (fun _ => DFin 0)
           ["simple_transport"; "-batches"; "30"] example_params).
  unfold read_CLI. cbn [tl].
  change (cli_loop (fun _ => DFin 0) ["-batches"; "30"] example_params)
    with (Ok (Params.set_n_batches 30 example_params)).
  cbn [bind]. apply validate_accepted. exact example_accepted.
Defined.

Lemma X16_witness :
  read_CLI (fun _ => DFin 0) ["simple_transport"; "-bc"] example_params
  = Fatal ("ERROR: Error reading command line input '-bc'" ++ newline) 1.
Proof.
  apply (X16_read_CLI_missing_value (fun _ => DFin 0) "simple_transport" "-bc" []
           example_params example_params).
  - simpl. tauto.
  - reflexivity.
Defined.

Lemma X17_witness :
  read_CLI (fun _ => DFin 0) ["simple_transport"; "-Batches"; "5"] example_params
  = Fatal ("ERROR: Error reading command line input" ++ newline) 1.
Proof.
  apply (X17_read_CLI_unknown_option (fun _ => DFin 0) "simple_transport" "-Batches"
           [] ["5"] example_params example_params).
  - simpl. intros H. repeat (destruct H as [H|H]; [discriminate H|]). exact H.
  - reflexivity.
Defined.

Lemma X18_witness :
  read_CLI (fun _ => DFin 0) ["simple_transport"; "-particles"; "many"]
    example_params
  = Fatal ("ERROR: Number of particles must be greater than 0" ++ newline) 1.
Proof.
  apply (X18_read_CLI_particles (fun _ => DFin 0) "simple_transport" "many" [] []
           example_params example_params).
  - reflexivity.
  - change (strtol10 "many") with 0. unfold LLONG_MIN. lia.
Defined.

Lemma X19_witness :
  parse_params (fun _ => DFin 0)
    (Some ("#" ++ " number of batches" ++ newline ++ "batches=3" ++ newline))
    example_params
  = parse_params (fun _ => DFin 0) (Some ("batches=3" ++ newline)) example_params
  /\ parse_params (fun _ => DFin 0)
       (Some (newline ++ "batches=3" ++ newline)) example_params
     = parse_params (fun _ => DFin 0) (Some ("batches=3" ++ newline)) example_params.
Proof.
  apply (X19_parse_params_comment (fun _ => DFin 0) " number of batches"
           ("batches=3" ++ newline) example_params).
  - reflexivity.
  - simpl. lia.
Defined.

Lemma X20_witness :
  parse_params (fun _ => DFin 0)
    (Some ("#" ++ spaces 254 ++ "the end of a long comment" ++ newline))
    example_params
  = parse_params (fun _ => DFin 0)
      (Some ("the end of a long comment" ++ newline)) example_params.
Proof.
  apply (X20_parse_params_long_comment (fun _ => DFin 0) (spaces 254)
           ("the end of a long comment" ++ newline) example_params).
  - reflexivity.
  - reflexivity.
Defined.

Lemma X21_witness :
  parse_params (fun _ => DFin 0)
    (Some ("particles " ++ "=" ++ " 10" ++ newline ++ "")) example_params
  = Fatal ("ERROR: Unknown option in config file." ++ newline) 1.
Proof.
  apply (X21_parse_params_unknown_key (fun _ => DFin 0) "particles " " 10" ""
           example_params); try reflexivity.
  - discriminate.
  - simpl. lia.
  - simpl. intros H. repeat (destruct H as [H|H]; [discriminate H|]). exact H.
Defined.

Lemma X22_witness :
  parse_params (fun _ => DFin 0)
    (Some ("batches" ++ "=" ++ "12 per run" ++ newline ++ "")) example_params
  = parse_params (fun _ => DFin 0) (Some "")
      (Params.set_n_batches (strtol10 "12 per run") example_params).
Proof.
  apply (X22_parse_params_assigns_int (fun _ => DFin 0) "batches" "12 per run" ""
           Params.set_n_batches example_params); try reflexivity.
  - simpl. tauto.
  - discriminate.
  - simpl. lia.
  - change (strtol10 "12 per run") with 12. unfold INT_MIN, INT_MAX. lia.
Defined.

Lemma X23_witness :
  parse_params (fun _ => DFin 0)
    (Some ("seed" ++ "=" ++ fmt_ld (-7) ++ newline ++ "")) example_params
  = parse_params (fun _ => DFin 0) (Some "") (Params.set_seed (-7) example_params).
Proof.
  apply (X23_parse_params_reads_back (fun _ => DFin 0) "seed" "" (-7)
           Params.set_seed example_params).
  - simpl. tauto.
  - unfold INT_MIN, INT_MAX. lia.
Defined.

Lemma X24_witness :
  parse_params (fun _ => DFin 0) (Some ("seed" ++ "=" ++ newline ++ ""))
    example_params = Undefined
  /\ parse_params (fun _ => DFin 0) (Some ("seed" ++ "=")) example_params
     = Undefined
  /\ parse_params (fun _ => DFin 0) (Some "seed") example_params = Undefined
  /\ parse_params (fun _ => DFin 0) (Some ("seed" ++ newline ++ ""))
       example_params
     = Fatal ("ERROR: Unknown option in config file." ++ newline) 1.
Proof.
  apply (X24_parse_params_missing_value (fun _ => DFin 0) "seed" "" example_params).
  simpl. tauto.
Defined.

Lemma X25_witness :
  0 <= Params.bc (Params.set_bc 2 example_params) <= 2
  /\ exists text, print_params (Params.set_bc 2 example_params) = Ok text.
Proof.
  apply (X25_print_params_defined (fun _ => DFin 0) []
           (Some ("bc=Periodic" ++ newline)) example_params).
  - simpl. lia.
  - right. reflexivity.
Defined.

Lemma X26_witness :
  save_source (Bank.mk [site 1; site 2; site 3] 2 3) (Some 5)
  = Ok (live (Bank.mk [site 1; site 2; site 3] 2 3))
  /\ (Bank.sz (bank_of [site 0; site 0])
        <= Bank.n (Bank.mk [site 1; site 2; site 3] 2 3) ->
      load_source (bank_of [site 0; site 0])
        (Some (live (Bank.mk [site 1; site 2; site 3] 2 3)))
      = Ok (Bank.mk
              (firstn (Z.to_nat (Bank.sz (bank_of [site 0; site 0])))
                 (live (Bank.mk [site 1; site 2; site 3] 2 3)))
              (Bank.n (bank_of [site 0; site 0]))
              (Bank.sz (bank_of [site 0; site 0]))))
  /\ (Bank.n (Bank.mk [site 1; site 2; site 3] 2 3)
        < Bank.sz (bank_of [site 0; site 0]) ->
      load_source (bank_of [site 0; site 0])
        (Some (live (Bank.mk [site 1; site 2; site 3] 2 3)))
      = Fatal ("ERROR: Error loading source." ++ newline) 1).
Proof.
  apply (X26_source_round_trip (Bank.mk [site 1; site 2; site 3] 2 3)
           (bank_of [site 0; site 0]) 5).
  - unfold wf_bank, len, ULONG_MOD. simpl. lia.
  - exact (wf_bank_of [site 0; site 0] eq_refl).
  - simpl. lia.
Defined.

(** ** [write_source] *)

Lemma dtab_nth_error {T : Type} (f : Z -> T) (N k : nat) :
  (k < N)%nat -> nth_error (dtab f N) k = Some (f (Z.of_nat k)).
Proof.
  intros Hk. unfold dtab.
  rewrite nth_error_map, nth_error_seq.
  destruct (k <? N)%nat eqn:E; [reflexivity|].
  apply Nat.ltb_ge in E. lia.
Qed.

Lemma dtab_ext {T : Type} (f g : Z -> T) (N : nat) :
  (forall c, 0 <= c < Z.of_nat N -> f c = g c) -> dtab f N = dtab g N.
Proof.
  intros H. unfold dtab. apply map_ext_in.
  intros c Hc. apply in_seq in Hc. apply H. lia.
Qed.

Lemma dtab_length {T : Type} (f : Z -> T) (N : nat) : len (dtab f N) = Z.of_nat N.
Proof. unfold len, dtab. now rewrite length_map, length_seq. Qed.

Lemma upd_dtab {T : Type} (f : Z -> T) (N k : nat) (v : T) :
  (k < N)%nat ->
  upd (dtab f N) k v = dtab (fun c => if c =? Z.of_nat k then v else f c) N.
Proof.
  intros Hk. unfold dtab.
  replace N with (k + S (N - S k))%nat by lia.
  rewrite seq_app. simpl. rewrite !map_app. simpl.
  rewrite Z.eqb_refl.
  pose proof (upd_middle (map (fun c => f (Z.of_nat c)) (seq 0 k))
                (map (fun c => f (Z.of_nat c)) (seq (S k) (N - S k)))
                (f (Z.of_nat k)) v) as Hu.
  rewrite length_map, length_seq in Hu. rewrite Hu.
  f_equal; [|f_equal]; apply map_ext_in; intros c Hc; apply in_seq in Hc;
    (replace (Z.of_nat c =? Z.of_nat k) with false
       by (symmetry; apply Z.eqb_neq; lia)); reflexivity.
Qed.

Lemma load_dtab {T : Type} (f : Z -> T) (N : nat) (k : Z) :
  0 <= k < Z.of_nat N -> load (dtab f N) k = Ok (f k).
Proof.
  intros Hk. apply load_nth_error; [lia|].
  rewrite dtab_nth_error by lia. now rewrite Z2Nat.id by lia.
Qed.

Lemma store_dtab {T : Type} (f : Z -> T) (N : nat) (k : Z) (v : T) :
  0 <= k < Z.of_nat N ->
  store (dtab f N) k v = Ok (dtab (fun c => if c =? k then v else f c) N).
Proof.
  intros Hk. rewrite store_in_range by (rewrite dtab_length; lia).
  rewrite upd_dtab by lia. now rewrite Z2Nat.id by lia.
Qed.

Lemma repeat_dtab {T : Type} (v : T) (N : nat) : repeat v N = dtab (fun _ => v) N.
Proof.
  unfold dtab. generalize 0%nat.
  induction N as [|N IH]; intros s; simpl; [reflexivity|].
  f_equal. apply IH.
Qed.

Lemma for_loop_zseq {St : Type} (body : Z -> St -> outcome St)
    (f : St -> Z -> St) (k : nat) : forall i s,
  (forall j t, i <= j < i + Z.of_nat k -> body j t = Ok (f t j)) ->
  for_loop k i body s = Ok (fold_left f (zseq i k) s).
Proof.
  induction k as [|k IH]; intros i s Hb; [reflexivity|].
  cbn [for_loop zseq fold_left].
  rewrite Hb by lia. cbn [bind].
  apply IH. intros j t Hj. apply Hb. lia.
Qed.

Lemma fold_left_zseq_ext {St : Type} (f g : St -> Z -> St) (k : nat) : forall i s,
  (forall j t, i <= j < i + Z.of_nat k -> f t j = g t j) ->
  fold_left f (zseq i k) s = fold_left g (zseq i k) s.
Proof.
  induction k as [|k IH]; intros i s H; [reflexivity|].
  cbn [zseq fold_left]. rewrite H by lia.
  apply IH. intros j t Hj. apply H. lia.
Qed.

(** Sums of integers over a range. *)
Lemma Zsum_map_plus (f g : Z -> Z) (l : list Z) :
  Zsum (map (fun c => f c + g c) l) = Zsum (map f l) + Zsum (map g l).
Proof.
  induction l as [|c l IH]; simpl; [reflexivity|]. rewrite IH. lia.
Qed.

Lemma Zsum_map_ext (f g : Z -> Z) (l : list Z) :
  (forall c, In c l -> f c = g c) -> Zsum (map f l) = Zsum (map g l).
Proof.
  intros H. f_equal. apply map_ext_in. exact H.
Qed.

Lemma Zsum_map_zero (l : list Z) : Zsum (map (fun _ => 0) l) = 0.
Proof. induction l as [|c l IH]; simpl; [reflexivity|]. exact IH. Qed.

Lemma in_zseq (k : nat) : forall i c, In c (zseq i k) <-> i <= c < i + Z.of_nat k.
Proof.
  induction k as [|k IH]; intros i c; cbn [zseq In].
  - lia.
  - rewrite IH. lia.
Qed.

Lemma Zsum_indicator (v : Z) (k : nat) : forall i,
  Zsum (map (fun c => if v =? c then 1 else 0) (zseq i k))
  = if (i <=? v) && (v <? i + Z.of_nat k) then 1 else 0.
Proof.
  induction k as [|k IH]; intros i.
  - simpl. destruct (Z.leb_spec i v), (Z.ltb_spec v (i + 0)); simpl; lia.
  - cbn [zseq map Zsum fold_right]. fold (Zsum (map (fun c => if v =? c then 1 else 0)
                                                   (zseq (i + 1) k))).
    rewrite IH.
    destruct (Z.eqb_spec v i), (Z.leb_spec (i + 1) v), (Z.leb_spec i v),
      (Z.ltb_spec v (i + 1 + Z.of_nat k)), (Z.ltb_spec v (i + Z.of_nat (S k)));
      simpl; lia.
Qed.

Section OutputFacts.

Context {D : Type}.
Variable A : Machine.arith D.
Variable fmt_e : D -> string.

(** The second loop divides every entry. *)
Lemma normalize_loop (bn : Z) (f : Z -> D) (N : nat) :
  for_loop N 0 (normalize_body A bn) (dtab f N)
  = Ok (dtab (fun c => Machine.f_div A (f c) (Machine.f_of_ulong A bn)) N).
Proof.
  set (h := fun c => Machine.f_div A (f c) (Machine.f_of_ulong A bn)).
  assert (H : forall k i, (i + k <= N)%nat ->
            for_loop k (Z.of_nat i) (normalize_body A bn)
              (dtab (fun c => if c <? Z.of_nat i then h c else f c) N)
            = Ok (dtab (fun c => if c <? Z.of_nat (i + k) then h c else f c) N)).
  { induction k as [|k IH]; intros i Hk.
    - rewrite Nat.add_0_r. reflexivity.
    - cbn [for_loop]. unfold normalize_body at 1.
      rewrite load_dtab by lia. cbn [bind].
      rewrite Z.ltb_irrefl. rewrite store_dtab by lia. cbn [bind].
      replace (Z.of_nat i + 1) with (Z.of_nat (S i)) by lia.
      rewrite (dtab_ext _ (fun c => if c <? Z.of_nat (S i) then h c else f c)).
      + rewrite IH by lia. f_equal. apply dtab_ext. intros c _.
        replace (S i + k)%nat with (i + S k)%nat by lia. reflexivity.
      + intros c _.
        destruct (Z.eqb_spec c (Z.of_nat i)) as [->|Hne].
        * destruct (Z.ltb_spec (Z.of_nat i) (Z.of_nat (S i))); [reflexivity|lia].
        * destruct (Z.ltb_spec c (Z.of_nat i)), (Z.ltb_spec c (Z.of_nat (S i)));
            try reflexivity; lia. }
  specialize (H N 0%nat ltac:(lia)).
  rewrite (dtab_ext f (fun c => if c <? Z.of_nat 0 then h c else f c)).
  2:{ intros c Hc. destruct (Z.ltb_spec c (Z.of_nat 0)); [lia | reflexivity]. }
  change (Z.of_nat 0) with 0 in H at 1. rewrite H.
  f_equal. apply dtab_ext. intros c Hc.
  destruct (Z.ltb_spec c (Z.of_nat (0 + N))); [reflexivity | lia].
Qed.

Lemma lin_count_cons n dx dy (q : Machine.Particle D)
    (l : list (Machine.Particle D)) (c : Z) :
  lin_count A n dx dy (q :: l) c
  = (if match lin_index A n dx dy q with
        | Ok k => k =? c
        | _ => false
        end then 1 else 0)
    + lin_count A n dx dy l c.
Proof.
  unfold lin_count, len. cbn [filter].
  destruct (match lin_index A n dx dy q with
            | Ok k => k =? c
            | _ => false
            end); cbn [List.length]; lia.
Qed.

Lemma lin_count_bounds n dx dy (l : list (Machine.Particle D)) (c : Z) :
  0 <= lin_count A n dx dy l c <= len l.
Proof.
  unfold lin_count, len.
  pose proof (filter_length_le
                (fun q => match lin_index A n dx dy q with
                          | Ok k => k =? c
                          | _ => false
                          end) l).
  lia.
Qed.

Lemma lin_count_app n dx dy (l1 l2 : list (Machine.Particle D)) (c : Z) :
  lin_count A n dx dy (l1 ++ l2) c
  = lin_count A n dx dy l1 c + lin_count A n dx dy l2 c.
Proof. unfold lin_count. rewrite filter_app. apply len_app. Qed.

Lemma counted_succ (k : Z) :
  0 <= k ->
  counted A (k + 1) = Machine.f_add A (counted A k) (Machine.f_one A).
Proof.
  intros Hk. unfold counted.
  replace (Z.to_nat (k + 1)) with (S (Z.to_nat k)) by lia.
  reflexivity.
Qed.

Section SourceCount.

Variables (b : Machine.Bank D) (n : Z) (dx dy : D) (N : nat).

Lemma source_count_step (l : Z) (q : Machine.Particle D) (f : Z -> Z) :
  0 <= l -> nth_error (Machine.p b) (Z.to_nat l) = Some q ->
  countable A n dx dy (Z.of_nat N) q ->
  (forall c, 0 <= f c) ->
  source_count_body A b n dx dy l (dtab (fun c => counted A (f c)) N)
  = Ok (dtab (fun c => counted A (f c + lin_count A n dx dy [q] c)) N).
Proof.
  intros Hl Hq [k [Ek Bk]] Hf.
  unfold source_count_body.
  rewrite (load_nth_error _ l q Hl Hq). cbn [bind].
  rewrite Ek. cbn [bind].
  rewrite load_dtab by lia. cbn [bind].
  rewrite store_dtab by lia.
  f_equal. apply dtab_ext. intros c _.
  rewrite lin_count_cons, Ek.
  change (lin_count A n dx dy [] c) with 0.
  rewrite (Z.eqb_sym k c).
  destruct (Z.eqb_spec c k) as [->|Hne].
  - rewrite Z.add_0_r. symmetry. apply counted_succ. apply Hf.
  - now rewrite !Z.add_0_r.
Qed.

Lemma source_count_loop : forall k l f,
  0 <= l -> l + Z.of_nat k <= len (Machine.p b) ->
  Forall (countable A n dx dy (Z.of_nat N))
    (firstn k (skipn (Z.to_nat l) (Machine.p b))) ->
  (forall c, 0 <= f c) ->
  for_loop k l (source_count_body A b n dx dy) (dtab (fun c => counted A (f c)) N)
  = Ok (dtab (fun c => counted A
                         (f c + lin_count A n dx dy
                                  (firstn k (skipn (Z.to_nat l) (Machine.p b))) c))
          N).
Proof.
  induction k as [|k IH]; intros l f Hl Hk Hin Hf.
  - cbn [for_loop firstn]. f_equal. apply dtab_ext. intros c _.
    change (lin_count A n dx dy [] c) with 0. now rewrite Z.add_0_r.
  - destruct (nth_error_in_range (Machine.p b) l ltac:(lia)) as [q Hq].
    rewrite (skipn_cons_nth _ _ _ Hq) in Hin |- *.
    cbn [firstn] in Hin |- *.
    inversion Hin as [|? ? Hq_in Hrest]; subst.
    cbn [for_loop]. rewrite (source_count_step l q f Hl Hq Hq_in Hf). cbn [bind].
    replace (Z.to_nat (l + 1)) with (S (Z.to_nat l)) in IH by lia.
    rewrite (IH (l + 1) (fun c => f c + lin_count A n dx dy [q] c)); try lia.
    + f_equal. apply dtab_ext. intros c _.
      rewrite (lin_count_cons n dx dy q (firstn k _)).
      rewrite (lin_count_cons n dx dy q []).
      change (lin_count A n dx dy [] c) with 0.
      replace (Z.to_nat (l + 1)) with (S (Z.to_nat l)) by lia.
      f_equal. lia.
    + replace (Z.to_nat (l + 1)) with (S (Z.to_nat l)) by lia. exact Hrest.
    + intros c. specialize (Hf c).
      pose proof (lin_count_bounds n dx dy [q] c). lia.
Qed.

End SourceCount.

Lemma print_rows (cell : Z -> D) (n : Z) (text : string) :
  0 <= n -> n * n < ULONG_MOD ->
  for_range 0 n (print_row_body fmt_e (dtab cell (Z.to_nat (n * n))) n) text
  = Ok (source_table fmt_e cell n text).
Proof.
  intros Hn Hs. unfold for_range, source_table. rewrite Z.sub_0_r.
  apply for_loop_zseq. intros i t Hi.
  unfold print_row_body, for_range, source_row. rewrite Z.sub_0_r.
  rewrite (for_loop_zseq _ (fun row j => row ++ fmt_e (cell (i + n * j)) ++ " ")).
  - reflexivity.
  - intros j r Hj. unfold print_cell_body.
    assert (Hij : 0 <= i + n * j < n * n) by nia.
    assert (Hnj : 0 <= n * j < n * n) by nia.
    unfold uadd, umul. rewrite (wrap64_small (n * j)) by lia.
    rewrite wrap64_small by lia.
    rewrite load_dtab by lia. reflexivity.
Qed.

Lemma source_table_ext (cell cell' : Z -> D) (n : Z) (text : string) :
  0 <= n ->
  (forall c, 0 <= c < n * n -> cell c = cell' c) ->
  source_table fmt_e cell n text = source_table fmt_e cell' n text.
Proof.
  intros Hn H. unfold source_table.
  apply fold_left_zseq_ext. intros i t Hi.
  unfold source_row. f_equal.
  apply fold_left_zseq_ext. intros j r Hj.
  rewrite H by nia. reflexivity.
Qed.

(** write_source counts every particle under the index [ix + n*iy] and
    prints the counts divided by [b->n], row [i] holding the indices
    [i + n*j]. *)
Lemma write_source_by_index (g : Geometry.t D) (b : Machine.Bank D)
    (params : Params.t) (contents : string) :
  let n := Params.n_bins params in
  let dx := Machine.f_div A (Geometry.x g) (Machine.f_of_ulong A n) in
  let dy := Machine.f_div A (Geometry.y g) (Machine.f_of_ulong A n) in
  0 <= n <= INT_MAX -> n * n * 8 < ULONG_MOD ->
  Machine.wf_bank b ->
  Forall (countable A n dx dy (n * n)) (Machine.live b) ->
  write_source A fmt_e g b params (Some contents)
  = Ok (source_table fmt_e
          (fun c => Machine.f_div A
                      (counted A (lin_count A n dx dy (Machine.live b) c))
                      (Machine.f_of_ulong A (Machine.n b)))
          n contents).
Proof.
  intros n dx dy Hn Hcal (Hbn & Hmod) Hin.
  assert (Hnn : 0 <= n * n < ULONG_MOD) by nia.
  assert (Hw : wrap64 n = n) by (apply wrap64_small; nia).
  unfold write_source. fold n. rewrite Hw. fold dx dy.
  assert (Hu : umul n n = n * n) by (apply wrap64_small; lia).
  rewrite Hu. rewrite calloc_fits by exact Hcal. rewrite repeat_dtab.
  unfold for_range at 1. rewrite Z.sub_0_r.
  pose proof (source_count_loop b n dx dy (Z.to_nat (n * n))
                (Z.to_nat (Machine.n b)) 0 (fun _ => 0)) as Hcount.
  cbv beta in Hcount.
  change (Machine.f_zero A) with (counted A 0).
  rewrite Hcount; clear Hcount; try lia.
  2:{ change (Z.to_nat 0) with 0%nat. rewrite skipn_O.
      rewrite Z2Nat.id by lia. exact Hin. }
  cbn [bind]. change (Z.to_nat 0) with 0%nat. rewrite skipn_O.
  fold (Machine.live b).
  unfold for_range at 1. rewrite Z.sub_0_r.
  rewrite normalize_loop. cbn [bind].
  destruct (Z.ltb_spec INT_MAX n); [lia|].
  rewrite print_rows by lia.
  reflexivity.
Qed.

(** X27. write_source counts every particle under the index [ix + n*iy],
    [ix] and [iy] being the double quotients [p->x/dx] and [p->y/dy]
    converted to [unsigned long], without comparing [ix] with [n].  In
    every arithmetic: when the [n*n] doubles can be allocated and every
    particle has an index inside them, it appends to the file the table
    whose row [i] holds, for [j = 0 .. n-1], the double counted up under
    [i + n*j] divided by [b->n]. *)
Theorem X27_write_source_table (g : Geometry.t D) (b : Machine.Bank D)
    (params : Params.t) (contents : string) :
  let n := Params.n_bins params in
  let dx := Machine.f_div A (Geometry.x g) (Machine.f_of_ulong A n) in
  let dy := Machine.f_div A (Geometry.y g) (Machine.f_of_ulong A n) in
  0 <= n <= INT_MAX -> n * n * 8 < ULONG_MOD ->
  Machine.wf_bank b ->
  Forall (countable A n dx dy (n * n)) (Machine.live b) ->
  write_source A fmt_e g b params (Some contents)
  = Ok (source_table fmt_e
          (fun c => Machine.f_div A
                      (counted A (lin_count A n dx dy (Machine.live b) c))
                      (Machine.f_of_ulong A (Machine.n b)))
          n contents).
Proof. exact (write_source_by_index g b params contents). Qed.

Lemma in_cell_index (n : Z) (dx dy : D) (q : Machine.Particle D) (ix iy : Z) :
  0 <= n -> n * n < ULONG_MOD ->
  cell_of A dx dy q = Ok (ix, iy) -> 0 <= ix -> 0 <= iy ->
  ix + n * iy < n * n ->
  lin_index A n dx dy q = Ok (ix + n * iy).
Proof.
  intros Hn Hnn Hc Hix Hiy Hlt.
  unfold cell_of in Hc. unfold lin_index.
  destruct (Machine.to_unsigned A (Machine.f_div A (Machine.x q) dx))
    as [ix'| |]; try discriminate Hc.
  cbn [bind] in Hc |- *.
  destruct (Machine.to_unsigned A (Machine.f_div A (Machine.y q) dy))
    as [iy'| |]; try discriminate Hc.
  cbn [bind] in Hc |- *.
  injection Hc as -> ->.
  assert (0 <= n * iy) by nia.
  unfold uadd, umul. rewrite (wrap64_small (n * iy)) by lia.
  rewrite wrap64_small by lia. reflexivity.
Qed.

Lemma in_cell_countable (n : Z) (dx dy : D) (q : Machine.Particle D) :
  0 <= n -> n * n < ULONG_MOD ->
  in_cell A n dx dy q -> countable A n dx dy (n * n) q.
Proof.
  intros Hn Hnn (ix & iy & Hc & Hx & Hy).
  exists (ix + n * iy). split; [|nia].
  apply in_cell_index; try assumption; try lia. nia.
Qed.

Lemma lin_count_cell (n : Z) (dx dy : D) (ps : list (Machine.Particle D)) (c : Z) :
  1 <= n -> n * n < ULONG_MOD ->
  Forall (in_cell A n dx dy) ps ->
  lin_count A n dx dy ps c = cell_count A dx dy ps (c mod n) (c / n).
Proof.
  intros Hn Hnn Hin. unfold lin_count, cell_count. f_equal.
  apply filter_ext_in. intros q Hq.
  rewrite Forall_forall in Hin.
  destruct (Hin q Hq) as (ix & iy & Hc & Hx & Hy).
  rewrite (in_cell_index n dx dy q ix iy) by (try assumption; try lia; nia).
  rewrite Hc.
  pose proof (Z.div_mod c n ltac:(lia)) as Hdm.
  pose proof (Z.mod_pos_bound c n ltac:(lia)) as Hmb.
  destruct (Z.eqb_spec (ix + n * iy) c) as [E|Hne].
  - assert (H : iy = c / n /\ ix = c mod n).
    { apply (Z.div_mod_unique n); lia. }
    destruct H as [-> ->]. now rewrite !Z.eqb_refl.
  - symmetry. apply andb_false_iff.
    destruct (Z.eqb_spec ix (c mod n)) as [E1|]; [|now left].
    destruct (Z.eqb_spec iy (c / n)) as [E2|]; [|now right].
    exfalso. apply Hne. lia.
Qed.

Lemma lin_count_total (n : Z) (dx dy : D) (cells : Z)
    (l : list (Machine.Particle D)) :
  0 <= cells ->
  Forall (countable A n dx dy cells) l ->
  Zsum (map (lin_count A n dx dy l) (zseq 0 (Z.to_nat cells))) = len l.
Proof.
  intros Hm. induction 1 as [|q l Hq Hl IH].
  - rewrite (Zsum_map_ext _ (fun _ => 0)) by reflexivity.
    apply Zsum_map_zero.
  - destruct Hq as [k [Ek Bk]].
    rewrite (Zsum_map_ext _
      (fun c => (if k =? c then 1 else 0) + lin_count A n dx dy l c)).
    2:{ intros c _. rewrite lin_count_cons, Ek. reflexivity. }
    rewrite Zsum_map_plus, IH, Zsum_indicator.
    destruct (Z.leb_spec 0 k); [|lia].
    destruct (Z.ltb_spec k (0 + Z.of_nat (Z.to_nat cells))); [|lia].
    unfold len. cbn [List.length andb]. lia.
Qed.

(** X28. write_source, in every arithmetic: for a bank whose particles all
    have a bin [(ix, iy)] with [ix < n] and [iy < n], the table appended to
    the file is the histogram of the particles on the [n x n] bins: row
    [i], column [j] holds the double counted up for the particles of the
    bin [(i, j)], divided by [b->n], and the counts of the bins add up to
    [b->n]. *)
Theorem X28_write_source_histogram (g : Geometry.t D) (b : Machine.Bank D)
    (params : Params.t) (contents : string) :
  let n := Params.n_bins params in
  let dx := Machine.f_div A (Geometry.x g) (Machine.f_of_ulong A n) in
  let dy := Machine.f_div A (Geometry.y g) (Machine.f_of_ulong A n) in
  1 <= n <= INT_MAX -> n * n * 8 < ULONG_MOD ->
  Machine.wf_bank b ->
  Forall (in_cell A n dx dy) (Machine.live b) ->
  write_source A fmt_e g b params (Some contents)
  = Ok (source_table fmt_e
          (fun c => Machine.f_div A
                      (counted A (cell_count A dx dy (Machine.live b)
                                    (c mod n) (c / n)))
                      (Machine.f_of_ulong A (Machine.n b)))
          n contents)
  /\ Zsum (map (fun c => cell_count A dx dy (Machine.live b) (c mod n) (c / n))
             (zseq 0 (Z.to_nat (n * n))))
     = Machine.n b.
Proof.
  intros n dx dy Hn Hcal Hwf Hin.
  assert (Hnn : n * n < ULONG_MOD) by nia.
  assert (Hc : Forall (countable A n dx dy (n * n)) (Machine.live b)).
  { eapply Forall_impl; [|exact Hin]. intros q Hq.
    apply in_cell_countable; try assumption; lia. }
  split.
  - rewrite (write_source_by_index g b params contents ltac:(fold n; lia)
               Hcal Hwf Hc).
    f_equal. fold n. apply source_table_ext; [lia|].
    intros c Hcr. fold dx dy.
    rewrite (lin_count_cell n dx dy (Machine.live b) c) by (try assumption; lia).
    reflexivity.
  - rewrite (Zsum_map_ext _ (lin_count A n dx dy (Machine.live b))).
    2:{ intros c _. symmetry. apply lin_count_cell; try assumption; lia. }
    rewrite (lin_count_total n dx dy (n * n)) by (try assumption; nia).
    apply machine_live_length. destruct Hwf as [Hb _]. exact Hb.
Qed.

(** An index [ix = n] is not rejected: the particle is counted under the
    index of the bin [(0, iy + 1)]. *)
Lemma write_source_wraps (g : Geometry.t D) (b b' : Machine.Bank D)
    (params : Params.t) (contents : string)
    (pre post : list (Machine.Particle D)) (q q' : Machine.Particle D) (iy : Z) :
  let n := Params.n_bins params in
  let dx := Machine.f_div A (Geometry.x g) (Machine.f_of_ulong A n) in
  let dy := Machine.f_div A (Geometry.y g) (Machine.f_of_ulong A n) in
  1 <= n <= INT_MAX -> n * n * 8 < ULONG_MOD ->
  Machine.wf_bank b -> Machine.wf_bank b' -> Machine.n b = Machine.n b' ->
  Machine.live b = (pre ++ q :: post)%list ->
  Machine.live b' = (pre ++ q' :: post)%list ->
  Forall (countable A n dx dy (n * n)) (pre ++ post)%list ->
  cell_of A dx dy q = Ok (n, iy) -> 0 <= iy -> iy + 1 < n ->
  cell_of A dx dy q' = Ok (0, iy + 1) ->
  (exists text, write_source A fmt_e g b params (Some contents) = Ok text)
  /\ write_source A fmt_e g b params (Some contents)
     = write_source A fmt_e g b' params (Some contents).
Proof.
  intros n dx dy Hn Hcal Hwf Hwf' Hbn Hl Hl' Hin Hq Hiy Hrow Hq'.
  assert (Hnn : n * n < ULONG_MOD) by nia.
  apply Forall_app in Hin as [Hpre Hpost].
  assert (Elin : lin_index A n dx dy q = Ok (n + n * iy)).
  { apply in_cell_index; try assumption; try lia. nia. }
  assert (Elin' : lin_index A n dx dy q' = Ok (0 + n * (iy + 1))).
  { apply in_cell_index; try assumption; try lia. nia. }
  assert (Hc : Forall (countable A n dx dy (n * n)) (Machine.live b)).
  { rewrite Hl. apply Forall_app. split; [exact Hpre|].
    constructor; [|exact Hpost]. exists (n + n * iy). split; [exact Elin | nia]. }
  assert (Hc' : Forall (countable A n dx dy (n * n)) (Machine.live b')).
  { rewrite Hl'. apply Forall_app. split; [exact Hpre|].
    constructor; [|exact Hpost].
    exists (0 + n * (iy + 1)). split; [exact Elin' | nia]. }
  rewrite (write_source_by_index g b params contents ltac:(fold n; lia)
             Hcal Hwf Hc).
  rewrite (write_source_by_index g b' params contents ltac:(fold n; lia)
             Hcal Hwf' Hc').
  split; [eexists; reflexivity|].
  f_equal. fold n dx dy. apply source_table_ext; [lia|].
  intros c _. rewrite Hbn, Hl, Hl'.
  rewrite !lin_count_app, !lin_count_cons, Elin, Elin'.
  replace (0 + n * (iy + 1)) with (n + n * iy) by ring. reflexivity.
Qed.

(** With an empty bank every entry is [0.0/0]. *)
Lemma write_source_empty_bank (g : Geometry.t D) (b : Machine.Bank D)
    (params : Params.t) (contents : string) :
  let n := Params.n_bins params in
  Machine.n b = 0 -> 0 <= n <= INT_MAX -> n * n * 8 < ULONG_MOD ->
  write_source A fmt_e g b params (Some contents)
  = Ok (source_table fmt_e
          (fun _ => Machine.f_div A (Machine.f_zero A) (Machine.f_of_ulong A 0))
          n contents).
Proof.
  intros n Hb Hn Hcal.
  assert (Hnn : 0 <= n * n < ULONG_MOD) by nia.
  assert (Hw : wrap64 n = n) by (apply wrap64_small; nia).
  unfold write_source. fold n. rewrite Hw, Hb.
  assert (Hu : umul n n = n * n) by (apply wrap64_small; lia).
  rewrite Hu, calloc_fits by exact Hcal. rewrite repeat_dtab.
  unfold for_range at 1. change (Z.to_nat (0 - 0)) with 0%nat. cbn [for_loop bind].
  unfold for_range at 1. rewrite Z.sub_0_r.
  rewrite normalize_loop. cbn [bind].
  destruct (Z.ltb_spec INT_MAX n); [lia|].
  rewrite print_rows by lia.
  reflexivity.
Qed.

(** Without an array [dist]: the first access is undefined. *)
Lemma write_source_no_array (g : Geometry.t D) (b : Machine.Bank D)
    (params : Params.t) (file : option string) :
  let n := wrap64 (Params.n_bins params) in
  calloc (umul n n) 8 (Machine.f_zero A) = [] ->
  1 <= Machine.n b \/ 1 <= umul n n ->
  write_source A fmt_e g b params file = Undefined.
Proof.
  intros n Hnull Hacc. unfold write_source. fold n. rewrite Hnull.
  unfold for_range at 1. rewrite Z.sub_0_r.
  destruct (Z.to_nat (Machine.n b)) as [|k] eqn:Ek.
  - cbn [for_loop bind].
    destruct Hacc as [Hb | Hu]; [lia|].
    unfold for_range at 1. rewrite Z.sub_0_r.
    destruct (Z.to_nat (umul n n)) as [|k'] eqn:Ek'; [lia|].
    reflexivity.
  - cbn [for_loop]. unfold source_count_body at 1.
    destruct (load (Machine.p b) 0) as [q| |] eqn:El.
    + cbn [bind].
      destruct (lin_index A n
                  (Machine.f_div A (Geometry.x g) (Machine.f_of_ulong A n))
                  (Machine.f_div A (Geometry.y g) (Machine.f_of_ulong A n)) q)
        as [i| |] eqn:Ei.
      * cbn [bind]. unfold load. destruct (0 <=? i); [|reflexivity].
        destruct (Z.to_nat i); reflexivity.
      * exfalso. unfold lin_index, Machine.to_unsigned in Ei.
        destruct (Machine.f_to_ulong A _); [|discriminate Ei].
        cbn [bind] in Ei.
        destruct (Machine.f_to_ulong A _); discriminate Ei.
      * reflexivity.
    + exfalso. unfold load in El. destruct (0 <=? 0); [|discriminate El].
      destruct (nth_error (Machine.p b) (Z.to_nat 0)); discriminate El.
    + reflexivity.
Qed.

End OutputFacts.

(** X29. write_source does not compare [ix] with [n].  In every
    arithmetic, a particle whose quotient [p->x/dx] converts to [ix = n],
    in a row [iy < n - 1], is counted under the index of the bin
    [(0, iy + 1)], and the file written is the one that is written when the
    particle lies in that bin.  In binary64 the particle on the upper face
    [x = gx] has [ix = n] for [gx = 1] and [n = 2], and [ix = n - 1] for
    [gx = 100] and [n = 11], where [100/(100/11)] is rounded below 11. *)
Theorem X29_write_source_upper_face :
  (forall (D : Type) (A : Machine.arith D) (fmt_e : D -> string)
          (g : Geometry.t D) (b b' : Machine.Bank D) (params : Params.t)
          (contents : string) (pre post : list (Machine.Particle D))
          (q q' : Machine.Particle D) (iy : Z),
     let n := Params.n_bins params in
     let dx := Machine.f_div A (Geometry.x g) (Machine.f_of_ulong A n) in
     let dy := Machine.f_div A (Geometry.y g) (Machine.f_of_ulong A n) in
     1 <= n <= INT_MAX -> n * n * 8 < ULONG_MOD ->
     Machine.wf_bank b -> Machine.wf_bank b' -> Machine.n b = Machine.n b' ->
     Machine.live b = (pre ++ q :: post)%list ->
     Machine.live b' = (pre ++ q' :: post)%list ->
     Forall (countable A n dx dy (n * n)) (pre ++ post)%list ->
     cell_of A dx dy q = Ok (n, iy) -> 0 <= iy -> iy + 1 < n ->
     cell_of A dx dy q' = Ok (0, iy + 1) ->
     (exists text, write_source A fmt_e g b params (Some contents) = Ok text)
     /\ write_source A fmt_e g b params (Some contents)
        = write_source A fmt_e g b' params (Some contents))
  /\ Machine.to_unsigned Machine.binary64
       (PrimFloat.div PrimFloat.one
          (PrimFloat.div PrimFloat.one (Machine.b64_of_ulong 2))) = Ok 2
  /\ Machine.to_unsigned Machine.binary64
       (PrimFloat.div (Machine.b64_of_ulong 100)
          (PrimFloat.div (Machine.b64_of_ulong 100) (Machine.b64_of_ulong 11)))
     = Ok 10.
Proof.
  split; [|split].
  - intros D A fmt_e g b b' params contents pre post q q' iy.
    exact (write_source_wraps A fmt_e g b b' params contents pre post q q' iy).
  - vm_compute. reflexivity.
  - vm_compute. reflexivity.
Qed.

(** X30. write_source on degenerate input, in every arithmetic.  With an
    empty bank ([b->n = 0]) every count is divided by zero and every entry
    of the table is [0.0/0], a NaN in binary64.  With no bins
    ([n_bins = 0], which [read_CLI] accepts) and a bank that is not empty,
    the first particle is counted in an array of no element, or its index
    cannot be converted; and with so many bins that [n*n] doubles are no
    [size_t] ([8*n*n >= 2^64], from [n_bins = 1518500250]) [calloc] returns
    a null pointer that the code does not test: in both cases the behaviour
    is undefined, whatever the geometry, the particles and the file. *)
Theorem X30_write_source_degenerate :
  (forall (D : Type) (A : Machine.arith D) (fmt_e : D -> string)
          (g : Geometry.t D) (b : Machine.Bank D) (params : Params.t)
          (contents : string) (file : option string),
     let n := Params.n_bins params in
     (Machine.n b = 0 -> 0 <= n <= INT_MAX -> n * n * 8 < ULONG_MOD ->
      write_source A fmt_e g b params (Some contents)
      = Ok (source_table fmt_e
              (fun _ => Machine.f_div A (Machine.f_zero A) (Machine.f_of_ulong A 0))
              n contents))
     /\ (n = 0 -> 1 <= Machine.n b ->
         write_source A fmt_e g b params file = Undefined)
     /\ (1 <= n <= INT_MAX -> ULONG_MOD <= n * n * 8 ->
         write_source A fmt_e g b params file = Undefined))
  /\ FloatOps.Prim2SF
       (PrimFloat.div PrimFloat.zero (Machine.b64_of_ulong 0))
     = SpecFloat.S754_nan.
Proof.
  split; [|vm_compute; reflexivity].
  intros D A fmt_e g b params contents file n. split; [|split].
  - exact (write_source_empty_bank A fmt_e g b params contents).
  - intros Hn Hb. apply write_source_no_array; [|left; exact Hb].
    fold n. rewrite Hn. reflexivity.
  - intros Hn Hbig.
    assert (Hw : wrap64 n = n)
      by (apply wrap64_small; unfold INT_MAX, ULONG_MOD in *; lia).
    assert (Hu : umul n n = n * n)
      by (apply wrap64_small; unfold INT_MAX, ULONG_MOD in *; nia).
    apply write_source_no_array; fold n; rewrite Hw, Hu.
    + unfold calloc.
      destruct (Z.ltb_spec (n * n * 8) ULONG_MOD); [lia | reflexivity].
    + right. nia.
Qed.

(** *** Worked examples in binary64: particles in the unit square *)

Lemma wf_bank_list {D : Type} (l : list (Machine.Particle D)) :
  len l < ULONG_MOD -> Machine.wf_bank (Machine.bank_of l).
Proof.
  intros H. unfold Machine.wf_bank, Machine.bank_of; simpl.
  pose proof (len_nonneg l). lia.
Qed.

Lemma two_bins_fit :
  0 <= 2 <= INT_MAX /\ 1 <= 2 <= INT_MAX /\ 2 * 2 * 8 < ULONG_MOD.
Proof. unfold INT_MAX, ULONG_MOD. lia. Qed.

Lemma X27_witness :
  write_source Machine.binary64 (fun _ => "x") unit_square
    (Machine.bank_of [south_west; south_east]) two_bins (Some "")
  = Ok (source_table (fun _ => "x")
          (fun c => PrimFloat.div
                      (counted Machine.binary64
                         (lin_count Machine.binary64 2
                            (PrimFloat.div PrimFloat.one (Machine.b64_of_ulong 2))
                            (PrimFloat.div PrimFloat.one (Machine.b64_of_ulong 2))
                            [south_west; south_east] c))
                      (Machine.b64_of_ulong 2))
          2 "").
Proof.
  apply (X27_write_source_table Machine.binary64 (fun _ => "x") unit_square
           (Machine.bank_of [south_west; south_east]) two_bins "").
  - exact (proj1 two_bins_fit).
  - exact (proj2 (proj2 two_bins_fit)).
  - apply wf_bank_list. unfold len, ULONG_MOD. simpl. lia.
  - apply Forall_cons; [exists 0; split; [vm_compute; reflexivity | simpl; lia]|].
    apply Forall_cons; [exists 1; split; [vm_compute; reflexivity | simpl; lia]|].
    apply Forall_nil.
Defined.

Lemma X28_witness :
  write_source Machine.binary64 (fun _ => "x") unit_square
    (Machine.bank_of [south_west; south_east]) two_bins (Some "")
  = Ok (source_table (fun _ => "x")
          (fun c => PrimFloat.div
                      (counted Machine.binary64
                         (cell_count Machine.binary64
                            (PrimFloat.div PrimFloat.one (Machine.b64_of_ulong 2))
                            (PrimFloat.div PrimFloat.one (Machine.b64_of_ulong 2))
                            [south_west; south_east] (c mod 2) (c / 2)))
                      (Machine.b64_of_ulong 2))
          2 "")
  /\ Zsum (map (fun c => cell_count Machine.binary64
                           (PrimFloat.div PrimFloat.one (Machine.b64_of_ulong 2))
                           (PrimFloat.div PrimFloat.one (Machine.b64_of_ulong 2))
                           [south_west; south_east] (c mod 2) (c / 2))
             (zseq 0 (Z.to_nat (2 * 2))))
     = 2.
Proof.
  apply (X28_write_source_histogram Machine.binary64 (fun _ => "x") unit_square
           (Machine.bank_of [south_west; south_east]) two_bins "").
  - exact (proj1 (proj2 two_bins_fit)).
  - exact (proj2 (proj2 two_bins_fit)).
  - apply wf_bank_list. unfold len, ULONG_MOD. simpl. lia.
  - apply Forall_cons;
      [exists 0, 0; split; [vm_compute; reflexivity | simpl; lia]|].
    apply Forall_cons;
      [exists 1, 0; split; [vm_compute; reflexivity | simpl; lia]|].
    apply Forall_nil.
Defined.

Lemma X29_witness :
  (exists text,
     write_source Machine.binary64 (fun _ => "x") unit_square
       (Machine.bank_of [south_west; on_face]) two_bins (Some "") = Ok text)
  /\ write_source Machine.binary64 (fun _ => "x") unit_square
       (Machine.bank_of [south_west; on_face]) two_bins (Some "")
     = write_source Machine.binary64 (fun _ => "x") unit_square
         (Machine.bank_of [south_west; north_west]) two_bins (Some "").
Proof.
  apply (proj1 X29_write_source_upper_face _ Machine.binary64 (fun _ => "x")
           unit_square (Machine.bank_of [south_west; on_face])
           (Machine.bank_of [south_west; north_west]) two_bins ""
           [south_west] [] on_face north_west 0).
  - exact (proj1 (proj2 two_bins_fit)).
  - exact (proj2 (proj2 two_bins_fit)).
  - apply wf_bank_list. unfold len, ULONG_MOD. simpl. lia.
  - apply wf_bank_list. unfold len, ULONG_MOD. simpl. lia.
  - reflexivity.
  - reflexivity.
  - reflexivity.
  - apply Forall_cons; [exists 0; split; [vm_compute; reflexivity | simpl; lia]|].
    apply Forall_nil.
  - vm_compute. reflexivity.
  - lia.
  - simpl. lia.
  - vm_compute. reflexivity.
Defined.

Lemma X30_witness :
  write_source Machine.binary64 (fun _ => "x") unit_square
    (Machine.bank_of []) two_bins (Some "")
  = Ok (source_table (fun _ => "x")
          (fun _ => PrimFloat.div PrimFloat.zero (Machine.b64_of_ulong 0)) 2 "")
  /\ write_source Machine.binary64 (fun _ => "x") unit_square
       (Machine.bank_of [south_west]) (Params.set_n_bins 0 example_params) None
     = Undefined
  /\ write_source Machine.binary64 (fun _ => "x") unit_square
       (Machine.bank_of [south_west])
       (Params.set_n_bins 1518500250 example_params) (Some "")
     = Undefined.
Proof.
  pose proof (proj1 X30_write_source_degenerate _ Machine.binary64
                (fun _ => "x") unit_square) as H.
  split; [|split].
  - apply (proj1 (H (Machine.bank_of []) two_bins "" None)).
    + reflexivity.
    + exact (proj1 two_bins_fit).
    + exact (proj2 (proj2 two_bins_fit)).
  - apply (proj1 (proj2 (H (Machine.bank_of [south_west])
                           (Params.set_n_bins 0 example_params) "" None))).
    + reflexivity.
    + unfold Machine.bank_of, len. simpl. lia.
  - apply (proj2 (proj2 (H (Machine.bank_of [south_west])
                           (Params.set_n_bins 1518500250 example_params)
                           "" (Some "")))).
    + unfold INT_MAX. simpl. lia.
    + unfold ULONG_MOD. simpl. lia.
Defined.
